(** * battle-puno: the scenes of [js/scenes.js]

    A shallow embedding of the scene classes of [js/scenes.js]
    ([Scene_Base], [Scene_Load], [Scene_Intro], [Scene_Game]) and the
    properties of their fade transition, widget bookkeeping, overlay
    protocol, button cooldown, card-sprite pool, animation counter and
    hand layout.

    JavaScript numbers are embedded as [Z] where the code counts (timers,
    counters, indices, owner tags) and as rationals [Q] where it measures
    (opacity, coordinates). A measure stands for the exact value of a
    double. Where the code takes a decision from a double, which is the
    digit [toFixed(3)] chooses in [arrangeHandCards], the operations are
    rounded as binary64 rounds them ([fl64]); elsewhere the rounding error
    of an operation, at most one part in [2^53], is left out. *)

From Stdlib Require Import ZArith QArith Qround Qabs Qpower Lia Lqa Bool.
From stdpp Require Import base option list gmap strings pretty.

Local Open Scope Z_scope.

(** ** JavaScript idioms *)

(** [x || d] on a possibly missing number: [undefined] and [0] are falsy. *)
Definition js_or (x : option Z) (d : Z) : Z :=
  match x with
  | Some v => if v =? 0 then d else v
  | None => d
  end.

(** ** Numbers

    A JavaScript number is an IEEE 754 binary64 value; [+], [-], [*] and
    [/] give the double nearest to the exact result, a tie going to the
    even significand. *)

(** The integer nearest to [q], a tie going to the even one. *)
Definition roundHalfEven (q : Q) : Z :=
  let f := Qfloor q in
  match Qcompare (q - inject_Z f) (1 # 2) with
  | Lt => f
  | Gt => f + 1
  | Eq => if Z.even f then f else f + 1
  end.

(** The exponent [e] with [2^e <= |x| < 2^(e+1)], for [x] other than [0]. *)
Definition binade (x : Q) : Z :=
  let e := Z.log2 (Z.abs (Qnum x)) - Z.log2 (Zpos (Qden x)) in
  if Qle_bool (Qpower 2 e) (Qabs x) then e else e - 1.

(** The double nearest to [x]: 53 significant bits, the exponent not
    below [-1022] (smaller numbers are subnormal and may round to [0]).
    Overflow to [Infinity], above [2^1024], is left out: the numbers are
    pixel measures. *)
Definition fl64 (x : Q) : Q :=
  let x := Qred x in
  if Qeq_bool x 0 then 0%Q
  else
    let ulp := Qpower 2 (Z.max (binade x) (-1022) - 52) in
    Qred (inject_Z (roundHalfEven (x / ulp)) * ulp).

(** [a - b], [a * b] and [a / b] on doubles. A division by [0], which
    gives [Infinity] or [NaN] in JavaScript, gives [0] here: the
    properties that divide ask for a divisor other than [0]. *)
Definition fsub (a b : Q) : Q := fl64 (a - b).
Definition fmul (a b : Q) : Q := fl64 (a * b).
Definition fdiv (a b : Q) : Q := fl64 (a / b).

(** ** Scene children

    [Sprite] and [Window_Base] are declared outside [js/scenes.js]; a
    child of a scene is an object in a store, addressed by reference, and
    carries the properties the scenes read and write. *)

Abbreviation ref := nat (only parsing).

Record Widget := mkWidget {
  w_active : bool;
  w_lastActiveState : bool;      (* [undefined] reads as [false] *)
  w_alwaysActive : bool;
  w_isWindow : bool;
  w_visible : bool;
  w_z : Z;
  w_oriZ : Z;
  w_disposed : bool;
  w_paused : bool;
  w_ticks : nat;                 (* [update()] calls received *)
  w_className : string           (* what [getClassName] gives *)
}.

(** Modelled from the spec: the methods of [Sprite]/[Window_Base] that the
    scenes call ([activate], [deactivate], [isActive], [show], [hide],
    [setZ], [clear], [isDisposed], [update]) are missing from [js/]; each
    one sets or reads the property it is named after. *)
Definition w_activate (w : Widget) : Widget :=
  mkWidget true (w_lastActiveState w) (w_alwaysActive w) (w_isWindow w)
    (w_visible w) (w_z w) (w_oriZ w) (w_disposed w) (w_paused w) (w_ticks w) (w_className w).

Definition w_deactivate (w : Widget) : Widget :=
  mkWidget false (w_lastActiveState w) (w_alwaysActive w) (w_isWindow w)
    (w_visible w) (w_z w) (w_oriZ w) (w_disposed w) (w_paused w) (w_ticks w) (w_className w).

Definition w_setLastActiveState (b : bool) (w : Widget) : Widget :=
  mkWidget (w_active w) b (w_alwaysActive w) (w_isWindow w)
    (w_visible w) (w_z w) (w_oriZ w) (w_disposed w) (w_paused w) (w_ticks w) (w_className w).

Definition w_setVisible (b : bool) (w : Widget) : Widget :=
  mkWidget (w_active w) (w_lastActiveState w) (w_alwaysActive w) (w_isWindow w)
    b (w_z w) (w_oriZ w) (w_disposed w) (w_paused w) (w_ticks w) (w_className w).

Definition w_setZ (z : Z) (w : Widget) : Widget :=
  mkWidget (w_active w) (w_lastActiveState w) (w_alwaysActive w) (w_isWindow w)
    (w_visible w) z (w_oriZ w) (w_disposed w) (w_paused w) (w_ticks w) (w_className w).

Definition w_setOriZ (z : Z) (w : Widget) : Widget :=
  mkWidget (w_active w) (w_lastActiveState w) (w_alwaysActive w) (w_isWindow w)
    (w_visible w) (w_z w) z (w_disposed w) (w_paused w) (w_ticks w) (w_className w).

Definition w_clear (w : Widget) : Widget :=
  mkWidget (w_active w) (w_lastActiveState w) (w_alwaysActive w) (w_isWindow w)
    (w_visible w) (w_z w) (w_oriZ w) true (w_paused w) (w_ticks w) (w_className w).

Definition w_setPaused (b : bool) (w : Widget) : Widget :=
  mkWidget (w_active w) (w_lastActiveState w) (w_alwaysActive w) (w_isWindow w)
    (w_visible w) (w_z w) (w_oriZ w) (w_disposed w) b (w_ticks w) (w_className w).

Definition w_update (w : Widget) : Widget :=
  mkWidget (w_active w) (w_lastActiveState w) (w_alwaysActive w) (w_isWindow w)
    (w_visible w) (w_z w) (w_oriZ w) (w_disposed w) (w_paused w) (S (w_ticks w)) (w_className w).

(** The object store. A method call on a reference rewrites the object
    in place; every holder of the reference sees the change. *)
Abbreviation Store := (gmap ref Widget) (only parsing).

Definition call (f : Widget -> Widget) (r : ref) (h : Store) : Store :=
  alter f r h.

Definition w_isActive (h : Store) (r : ref) : bool :=
  from_option w_active false (h !! r).

Definition w_isDisposed (h : Store) (r : ref) : bool :=
  from_option w_disposed false (h !! r).

(** Modelled from the spec: the global [getClassName] is missing from
    [js/]; it gives the name of the class of an object, which is kept
    here with the object. *)
Definition getClassName (h : Store) (r : ref) : string :=
  from_option w_className "" (h !! r).

(** [children.forEach(f)] for a callback that only touches the child. *)
Definition forEach (f : ref -> Store -> Store) (cs : list ref) (h : Store) : Store :=
  foldl (fun acc r => f r acc) h cs.

(** [Array.prototype.indexOf]: the first position of [x], or [-1]. *)
Fixpoint indexOf_from (i : Z) (x : ref) (l : list ref) : Z :=
  match l with
  | [] => -1
  | y :: l' => if Nat.eqb y x then i else indexOf_from (i + 1) x l'
  end.

Definition indexOf (x : ref) (l : list ref) : Z := indexOf_from 0 x l.

(** ** Completions

    A method either returns or throws; in both cases the writes it made
    to the scene stay. *)

Inductive Completion (S A : Type) : Type :=
| Return (a : A) (s : S)
| Throw (e : string) (s : S).

Arguments Return {S A} a s.
Arguments Throw {S A} e s.

Definition M (S A : Type) : Type := S -> Completion S A.

Definition ret {S A} (a : A) : M S A := fun s => Return a s.

Definition throw {S A} (e : string) : M S A := fun s => Throw e s.

Definition bind {S A B} (m : M S A) (k : A -> M S B) : M S B :=
  fun s => match m s with
           | Return a s' => k a s'
           | Throw e s' => Throw e s'
           end.

Definition get {S} : M S S := fun s => Return s s.

Definition modify {S} (f : S -> S) : M S unit := fun s => Return tt (f s).

Notation "'let!' x ':=' m 'in' k" := (bind m (fun x => k))
  (at level 10, x name, m at level 100, k at level 200).
Notation "m ;;; k" := (bind m (fun _ => k))
  (at level 100, k at level 200, right associativity).

(** The scene a completion leaves behind. *)
Definition final {S A} (c : Completion S A) : S :=
  match c with
  | Return _ s => s
  | Throw _ s => s
  end.

Definition returned {S A} (c : Completion S A) : bool :=
  match c with
  | Return _ _ => true
  | Throw _ _ => false
  end.

(** ** Scene_Base *)

Module Scene_Base.

Record t := mk {
  _active : bool;
  _windows : list ref;
  _fadingFlag : Z;
  _fadingTimer : Z;
  _fadeSign : Z;                 (* [undefined] until a fade starts: reads as [0] *)
  _buttonCooldown : gmap Z Z;    (* [new Array(0xff)]: every slot empty *)
  fadeOpacity : Q;               (* [_fadingSprite.opacity] *)
  fadeShown : bool;              (* [_fadingSprite] visible *)
  children : list ref;
  overlay : option ref;
  dimmed : bool;                 (* [Graphics.dimSprite] rendered *)
  store : Store;
  console : list string          (* [console.error] lines, oldest first *)
}.

Definition constructor : t :=
  mk false [] 0 0 0 ∅ 0%Q false [] None false ∅ [].

Definition set_store (h : Store) (s : t) : t :=
  mk (_active s) (_windows s) (_fadingFlag s) (_fadingTimer s) (_fadeSign s)
     (_buttonCooldown s) (fadeOpacity s) (fadeShown s) (children s) (overlay s)
     (dimmed s) h (console s).

Definition set_windows (ws : list ref) (s : t) : t :=
  mk (_active s) ws (_fadingFlag s) (_fadingTimer s) (_fadeSign s)
     (_buttonCooldown s) (fadeOpacity s) (fadeShown s) (children s) (overlay s)
     (dimmed s) (store s) (console s).

Definition set_children (cs : list ref) (s : t) : t :=
  mk (_active s) (_windows s) (_fadingFlag s) (_fadingTimer s) (_fadeSign s)
     (_buttonCooldown s) (fadeOpacity s) (fadeShown s) cs (overlay s)
     (dimmed s) (store s) (console s).

Definition set_active (b : bool) (s : t) : t :=
  mk b (_windows s) (_fadingFlag s) (_fadingTimer s) (_fadeSign s)
     (_buttonCooldown s) (fadeOpacity s) (fadeShown s) (children s) (overlay s)
     (dimmed s) (store s) (console s).

Definition set_overlay (o : option ref) (s : t) : t :=
  mk (_active s) (_windows s) (_fadingFlag s) (_fadingTimer s) (_fadeSign s)
     (_buttonCooldown s) (fadeOpacity s) (fadeShown s) (children s) o
     (dimmed s) (store s) (console s).

Definition set_dimmed (b : bool) (s : t) : t :=
  mk (_active s) (_windows s) (_fadingFlag s) (_fadingTimer s) (_fadeSign s)
     (_buttonCooldown s) (fadeOpacity s) (fadeShown s) (children s) (overlay s)
     b (store s) (console s).

Definition set_buttonCooldown (m : gmap Z Z) (s : t) : t :=
  mk (_active s) (_windows s) (_fadingFlag s) (_fadingTimer s) (_fadeSign s)
     m (fadeOpacity s) (fadeShown s) (children s) (overlay s)
     (dimmed s) (store s) (console s).

Definition set_fade (flag timer sign : Z) (opa : Q) (shown : bool) (s : t) : t :=
  mk (_active s) (_windows s) flag timer sign
     (_buttonCooldown s) opa shown (children s) (overlay s)
     (dimmed s) (store s) (console s).

Definition console_error (msg : string) (s : t) : t :=
  mk (_active s) (_windows s) (_fadingFlag s) (_fadingTimer s) (_fadeSign s)
     (_buttonCooldown s) (fadeOpacity s) (fadeShown s) (children s) (overlay s)
     (dimmed s) (store s) (console s ++ [msg]).

(** *** Fade transition *)

Definition startFadeIn (duration : option Z) (s : t) : t :=
  set_fade (_fadingFlag s) (js_or duration 30) 1 1%Q true s.

Definition startFadeOut (duration : option Z) (s : t) : t :=
  set_fade (_fadingFlag s) (js_or duration 30) (-1) 0%Q true s.

Definition onFadeComplete (s : t) : t :=
  set_fade 0 0 (_fadeSign s) (fadeOpacity s) (fadeShown s) s.

Definition updateFading (s : t) : t :=
  if _fadingTimer s <=? 0 then s
  else
    let d := inject_Z (_fadingTimer s) in
    let opa := fadeOpacity s in
    let opa' := if 0 <? _fadeSign s
                then (opa - opa / d)%Q
                else (opa + (1 - opa) / d)%Q in
    let s1 := set_fade (_fadingFlag s) (_fadingTimer s - 1) (_fadeSign s)
                       opa' (fadeShown s) s in
    if _fadingTimer s1 <=? 0 then onFadeComplete s1 else s1.

Definition fadeSpeed : Z := 24.
Definition slowFadeSpeed : Z := fadeSpeed * 2.

Definition fadeOutAll (s : t) : t := startFadeOut (Some slowFadeSpeed) s.

Definition isBusy (s : t) : bool := 0 <? _fadingTimer s.

(** The two directions of a fade, and the opacity each one ends at: the
    fade sprite covers the screen, so fading in takes it from 1 to 0. *)
Inductive FadeKind := FadeIn | FadeOut.

Definition startFade (k : FadeKind) (duration : option Z) (s : t) : t :=
  match k with
  | FadeIn => startFadeIn duration s
  | FadeOut => startFadeOut duration s
  end.

Definition fadeTarget (k : FadeKind) : Q :=
  match k with
  | FadeIn => 0%Q
  | FadeOut => 1%Q
  end.

Definition fadeSignOf (k : FadeKind) : Z :=
  match k with
  | FadeIn => 1
  | FadeOut => -1
  end.

(** The opacity [j] ticks into a fade of [n] frames. *)
Definition fadeCurve (k : FadeKind) (n : Z) (j : nat) : Q :=
  match k with
  | FadeIn => (1 - inject_Z (Z.of_nat j) / inject_Z n)%Q
  | FadeOut => (inject_Z (Z.of_nat j) / inject_Z n)%Q
  end.

(** *** Frame update *)

Definition updateChildren (s : t) : t :=
  set_store
    (forEach (fun child h =>
                if negb (bool_decide (is_Some (overlay s)))
                   || negb (from_option w_isWindow false (h !! child))
                   || bool_decide (overlay s = Some child)
                then call w_update child h else h)
             (children s) (store s))
    s.

Definition update (s : t) : t := updateChildren (updateFading s).

(** *** Lifecycle *)

Definition deactivateChildren (s : t) : t :=
  set_store (forEach (call w_deactivate) (children s) (store s)) s.

Definition preTerminate (s : t) : t :=
  deactivateChildren (startFadeOut None s).

Definition disposeWindowAt (index : Z) : M t unit := fun s =>
  if index <=? -1 then
    Return tt (console_error "Trying to dispose the window not rendered yet" s)
  else
    match _windows s !! Z.to_nat index with
    | None => Throw "TypeError" s
    | Some w =>
        Return tt (set_windows (delete (Z.to_nat index) (_windows s))
                     (set_store (call w_clear w (store s)) s))
    end.

(** [for(let i=0;i<this._windows.length;++i) this.disposeWindowAt(i)]:
    the bound is read again on every round. *)
Fixpoint disposeLoop (fuel : nat) (i : nat) : M t unit := fun s =>
  match fuel with
  | O => Return tt s
  | S fuel' =>
      if (i <? length (_windows s))%nat
      then (disposeWindowAt (Z.of_nat i) ;;; disposeLoop fuel' (S i)) s
      else Return tt s
  end.

Definition disposeAllWindows : M t unit := fun s =>
  (disposeLoop (length (_windows s)) 0 ;;; modify (set_windows [])) s.

Definition removeWindow (win : ref) : M t unit := fun s =>
  disposeWindowAt (indexOf win (_windows s)) s.

Definition terminate : M t unit := disposeAllWindows.

Definition isActive (s : t) : bool := _active s.

(** The global sprites and windows that [start] renders live in
    [Graphics]; only the flag is kept here. *)
Definition start (s : t) : t := set_active true s.

Definition stop (s : t) : t := set_active false s.

(** Modelled from the spec: [addChild] belongs to the display container
    [Stage], which is missing from [js/]; a child is kept once and the
    newest one is last. *)
Definition addChild (c : ref) (s : t) : t :=
  set_children (filter (fun r => r <> c) (children s) ++ [c]) s.

Definition addWindow (win : ref) (forced : bool) : M t unit := fun s =>
  if negb (isActive s) && negb forced then
    Return tt (console_error "Trying to add window to stopped scene" s)
  else if w_isDisposed (store s) win then
    Return tt (console_error ("Try to add disposed window: "
                              +:+ getClassName (store s) win) s)
  else
    Return tt (addChild win (set_windows (_windows s ++ [win]) s)).

Definition pause (s : t) : t :=
  set_store
    (forEach (fun sp h =>
                let h1 := call (w_setPaused true) sp h in
                let h2 := if w_isActive h1 sp
                          then call (w_setLastActiveState (w_isActive h1 sp)) sp h1
                          else h1 in
                call w_deactivate sp h2)
             (children s) (store s))
    s.

Definition resume (s : t) : t :=
  set_store
    (forEach (fun sp h =>
                let h1 := call (w_setPaused false) sp h in
                if from_option w_lastActiveState false (h1 !! sp)
                then call w_activate sp h1 else h1)
             (children s) (store s))
    s.

(** *** Button cooldown *)

Definition heatupButton (kid : Z) (s : t) : t :=
  set_buttonCooldown (<[kid := 4]> (_buttonCooldown s)) s.

Definition isButtonCooled (kid : Z) (s : t) : bool :=
  js_or (_buttonCooldown s !! kid) 0 =? 0.

(** *** Overlay *)

Definition raiseOverlay (ovs : option ref) (s : t) : t :=
  match ovs with
  | None => s
  | Some o =>
      let h0 := store s in
      let h1 := call (w_setOriZ (from_option w_z 0 (h0 !! o))) o h0 in
      let h2 := call (w_setZ 273) o h1 in
      let h3 := forEach (fun sp h =>
                  if from_option w_alwaysActive false (h !! sp) then h
                  else if bool_decide (sp <> o)
                       then call w_deactivate sp
                              (call (w_setLastActiveState (w_isActive h sp)) sp h)
                       else h)
                  (children s) h2 in
      let h4 := call w_activate o (call (w_setVisible true) o h3) in
      set_store h4 (set_dimmed true (set_overlay (Some o) s))
  end.

Definition closeOverlay (s : t) : t :=
  match overlay s with
  | None => s
  | Some o =>
      let h1 := call w_deactivate o (call (w_setVisible false) o (store s)) in
      let h2 := forEach (fun sp h =>
                  if bool_decide (sp <> o)
                     && from_option w_lastActiveState false (h !! sp)
                  then call w_activate sp h else h)
                  (children s) h1 in
      let h3 := call (w_setZ (from_option w_oriZ 0 (h2 !! o))) o h2 in
      set_overlay None (set_store h3 (set_dimmed false s))
  end.

End Scene_Base.

(** ** Scene_Load *)

Module Scene_Load.

Record t := mk {
  base : Scene_Base.t;
  allLoaded : bool;
  loading_timer : Z;
  loadingComplete : bool          (* [processLoadingComplete] was called *)
}.

Definition constructor : t := mk Scene_Base.constructor false 0 false.

Definition set_base (b : Scene_Base.t) (s : t) : t :=
  mk b (allLoaded s) (loading_timer s) (loadingComplete s).

Definition updateButtonCooldown (s : t) : t :=
  set_base
    (Scene_Base.set_buttonCooldown
       (foldl (fun m i =>
                 if 0 <? js_or (m !! i) 0
                 then <[i := js_or (m !! i) 0 - 1]> m
                 else m)
              (Scene_Base._buttonCooldown (base s)) (seqZ 0 255))
       (base s))
    s.

Definition processLoadingComplete (s : t) : t :=
  mk (base s) (allLoaded s) 255 true.

(** [ready] is what [Graphics.isReady() && Sound.isReady()] answers in
    this frame. *)
Definition updateLoading (ready : bool) (s : t) : t :=
  let s1 := mk (base s) (allLoaded s || ready) (loading_timer s) (loadingComplete s) in
  if allLoaded s1 then
    let s2 := if loading_timer s1 <? 60
              then mk (base s1) (allLoaded s1) (loading_timer s1 + 1) (loadingComplete s1)
              else s1 in
    if loading_timer s2 =? 60 then processLoadingComplete s2 else s2
  else s1.

Definition update (ready : bool) (s : t) : t :=
  updateButtonCooldown (updateLoading ready (set_base (Scene_Base.update (base s)) s)).

(** *** The warnings of [start] *)

(** The warnings [start] may put up, in the order it tests them. *)
Inductive Warning := MobileWarning | BrowserWarning | FirefoxWarning.

(** The globals [isMobile], [isChrome], [isFirefox], [isSafari]. *)
Record Platform := mkPlatform {
  isMobile : bool;
  isChrome : bool;
  isFirefox : bool;
  isSafari : bool
}.

(** One of the three blocks of [start]: when the warning applies, either
    the stored bit is kept or the user is asked and the answer becomes
    the bit. The state is [newSetting] and the prompts put up so far. *)
Definition warn (applies : bool) (bitset : Z) (bit : Z) (w : Warning)
    (confirm : Warning -> bool) (st : Z * list Warning) : Z * list Warning :=
  if applies then
    if Z.land bitset (Z.shiftl 1 bit) =? 0
    then (Z.lor (fst st) (Z.shiftl (Z.b2z (confirm w)) bit), snd st ++ [w])
    else (Z.lor (fst st) (Z.shiftl 1 bit), snd st)
  else st.

(** The part of [start] that decides the [hideWarning] setting. [stored]
    is the integer [DataManager.getSetting] holds, [None] when
    [validNumericCount] does not take it for a number; [confirm] is what
    the user answers to [window.confirm]. The result is the setting
    handed to [DataManager.changeSetting] and the prompts shown. *)
Definition hideWarning (pf : Platform) (confirm : Warning -> bool)
    (stored : option Z) : Z * list Warning :=
  let bitset := from_option id 0 stored in
  let st := (0, []) in
  let st := warn (isMobile pf) bitset 0 MobileWarning confirm st in
  let st := warn (negb (isChrome pf) && negb (isFirefox pf) && negb (isSafari pf))
                 bitset 1 BrowserWarning confirm st in
  warn (isFirefox pf) bitset 2 FirefoxWarning confirm st.

End Scene_Load.

(** ** Scene_Intro *)

Module Scene_Intro.

Record t := mk {
  base : Scene_Base.t;
  timer : Z;
  fadeDuration : Z;
  NTOUmoment : Z;
  ENDmoment : Z;
  requestFilterUpdate : bool;
  filterTime : Z;                 (* [ntouSplash.filters[0].time] *)
  splashShown : bool;             (* [processNTOUSplash] was called *)
  gotoTitle : bool                (* [SceneManager.goto(Scene_Title)] was called *)
}.

Definition set_base (b : Scene_Base.t) (s : t) : t :=
  mk b (timer s) (fadeDuration s) (NTOUmoment s) (ENDmoment s)
     (requestFilterUpdate s) (filterTime s) (splashShown s) (gotoTitle s).

Definition set_timer (n : Z) (s : t) : t :=
  mk (base s) n (fadeDuration s) (NTOUmoment s) (ENDmoment s)
     (requestFilterUpdate s) (filterTime s) (splashShown s) (gotoTitle s).

(** The scene once [start] has run. *)
Definition start (b : Scene_Base.t) : t :=
  mk (Scene_Base.start b) 0 30 150 500 false 0 false false.

Definition updateSplashStage (s : t) : t :=
  if timer s =? NTOUmoment s then
    set_base (Scene_Base.startFadeOut None (base s)) s
  else if timer s =? NTOUmoment s + fadeDuration s then
    mk (Scene_Base.startFadeIn None (base s)) (timer s) (fadeDuration s)
       (NTOUmoment s) (ENDmoment s) (requestFilterUpdate s) (filterTime s)
       true (gotoTitle s)
  else if timer s =? NTOUmoment s + fadeDuration s + 40 then s
  else if timer s =? NTOUmoment s + fadeDuration s + 60 then
    mk (base s) (timer s) (fadeDuration s) (NTOUmoment s) (ENDmoment s)
       true (filterTime s) (splashShown s) (gotoTitle s)
  else if timer s =? ENDmoment s then
    mk (Scene_Base.startFadeOut None (base s)) (timer s) (fadeDuration s)
       (NTOUmoment s) (ENDmoment s) (requestFilterUpdate s) (filterTime s)
       (splashShown s) true
  else s.

(** [kMOUSE1] is [Input.keymap.kMOUSE1]; [triggered] is what
    [Input.isTriggered(kMOUSE1)] answers in this frame. *)
Definition updateSkip (kMOUSE1 : Z) (triggered : bool) (s : t) : t :=
  if negb triggered then s
  else
    let s1 := set_base (Scene_Base.heatupButton kMOUSE1 (base s)) s in
    if timer s1 <? NTOUmoment s1 then set_timer (NTOUmoment s1 - 1) s1
    else if timer s1 <? NTOUmoment s1 + fadeDuration s1
         then set_timer (NTOUmoment s1 + fadeDuration s1 - 1) s1
    else if timer s1 <? ENDmoment s1 then set_timer (ENDmoment s1 - 1) s1
    else s1.

Definition update (kMOUSE1 : Z) (triggered : bool) (s : t) : t :=
  let s1 := set_base (Scene_Base.update (base s)) s in
  let s2 := set_timer (timer s1 + 1) s1 in
  let s3 := updateSplashStage s2 in
  let s4 := updateSkip kMOUSE1 triggered s3 in
  if requestFilterUpdate s4
  then mk (base s4) (timer s4) (fadeDuration s4) (NTOUmoment s4) (ENDmoment s4)
          (requestFilterUpdate s4) (filterTime s4 + 1) (splashShown s4) (gotoTitle s4)
  else s4.

End Scene_Intro.

(** ** Scene_Game

    The gameplay scene. Rotation, scale, anchor, textures' pixels and
    event listeners of a sprite are visual only and are left out; the
    random angle of a discarded card is left out with them. *)

Module Scene_Game.

Record Rect := mkRect { r_x : Q; r_y : Q; r_width : Q; r_height : Q }.

(** What the scene reads from its collaborators: the [Color] and [Value]
    enumerations, the [Graphics] table and metrics, and the containers
    that [createDeckSprite], [createDiscardPile] and [createHandCanvas]
    have laid out. None of them is declared in [js/scenes.js]. *)
Record Env := mkEnv {
  Color_RED : Z; Color_BLUE : Z; Color_YELLOW : Z; Color_GREEN : Z;
  Color_WILD : Z;
  Value_REVERSE : Z; Value_SKIP : Z; Value_DRAW_TWO : Z;
  Value_WILD_DRAW_FOUR : Z; Value_WILD : Z; Value_TRADE : Z;
  Value_WILD_HIT_ALL : Z; Value_DISCARD_ALL : Z; Value_WILD_CHAOS : Z;
  Graphics_at : string -> option string;     (* [Graphics[symbol]] *)
  CardRectReg_width : Q;
  CardRectReg_height : Q;
  Graphics_spacing : Q;
  deckSprite : Rect;
  discardPile : Rect;
  handCanvas : list Rect
}.

(** A card of the rule engine; [sprite] is the pool position of the
    visual bound to it. *)
Record Card := mkCard {
  color : Z;
  value : Z;
  numID : Z;
  sprite : option nat
}.

Inductive Container :=
| OnScene
| OnHand (seat : nat)
| OnDiscard
| Detached.

(** The closures handed to [moveto], one constructor per closure of the
    source, with the variables each one captures. *)
Inductive Callback :=
| ArrangeDone
| DiscardDone (card : nat)
| DrawDone (pid : Z) (card : nat) (show ar : bool).

Record Handle := mkHandle {
  target_x : Q;
  target_y : Q;
  onArrive : Callback
}.

Record CardSprite := mkSprite {
  index : nat;                   (* index in the pool *)
  handIndex : Z;                 (* index in player's hand *)
  playerIndex : Z;               (* this card belongs to which player *)
  shown : bool;
  pos_x : Q;
  pos_y : Q;
  zIndex : Z;
  parent : Container;
  texture : option string;
  instance : option nat;
  motion : option Handle
}.

(** The calls deferred with [setTimeout]. *)
Inductive Task :=
| ProcessCardDrawAnimation (pid : Z) (card : nat) (show ar : bool) (ord : Z)
| SendCardToDeck (pid : Z) (card : nat).

Record Player := mkPlayer { hand : list nat; lastHand : list nat }.

Record t := mk {
  base : Scene_Base.t;
  cardSpritePoolSize : Z;
  animationCount : Z;
  playerPhase : bool;
  spritePool : option (list CardSprite);   (* [undefined] before [create] *)
  players : list Player;
  cards : gmap nat Card;
  timers : list (Z * Task)                 (* delay in ms, task *)
}.

Definition constructor : t :=
  mk Scene_Base.constructor 116 0 false None [] ∅ [].

Definition set_base (b : Scene_Base.t) (s : t) : t :=
  mk b (cardSpritePoolSize s) (animationCount s) (playerPhase s)
     (spritePool s) (players s) (cards s) (timers s).

Definition set_cardSpritePoolSize (n : Z) (s : t) : t :=
  mk (base s) n (animationCount s) (playerPhase s)
     (spritePool s) (players s) (cards s) (timers s).

Definition set_animationCount (n : Z) (s : t) : t :=
  mk (base s) (cardSpritePoolSize s) n (playerPhase s)
     (spritePool s) (players s) (cards s) (timers s).

Definition set_playerPhase (b : bool) (s : t) : t :=
  mk (base s) (cardSpritePoolSize s) (animationCount s) b
     (spritePool s) (players s) (cards s) (timers s).

Definition set_spritePool (p : option (list CardSprite)) (s : t) : t :=
  mk (base s) (cardSpritePoolSize s) (animationCount s) (playerPhase s)
     p (players s) (cards s) (timers s).

Definition set_players (p : list Player) (s : t) : t :=
  mk (base s) (cardSpritePoolSize s) (animationCount s) (playerPhase s)
     (spritePool s) p (cards s) (timers s).

Definition set_cards (c : gmap nat Card) (s : t) : t :=
  mk (base s) (cardSpritePoolSize s) (animationCount s) (playerPhase s)
     (spritePool s) (players s) c (timers s).

Definition set_timers (l : list (Z * Task)) (s : t) : t :=
  mk (base s) (cardSpritePoolSize s) (animationCount s) (playerPhase s)
     (spritePool s) (players s) (cards s) l.

(** Writes to one sprite. *)
Definition sp_setOwner (p : Z) (sp : CardSprite) : CardSprite :=
  mkSprite (index sp) (handIndex sp) p (shown sp) (pos_x sp) (pos_y sp)
    (zIndex sp) (parent sp) (texture sp) (instance sp) (motion sp).

Definition sp_setHandIndex (h : Z) (sp : CardSprite) : CardSprite :=
  mkSprite (index sp) h (playerIndex sp) (shown sp) (pos_x sp) (pos_y sp)
    (zIndex sp) (parent sp) (texture sp) (instance sp) (motion sp).

Definition sp_setShown (b : bool) (sp : CardSprite) : CardSprite :=
  mkSprite (index sp) (handIndex sp) (playerIndex sp) b (pos_x sp) (pos_y sp)
    (zIndex sp) (parent sp) (texture sp) (instance sp) (motion sp).

Definition sp_setPOS (x y : Q) (sp : CardSprite) : CardSprite :=
  mkSprite (index sp) (handIndex sp) (playerIndex sp) (shown sp) x y
    (zIndex sp) (parent sp) (texture sp) (instance sp) (motion sp).

Definition sp_setZ (z : Z) (sp : CardSprite) : CardSprite :=
  mkSprite (index sp) (handIndex sp) (playerIndex sp) (shown sp) (pos_x sp)
    (pos_y sp) z (parent sp) (texture sp) (instance sp) (motion sp).

Definition sp_setParent (c : Container) (sp : CardSprite) : CardSprite :=
  mkSprite (index sp) (handIndex sp) (playerIndex sp) (shown sp) (pos_x sp)
    (pos_y sp) (zIndex sp) c (texture sp) (instance sp) (motion sp).

Definition sp_setTexture (tx : option string) (sp : CardSprite) : CardSprite :=
  mkSprite (index sp) (handIndex sp) (playerIndex sp) (shown sp) (pos_x sp)
    (pos_y sp) (zIndex sp) (parent sp) tx (instance sp) (motion sp).

Definition sp_setInstance (c : nat) (sp : CardSprite) : CardSprite :=
  mkSprite (index sp) (handIndex sp) (playerIndex sp) (shown sp) (pos_x sp)
    (pos_y sp) (zIndex sp) (parent sp) (texture sp) (Some c) (motion sp).

Definition sp_setMotion (m : option Handle) (sp : CardSprite) : CardSprite :=
  mkSprite (index sp) (handIndex sp) (playerIndex sp) (shown sp) (pos_x sp)
    (pos_y sp) (zIndex sp) (parent sp) (texture sp) (instance sp) m.

(** Modelled from the spec: [Sprite.moveto] is missing from [js/]; it
    starts the one animation handle of the sprite, toward [(x, y)], with
    the completion callback [cb]. *)
Definition sp_moveto (x y : Q) (cb : Callback) (sp : CardSprite) : CardSprite :=
  sp_setMotion (Some (mkHandle x y cb)) sp.

(** Modelled from the spec: [removeChild] of the display container is
    missing from [js/]; it detaches the sprite when the container holds
    it and does nothing otherwise. *)
Definition sp_removeFrom (c : Container) (sp : CardSprite) : CardSprite :=
  match c, parent sp with
  | OnHand a, OnHand b => if Nat.eqb a b then sp_setParent Detached sp else sp
  | OnDiscard, OnDiscard => sp_setParent Detached sp
  | OnScene, OnScene => sp_setParent Detached sp
  | _, _ => sp
  end.

(** [a[i]] for a JavaScript number [i]. *)
Definition at_Z {A} (l : list A) (i : Z) : option A :=
  if i <? 0 then None else l !! Z.to_nat i.

(** [parseFloat(x.toFixed(3))] for the double whose exact value is [x]:
    the multiple [n / 1000] for which [n / 1000 - x] is nearest to zero,
    the one further from zero when there are two. *)
Definition toFixed3 (x : Q) : Q :=
  if Qle_bool 0 x
  then Qmake (Qfloor (x * 1000 + (1 # 2))%Q) 1000
  else Qopp (Qmake (Qfloor (- x * 1000 + (1 # 2))%Q) 1000).

Section WithEnv.

Variable env : Env.

(** The point the deck deals from: the centre of [deckSprite]. *)
Definition deckAnchor : Q * Q :=
  ((r_x (deckSprite env) + r_width (deckSprite env) / 2)%Q,
   (r_y (deckSprite env) + r_height (deckSprite env) / 2)%Q).

(** *** Access to the objects of the scene *)

Definition typeError {A} : M t A := throw "TypeError".

Definition getPool : M t (list CardSprite) := fun s =>
  match spritePool s with
  | Some p => Return p s
  | None => typeError s
  end.

Definition getSprite (i : nat) : M t CardSprite :=
  let! p := getPool in
  match p !! i with
  | Some sp => ret sp
  | None => typeError
  end.

Definition updSprite (i : nat) (f : CardSprite -> CardSprite) : M t unit :=
  modify (fun s => set_spritePool (alter f i <$> spritePool s) s).

Definition getCard (c : nat) : M t Card := fun s =>
  match cards s !! c with
  | Some cd => Return cd s
  | None => typeError s
  end.

(** [card.sprite], for a use that dereferences it. *)
Definition spriteOf (c : nat) : M t nat :=
  let! cd := getCard c in
  match sprite cd with
  | Some i => ret i
  | None => typeError
  end.

(** [card.sprite = sprite] *)
Definition bindSprite (c : nat) (i : nat) : M t unit :=
  let! _ := getCard c in
  modify (fun s =>
    set_cards (alter (fun cd => mkCard (color cd) (value cd) (numID cd) (Some i))
                     c (cards s)) s).

Definition getHandCanvas (pid : Z) : M t Rect :=
  match at_Z (handCanvas env) pid with
  | Some r => ret r
  | None => typeError
  end.

Definition addAnimationCount (d : Z) : M t unit :=
  modify (fun s => set_animationCount (animationCount s + d) s).

(** *** The sprite pool *)

(** The sprite [createCardSprite] builds when the pool holds [i]
    sprites: hidden, unowned, at the deck. *)
Definition freshCardSprite (i : nat) : CardSprite :=
  mkSprite i (-1) (-2) false (fst deckAnchor) (snd deckAnchor)
           17 OnScene None None None.

Definition createCardSprite : M t CardSprite :=
  let! p := getPool in
  ret (freshCardSprite (length p)).

Fixpoint findIdle_from (i : nat) (p : list CardSprite) : option nat :=
  match p with
  | [] => None
  | sp :: p' => if playerIndex sp =? -2 then Some i
                else findIdle_from (S i) p'
  end.

Definition findIdle (p : list CardSprite) : option nat := findIdle_from 0 p.

Definition pushSprite (sp : CardSprite) : M t unit :=
  modify (fun s => set_spritePool ((fun p => p ++ [sp]) <$> spritePool s) s).

(** Returns the pool position of the sprite handed out. *)
Definition getIdleCardSprite : M t nat := fun s =>
  match from_option findIdle None (spritePool s) with
  | Some i => Return i s
  | None =>
      (modify (fun s => set_cardSpritePoolSize (cardSpritePoolSize s + 1) s) ;;;
       let! sp := createCardSprite in
       pushSprite sp ;;;
       ret (index sp)) s
  end.

Fixpoint pushSprites (n : nat) : M t unit :=
  match n with
  | O => ret tt
  | S n' => let! sp := createCardSprite in pushSprite sp ;;; pushSprites n'
  end.

Definition createCardSpritePool : M t unit := fun s =>
  pushSprites (Z.to_nat (cardSpritePoolSize s)) (set_spritePool (Some []) s).

(** *** Card images *)

Definition colorSymbol (c : Z) : option string :=
  if c =? Color_RED env then Some "Red"
  else if c =? Color_BLUE env then Some "Blue"
  else if c =? Color_YELLOW env then Some "Yellow"
  else if c =? Color_GREEN env then Some "Green"
  else if c =? Color_WILD env then Some "Wild"
  else None.

Definition valueSymbol (v : Z) : string :=
  if v =? Value_REVERSE env then "Reverse"
  else if v =? Value_SKIP env then "Ban"
  else if v =? Value_DRAW_TWO env then "Plus2"
  else if v =? Value_WILD_DRAW_FOUR env then "Plus4"
  else if v =? Value_WILD env then "Wild"
  else if v =? Value_TRADE env then "Exchange"
  else if v =? Value_WILD_HIT_ALL env then "Hit"
  else if v =? Value_DISCARD_ALL env then "Discard"
  else if v =? Value_WILD_CHAOS env then "Chaos"
  else pretty v.

Definition getCardImage (card : Card) : M t (option string) :=
  match colorSymbol (color card) with
  | None => throw ("Invalid card color: " +:+ pretty (color card))
  | Some csym =>
      let symbol := csym +:+ valueSymbol (value card) in
      let symbol := if (9 <? value card) && (0 <? numID card)
                    then symbol +:+ "_" +:+ pretty (numID card + 1)
                    else symbol in
      ret (Graphics_at env symbol)
  end.

(** *** Hand layout *)

Definition canvasWidth (index : Z) (hcs : Rect) : Q :=
  if Z.land index 1 =? 0 then r_width hcs else r_height hcs.

Definition canvasHeight (index : Z) (hcs : Rect) : Q :=
  if Z.land index 1 =? 0 then r_height hcs else r_width hcs.

(** The argument of [toFixed(3)], [(canvasWidth - cardWidth) / (cardSize
    * cardWidth)], as the machine computes it: its rounding decides the
    third decimal when the exact quotient is at or next to a tie. *)
Definition stackQuotient (index : Z) (hcs : Rect) (cardSize : nat) : Q :=
  fdiv (fsub (canvasWidth index hcs) (CardRectReg_width env))
       (fmul (inject_Z (Z.of_nat cardSize)) (CardRectReg_width env)).

Definition stackPortion (index : Z) (hcs : Rect) (cardSize : nat) : Q :=
  toFixed3 (stackQuotient index hcs cardSize).

Definition totalWidth (index : Z) (hcs : Rect) (cardSize : nat) : Q :=
  (CardRectReg_width env
   + CardRectReg_width env * stackPortion index hcs cardSize
     * (inject_Z (Z.of_nat cardSize) - 1))%Q.

Definition base_pos (index : Z) (hcs : Rect) (cardSize : nat) : Q :=
  ((canvasWidth index hcs - totalWidth index hcs cardSize) / 2)%Q.

(** Where the [i]-th card of the hand is sent: the [(dx, dy)] of the loop
    body, for either parity of the side. *)
Definition handTarget (index : Z) (hcs : Rect) (cardSize : nat) (i : nat) : Q * Q :=
  let side := Z.rem index 4 in
  let cardWidth := CardRectReg_width env in
  let cardHeight := CardRectReg_height env in
  let along := (base_pos index hcs cardSize
                + cardWidth * stackPortion index hcs cardSize * inject_Z (Z.of_nat i)
                + cardWidth / 2)%Q in
  if Z.land side 1 =? 0 then
    (along,
     if side =? 0
     then (canvasHeight index hcs - cardHeight + cardHeight / 2)%Q
     else (cardHeight / 2)%Q)
  else
    (if side =? 1
     then (Graphics_spacing env + cardHeight / 2)%Q
     else (canvasHeight index hcs - cardHeight + cardHeight / 2)%Q,
     along).

(** The body of [for(let i in cur_player.hand)], from position [i] on. *)
Fixpoint arrangeLoop (index : Z) (hcs : Rect) (cardSize : nat)
    (i : nat) (rest : list nat) : M t unit :=
  match rest with
  | [] => ret tt
  | card :: rest' =>
      let! sp := spriteOf card in
      updSprite sp (fun x =>
        sp_setZ (17 + Z.of_nat i)
          (sp_setPOS (canvasWidth index hcs / 2) (canvasHeight index hcs / 2) x)) ;;;
      let d := handTarget index hcs cardSize i in
      addAnimationCount 1 ;;;
      updSprite sp (sp_setParent (OnHand (Z.to_nat index))) ;;;
      updSprite sp (sp_moveto (fst d) (snd d) ArrangeDone) ;;;
      arrangeLoop index hcs cardSize (S i) rest'
  end.

Definition arrangeHandCards (index : Z) : M t unit :=
  let! s := get in
  match at_Z (players s) index with
  | None => typeError
  | Some cur_player =>
      let! hcs := getHandCanvas index in
      arrangeLoop index hcs (length (hand cur_player)) 0 (hand cur_player) ;;;
      modify (fun s =>
        set_players
          (alter (fun p => mkPlayer (hand p) (hand p)) (Z.to_nat index) (players s)) s)
  end.

(** *** Playing and drawing cards *)

Definition addDiscardCard (card : nat) (player_id : Z) : M t unit :=
  let! sp := spriteOf card in
  updSprite sp (sp_setShown true) ;;;
  let sx := (r_x (discardPile env) + r_width (discardPile env) / 2)%Q in
  let sy := (r_y (discardPile env) + r_height (discardPile env) / 2)%Q in
  addAnimationCount 1 ;;;
  updSprite sp (sp_moveto sx sy (DiscardDone card)).

(** Modelled from the spec: [getGlobalPosition] is missing from [js/];
    the position of a sprite on the screen is its position in its
    container, moved by the container's origin. *)
Definition globalPosition (sp : CardSprite) : Q * Q :=
  match parent sp with
  | OnHand i =>
      match handCanvas env !! i with
      | Some r => ((r_x r + pos_x sp)%Q, (r_y r + pos_y sp)%Q)
      | None => (pos_x sp, pos_y sp)
      end
  | OnDiscard => ((r_x (discardPile env) + pos_x sp)%Q,
                  (r_y (discardPile env) + pos_y sp)%Q)
  | _ => (pos_x sp, pos_y sp)
  end.

Definition onCardPlay (pid : Z) (card : nat) : M t unit :=
  (if pid =? -1 then
     let! i := getIdleCardSprite in
     updSprite i (sp_setPOS (fst deckAnchor) (snd deckAnchor)) ;;;
     let! cd := getCard card in
     let! img := getCardImage cd in
     updSprite i (sp_setTexture img) ;;;
     bindSprite card i ;;;
     updSprite i (sp_setInstance card)
   else
     let! i := spriteOf card in
     let! sp := getSprite i in
     let pos := globalPosition sp in
     let! _ := getHandCanvas pid in
     updSprite i (sp_removeFrom (OnHand (Z.to_nat pid))) ;;;
     updSprite i (sp_setPOS (fst pos) (snd pos))) ;;;
  let! i := spriteOf card in
  updSprite i (fun x => sp_setHandIndex (-1) (sp_setZ 32 x)) ;;;
  updSprite i (sp_setOwner (-1)) ;;;
  addDiscardCard card pid.

Definition setTimeout (task : Task) (delay : Z) : M t unit :=
  modify (fun s => set_timers (timers s ++ [(delay, task)]) s).

Fixpoint onCardDraw_from (pid : Z) (n : nat) (show : bool)
    (i : nat) (rest : list nat) : M t unit :=
  match rest with
  | [] => ret tt
  | card :: rest' =>
      let ar := (S i =? n)%nat in
      setTimeout (ProcessCardDrawAnimation pid card show ar (Z.of_nat i))
                 (300 * Z.of_nat i) ;;;
      onCardDraw_from pid n show (S i) rest'
  end.

Definition onCardDraw (pid : Z) (cards : list nat) (show : bool) : M t unit :=
  onCardDraw_from pid (length cards) show 0 cards.

Definition processCardDrawAnimation (pid : Z) (card : nat) (show ar : bool) : M t unit :=
  addAnimationCount 1 ;;;
  let! i := getIdleCardSprite in
  updSprite i (sp_setShown true) ;;;
  updSprite i (sp_setOwner pid) ;;;
  bindSprite card i ;;;
  let! d :=
    (if 0 <=? pid then
       let sx := (r_x (deckSprite env) + r_width (deckSprite env) / 3)%Q in
       let sy := (r_y (deckSprite env) + r_height (deckSprite env) / 3)%Q in
       let! hcs := getHandCanvas pid in
       updSprite i (sp_setPOS sx sy) ;;;
       ret ((r_x hcs + r_width hcs / 2)%Q, (r_y hcs + r_height hcs / 2)%Q)
     else ret (0%Q, 0%Q)) in
  updSprite i (sp_setInstance card) ;;;
  updSprite i (sp_moveto (fst d) (snd d) (DrawDone pid card show ar)).

Definition sendCardToDeck (pid : Z) (card : nat) : M t unit :=
  let! i := spriteOf card in
  updSprite i (sp_setOwner (-2)) ;;;
  let! _ := getHandCanvas pid in
  updSprite i (sp_removeFrom (OnHand (Z.to_nat pid))) ;;;
  updSprite i (fun x => sp_setPOS (fst deckAnchor) (snd deckAnchor) (sp_setShown false x)).

(** *** Completion of an animation *)

(** The body of the closure [cb], run for the sprite [i] that carried it. *)
Definition runCallback (i : nat) (cb : Callback) : M t unit :=
  match cb with
  | ArrangeDone => addAnimationCount (-1)
  | DiscardDone card =>
      let! _ := getCard card in
      addAnimationCount (-1) ;;;
      let! sp := spriteOf card in
      updSprite sp (sp_setParent OnDiscard) ;;;
      updSprite sp (sp_setPOS (r_width (discardPile env) / 2)
                              (r_height (discardPile env) / 2))
  | DrawDone pid card show ar =>
      let! cd := getCard card in
      let! img := getCardImage cd in
      updSprite i (sp_setTexture img) ;;;
      addAnimationCount (-1) ;;;
      if show then setTimeout (SendCardToDeck pid card) 2000
      else if ar then arrangeHandCards pid
      else ret tt
  end.

(** Modelled from the spec: the sprite's own [update], which moves it, is
    missing from [js/]; when the move of sprite [i] ends the sprite is at
    the target, the handle is gone and the callback runs once. *)
Definition arrive (i : nat) : M t unit :=
  let! sp := getSprite i in
  match motion sp with
  | None => ret tt
  | Some h =>
      updSprite i (fun x => sp_setMotion None (sp_setPOS (target_x h) (target_y h) x)) ;;;
      runCallback i (onArrive h)
  end.

(** A timer that is due fires. *)
Definition runTask (task : Task) : M t unit :=
  match task with
  | ProcessCardDrawAnimation pid card show ar _ =>
      processCardDrawAnimation pid card show ar
  | SendCardToDeck pid card => sendCardToDeck pid card
  end.

Definition fire (k : nat) : M t unit :=
  let! s := get in
  match timers s !! k with
  | None => ret tt
  | Some (_, task) =>
      modify (fun s => set_timers (delete k (timers s)) s) ;;;
      runTask task
  end.

(** *** Turn gating *)

Definition processUserTurn (s : t) : t := set_playerPhase true s.

Definition processUserTurnEnd (s : t) : t := set_playerPhase false s.

Definition isAnimationPlaying (s : t) : bool := negb (animationCount s =? 0).

Definition isPlayerThinking (s : t) : bool := playerPhase s.

Definition isBusy (s : t) : bool :=
  Scene_Base.isBusy (base s) || isAnimationPlaying s || isPlayerThinking s.

(** [super.update()]; the rule engine's and the sprites' own updates show
    up as [onCardPlay], [onCardDraw] and [arrive]. *)
Definition update (s : t) : t := set_base (Scene_Base.update (base s)) s.

(** *** The events of a game

    What can happen to a created scene: a frame, a fade request, a turn
    toggle, an event of the rule engine, a timer that fires, an animation
    that ends, and the rule engine changing the hands and cards it owns.
    An event that throws leaves the writes it made. *)

Inductive Op :=
| OpUpdate
| OpStartFadeIn (duration : option Z)
| OpStartFadeOut (duration : option Z)
| OpFadeOutAll
| OpPreTerminate
| OpProcessUserTurn
| OpProcessUserTurnEnd
| OpOnCardPlay (pid : Z) (card : nat)
| OpOnCardDraw (pid : Z) (cards : list nat) (show : bool)
| OpFire (k : nat)
| OpArrive (i : nat)
| OpSetPlayers (ps : list Player)
| OpNewCard (c : nat) (color value numID : Z).

Definition exec (op : Op) (s : t) : t :=
  match op with
  | OpUpdate => update s
  | OpStartFadeIn d => set_base (Scene_Base.startFadeIn d (base s)) s
  | OpStartFadeOut d => set_base (Scene_Base.startFadeOut d (base s)) s
  | OpFadeOutAll => set_base (Scene_Base.fadeOutAll (base s)) s
  | OpPreTerminate => set_base (Scene_Base.preTerminate (base s)) s
  | OpProcessUserTurn => processUserTurn s
  | OpProcessUserTurnEnd => processUserTurnEnd s
  | OpOnCardPlay pid card => final (onCardPlay pid card s)
  | OpOnCardDraw pid cards show => final (onCardDraw pid cards show s)
  | OpFire k => final (fire k s)
  | OpArrive i => final (arrive i s)
  | OpSetPlayers ps => set_players ps s
  | OpNewCard c co v n =>
      match cards s !! c with
      | Some _ => s
      | None => set_cards (<[c := mkCard co v n None]> (cards s)) s
      end
  end.

(** A duration counts frames. *)
Definition validOp (op : Op) : Prop :=
  match op with
  | OpStartFadeIn (Some d) | OpStartFadeOut (Some d) => 0 <= d
  | _ => True
  end.

(** The scene after [create()]. *)
Definition created : t := final (createCardSpritePool constructor).

Inductive reachable : t -> Prop :=
| reachable_created : reachable created
| reachable_exec (s : t) (op : Op) :
    reachable s -> validOp op -> reachable (exec op s).

End WithEnv.

(** *** The hand canvases

    [Graphics.width], [Graphics.height], [Graphics.spacing] and
    [GameManager.playerNumber] are read from outside [js/scenes.js] and
    are arguments here. *)

(** Modelled from the spec: [SpriteCanvas] is missing from [js/]; a
    canvas is its bounding rectangle, [setPOS] writes the corner and
    [resize] the extent. *)
Definition hc_setPOS (x y : Q) (r : Rect) : Rect := mkRect x y (r_width r) (r_height r).

Definition hc_resize (w h : Q) (r : Rect) : Rect := mkRect (r_x r) (r_y r) w h.

Definition maxNumbers : list Z := [3; 2; 2; 3].

(** The first loop of [createHandCanvas]: one canvas per player, and the
    number of players on each of the four sides. *)
Definition seatCanvases (playerNumber : nat) : list Z * list Rect :=
  foldl (fun st i =>
           (alter (fun c => c + 1) (i mod 4)%nat (fst st),
            snd st ++ [mkRect 0 0 350 225]))
        ([0; 0; 0; 0], []) (seq 0 playerNumber).

(** The body of the inner loop, for the [j]-th canvas of side [i]. A
    side without players has [portion = 0]; the quotients are then not
    used, the inner loop having no round. *)
Definition placeCanvas (gw gh spacing : Q) (i : nat) (portion : Z) (j : nat)
    (hcs : Rect) : Rect :=
  let partWidth := (gw / inject_Z portion)%Q in
  let partHeight := (gh / inject_Z portion)%Q in
  if (Nat.land i 1 =? 0)%nat then
    let sx := (partWidth * inject_Z (Z.of_nat j))%Q in
    let sx := if Qle_bool partWidth (r_width hcs) then sx
              else ((partWidth - r_width hcs) / 2)%Q in
    let sy := if (i =? 0)%nat then (gh - r_height hcs)%Q else spacing in
    hc_setPOS sx sy hcs
  else
    let hcs := hc_resize 225 350 hcs in
    let sy := (partHeight * inject_Z (Z.of_nat j))%Q in
    let sy := if Qle_bool partHeight (r_height hcs) then sy
              else ((partHeight - r_height hcs) / 2)%Q in
    let sx := if (i =? 1)%nat then spacing else (gw - r_width hcs)%Q in
    hc_setPOS sx sy hcs.

(** [for(let j=0;j<counter[i];++j)], over the rounds [js]; [None] is the
    [TypeError] of a canvas that does not exist. *)
Fixpoint placeLoop (gw gh spacing : Q) (i : nat) (portion : Z) (js : list nat)
    (hc : list Rect) : option (list Rect) :=
  match js with
  | [] => Some hc
  | j :: js' =>
      match hc !! (i + 4 * j)%nat with
      | None => None
      | Some hcs =>
          placeLoop gw gh spacing i portion js'
            (<[(i + 4 * j)%nat := placeCanvas gw gh spacing i portion j hcs]> hc)
      end
  end.

(** [for(let i=0;i<4;++i)], over the sides [sides]. *)
Fixpoint sideLoop (gw gh spacing : Q) (counter : list Z) (sides : list nat)
    (hc : list Rect) : option (list Rect) :=
  match sides with
  | [] => Some hc
  | i :: sides' =>
      let c := counter !!! i in
      let portion := Z.min c (maxNumbers !!! i) in
      match placeLoop gw gh spacing i portion (seq 0 (Z.to_nat c)) hc with
      | None => None
      | Some hc' => sideLoop gw gh spacing counter sides' hc'
      end
  end.

(** The list [this.handCanvas] is left with. *)
Definition createHandCanvas (gw gh spacing : Q) (playerNumber : nat)
    : option (list Rect) :=
  let st := seatCanvases playerNumber in
  sideLoop gw gh spacing (fst st) (seq 0 4) (snd st).


End Scene_Game.

(** * Vocabulary of the properties *)

Section Preserve.

Context {S : Type} (R : S -> S -> Prop).

(** [m] takes every scene to an [R]-related one, whether it returns or
    throws. *)
Definition preserves {A} (m : M S A) : Prop := forall s, R s (final (m s)).

End Preserve.

(** Every other element of a list, starting with the first one when
    [take] is set. *)
Fixpoint everyOther (take : bool) (l : list ref) : list ref :=
  match l with
  | [] => []
  | x :: l' => if take then x :: everyOther false l' else everyOther true l'
  end.

(** One round of [updateButtonCooldown] on one slot. *)
Definition coolStep (v : option Z) : option Z :=
  if 0 <? js_or v 0 then Some (js_or v 0 - 1) else v.

(** What the loops of [raiseOverlay] and [closeOverlay] do to the child
    [sp], for the overlay [o]. *)
Definition raiseChild (o : ref) (sp : ref) (w : Widget) : Widget :=
  if w_alwaysActive w then w
  else if bool_decide (sp <> o)
       then w_deactivate (w_setLastActiveState (w_active w) w)
       else w.

Definition closeChild (o : ref) (sp : ref) (w : Widget) : Widget :=
  if bool_decide (sp <> o) && w_lastActiveState w then w_activate w else w.

(** [r] is [x] rounded to three decimals. *)
Definition is_round3 (x r : Q) : Prop :=
  exists k : Z, (r == inject_Z k / 1000)%Q /\ (Qabs (r - x) <= 1 # 2000)%Q.

Section Vocabulary.

Import Scene_Game.

Variable env : Env.

Definition poolLen (s : t) : nat := from_option length 0%nat (spritePool s).

Definition poolOK (s : t) : Prop :=
  exists p, spritePool s = Some p /\ cardSpritePoolSize s = Z.of_nat (length p).

(** What every event of the gameplay scene keeps: the fields of
    [Scene_Base] are left alone, and a pool that agrees with its counter
    still does and has not shrunk. *)
Definition keeps (s s' : t) : Prop :=
  base s' = base s /\
  (poolOK s -> poolOK s' /\ (poolLen s <= poolLen s')%nat).

(** The free-list predicate: unowned, out of any hand, hidden, at rest,
    at the deck. *)
Definition idle (sp : CardSprite) : Prop :=
  playerIndex sp = -2 /\ handIndex sp = -1 /\ shown sp = false /\ motion sp = None /\
  (pos_x sp, pos_y sp) = deckAnchor env.

Definition knownColors : list Z :=
  [Color_RED env; Color_BLUE env; Color_YELLOW env; Color_GREEN env; Color_WILD env].

Definition namedValues : list Z :=
  [Value_REVERSE env; Value_SKIP env; Value_DRAW_TWO env; Value_WILD_DRAW_FOUR env;
   Value_WILD env; Value_TRADE env; Value_WILD_HIT_ALL env; Value_DISCARD_ALL env;
   Value_WILD_CHAOS env].

(** The coordinate of a point along the axis a seat stacks its cards on,
    and the extent of the seat's canvas along that axis. *)
Definition alongAxis (index : Z) (pt : Q * Q) : Q :=
  if Z.even index then fst pt else snd pt.

Definition canvasSpan (index : Z) (hcs : Rect) : Q :=
  if Z.even index then r_width hcs else r_height hcs.

(** The writes of one round of the loop of [arrangeHandCards] to the
    sprite of the [i]-th card, and the pool after the rounds for the
    sprites [js]. *)
Definition arranged (index : Z) (hcs : Rect) (n i : nat) (x : CardSprite) : CardSprite :=
  sp_moveto (fst (handTarget env index hcs n i)) (snd (handTarget env index hcs n i))
    ArrangeDone
    (sp_setParent (OnHand (Z.to_nat index))
       (sp_setZ (17 + Z.of_nat i)
          (sp_setPOS (canvasWidth index hcs / 2) (canvasHeight index hcs / 2) x))).

Fixpoint arrangePool (index : Z) (hcs : Rect) (n i : nat) (js : list nat)
    (p : list CardSprite) : list CardSprite :=
  match js with
  | [] => p
  | j :: js' => arrangePool index hcs n (S i) js' (alter (arranged index hcs n i) j p)
  end.

(** The card [c] is shown by the pool sprite [j]. *)
Definition boundTo (s : t) (c j : nat) : Prop :=
  exists cd, cards s !! c = Some cd /\ sprite cd = Some j.

End Vocabulary.

(** ** Vocabulary of the further properties *)

(** What [updateChildren], [pause] and [resume] do to the child [sp]. *)
Definition updateChild (o : option ref) (sp : ref) (w : Widget) : Widget :=
  if negb (bool_decide (is_Some o)) || negb (w_isWindow w) || bool_decide (o = Some sp)
  then w_update w else w.

Definition pauseChild (w : Widget) : Widget :=
  w_deactivate
    (if w_active w then w_setLastActiveState true (w_setPaused true w)
     else w_setPaused true w).

Definition resumeChild (w : Widget) : Widget :=
  if w_lastActiveState w then w_activate (w_setPaused false w)
  else w_setPaused false w.

Section WarningVocabulary.

Import Scene_Load.

(** Whether a warning concerns the platform, and its bit. *)
Definition applies (pf : Platform) (w : Warning) : bool :=
  match w with
  | MobileWarning => isMobile pf
  | BrowserWarning => negb (isChrome pf) && negb (isFirefox pf) && negb (isSafari pf)
  | FirefoxWarning => isFirefox pf
  end.

Definition bitOf (w : Warning) : Z :=
  match w with
  | MobileWarning => 0
  | BrowserWarning => 1
  | FirefoxWarning => 2
  end.

Definition storedBit (stored : option Z) (w : Warning) : bool :=
  Z.testbit (from_option id 0 stored) (bitOf w).

(** The bit a warning ends with, and whether it is asked. *)
Definition keptBit (pf : Platform) (confirm : Warning -> bool)
    (stored : option Z) (w : Warning) : bool :=
  applies pf w && (storedBit stored w || confirm w).

Definition asked (pf : Platform) (stored : option Z) (w : Warning) : bool :=
  applies pf w && negb (storedBit stored w).

End WarningVocabulary.

(** The loading scene after the frames whose readiness answers are
    [frames], oldest first. *)
Definition loadFrames (frames : list bool) (s : Scene_Load.t) : Scene_Load.t :=
  foldl (fun acc ready => Scene_Load.update ready acc) s frames.

(** The intro scene after the frames whose click answers are [clicks],
    oldest first. *)
Definition introFrames (kMOUSE1 : Z) (clicks : list bool) (s : Scene_Intro.t)
    : Scene_Intro.t :=
  foldl (fun acc c => Scene_Intro.update kMOUSE1 c acc) s clicks.

(** [P] is not lost: a two-state relation for [preserves]. *)
Definition stays {S : Type} (P : S -> Prop) (s s' : S) : Prop := P s -> P s'.

(** The number of the seats [0 .. n-1] that sit on side [i]. *)
Definition seatsOnSide (n i : nat) : nat := ((n + 3 - i) / 4)%nat.

(** The canvas of seat [index] among [n] players: the loop body applied
    once, on side [index mod 4], in round [index / 4]. *)
Definition placedCanvas (gw gh spacing : Q) (n index : nat) : Scene_Game.Rect :=
  Scene_Game.placeCanvas gw gh spacing (index mod 4)
    (Z.min (Z.of_nat (seatsOnSide n (index mod 4)))
           (Scene_Game.maxNumbers !!! (index mod 4)%nat))
    (index / 4) (Scene_Game.mkRect 0 0 350 225).

Section GameVocabulary.

Import Scene_Game.

Variable env : Env.

(** Every sprite of the pool carries its pool position in [index], and
    [-1] in [handIndex]. *)
Definition indexOK (s : t) : Prop :=
  forall p i sp, spritePool s = Some p -> p !! i = Some sp ->
    index sp = i /\ handIndex sp = -1.

(** The timers [onCardDraw] sets for the cards [cs], the first of which
    is the [i]-th of [n]. *)
Definition drawTimers (pid : Z) (show : bool) (n i : nat) (cs : list nat)
    : list (Z * Task) :=
  imap (fun k c =>
          (300 * Z.of_nat (i + k),
           ProcessCardDrawAnimation pid c show (S (i + k) =? n)%nat (Z.of_nat (i + k))))
       cs.

(** The writes of [processCardDrawAnimation] to the sprite it acquires,
    for a seat [pid >= 0] whose canvas is [hcs]. *)
Definition dealt (pid : Z) (card : nat) (show ar : bool) (hcs : Rect)
    (x : CardSprite) : CardSprite :=
  sp_moveto (r_x hcs + r_width hcs / 2) (r_y hcs + r_height hcs / 2)
    (DrawDone pid card show ar)
    (sp_setInstance card
       (sp_setPOS (r_x (deckSprite env) + r_width (deckSprite env) / 3)
                  (r_y (deckSprite env) + r_height (deckSprite env) / 3)
          (sp_setOwner pid (sp_setShown true x)))).

End GameVocabulary.

(** * Sample scenes *)

Module Samples.

Definition plainWindow : Widget :=
  mkWidget true false false true true 0 0 false false 0 "Window_Base".

(** A sprite that overlays leave alone. *)
Definition stickySprite : Widget :=
  mkWidget true false true false true 0 0 false false 0 "Sprite".

(** A started scene that owns the windows [0] and [1]. *)
Definition twoWindows : Scene_Base.t :=
  final (Scene_Base.addWindow 1%nat false
    (final (Scene_Base.addWindow 0%nat false
       (Scene_Base.start
          (Scene_Base.set_store (<[0%nat := plainWindow]> (<[1%nat := plainWindow]> ∅))
             Scene_Base.constructor))))).

(** A started scene with the window [0] and the always-active sprite [1]. *)
Definition stickyScene : Scene_Base.t :=
  Scene_Base.set_children [0%nat; 1%nat]
    (Scene_Base.start
       (Scene_Base.set_store (<[0%nat := plainWindow]> (<[1%nat := stickySprite]> ∅))
          Scene_Base.constructor)).

Definition sampleEnv : Scene_Game.Env :=
  Scene_Game.mkEnv 0 1 2 3 4
    10 11 12 13 14 15 16 17 18
    (fun symbol => if String.eqb symbol "Red5" then Some "img/Red5.png" else None)
    50 70 8
    (Scene_Game.mkRect 300 230 100 140)
    (Scene_Game.mkRect 500 200 200 200)
    [Scene_Game.mkRect 225 375 350 225; Scene_Game.mkRect 8 125 225 350;
     Scene_Game.mkRect 225 8 350 225; Scene_Game.mkRect 567 125 225 350].

(** A red card of the unknown value 99; a card of the unknown colour 7. *)
Definition red99 : Scene_Game.Card := Scene_Game.mkCard 0 99 0 None.
Definition colour7 : Scene_Game.Card := Scene_Game.mkCard 7 5 0 None.

(** The created scene after the rule engine made card [0], the system
    played it and its animation ended. *)
Definition playedScene : Scene_Game.t :=
  Scene_Game.exec sampleEnv (Scene_Game.OpArrive 0)
    (Scene_Game.exec sampleEnv (Scene_Game.OpOnCardPlay (-1) 0)
       (Scene_Game.exec sampleEnv (Scene_Game.OpNewCard 0 0 5 0)
          (Scene_Game.created sampleEnv))).

(** A scene whose only sprite shows card [0], fourth in the hand of
    seat [0]. *)
Definition heldScene : Scene_Game.t :=
  Scene_Game.mk Scene_Base.constructor 1 0 false
    (Some [Scene_Game.sp_setHandIndex 3
             (Scene_Game.sp_setShown true
                (Scene_Game.sp_setOwner 0 (Scene_Game.freshCardSprite sampleEnv 0)))])
    [Scene_Game.mkPlayer [0%nat] []]
    (<[0%nat := Scene_Game.mkCard 0 5 0 (Some 0%nat)]> ∅)
    [].

(** Seat [0] holds the cards [0], [1], [2], shown by the sprites of the
    same numbers. *)
Definition handScene : Scene_Game.t :=
  Scene_Game.mk Scene_Base.constructor 3 0 false
    (Some (map (fun i => Scene_Game.sp_setShown true
                           (Scene_Game.sp_setOwner 0
                              (Scene_Game.freshCardSprite sampleEnv i)))
               [0; 1; 2]%nat))
    [Scene_Game.mkPlayer [0; 1; 2]%nat []]
    (<[0%nat := Scene_Game.mkCard 0 5 0 (Some 0%nat)]>
       (<[1%nat := Scene_Game.mkCard 1 7 0 (Some 1%nat)]>
          (<[2%nat := Scene_Game.mkCard 2 10 0 (Some 2%nat)]> ∅)))
    [].

(** A phone running Firefox. *)
Definition firefoxPhone : Scene_Load.Platform :=
  Scene_Load.mkPlatform true false true false.


(** The created scene after the rule engine made a card of the unknown
    colour 7. *)
Definition oddCardScene : Scene_Game.t :=
  Scene_Game.exec sampleEnv (Scene_Game.OpNewCard 0 7 5 0)
    (Scene_Game.created sampleEnv).

(** [handScene], with a third card that no sprite shows. *)
Definition brokenHandScene : Scene_Game.t :=
  Scene_Game.set_players [Scene_Game.mkPlayer [0; 1; 5]%nat []] handScene.

(** The created scene after the rule engine made the cards [0], [1] and
    [2] and gave them to seat [0], the three were drawn, and every
    animation ended. *)
Definition drawnScene : Scene_Game.t :=
  foldl (fun s op => Scene_Game.exec sampleEnv op s) (Scene_Game.created sampleEnv)
    [Scene_Game.OpNewCard 0 0 5 0; Scene_Game.OpNewCard 1 1 7 0;
     Scene_Game.OpNewCard 2 2 10 0;
     Scene_Game.OpSetPlayers [Scene_Game.mkPlayer [0; 1; 2]%nat []];
     Scene_Game.OpOnCardDraw 0 [0; 1; 2]%nat false;
     Scene_Game.OpFire 0; Scene_Game.OpFire 0; Scene_Game.OpFire 0;
     Scene_Game.OpArrive 0; Scene_Game.OpArrive 1; Scene_Game.OpArrive 2;
     Scene_Game.OpArrive 0; Scene_Game.OpArrive 1; Scene_Game.OpArrive 2].

(** The created scene after the rule engine made the cards [0] and [1]
    and gave them to seat [0], and the draw of card [0] alone began. *)
Definition halfDrawnScene : Scene_Game.t :=
  foldl (fun s op => Scene_Game.exec sampleEnv op s) (Scene_Game.created sampleEnv)
    [Scene_Game.OpNewCard 0 0 5 0; Scene_Game.OpNewCard 1 1 7 0;
     Scene_Game.OpSetPlayers [Scene_Game.mkPlayer [0; 1]%nat []];
     Scene_Game.OpOnCardDraw 0 [0]%nat false;
     Scene_Game.OpFire 0].

(** The created scene after the rule engine made the red card [0], the
    card was drawn to be shown, for the system seat [-1] or for seat [0],
    and its animation ended: [sendCardToDeck] is due. *)
Definition systemRevealScene : Scene_Game.t :=
  foldl (fun s op => Scene_Game.exec sampleEnv op s) (Scene_Game.created sampleEnv)
    [Scene_Game.OpNewCard 0 0 5 0; Scene_Game.OpOnCardDraw (-1) [0]%nat true;
     Scene_Game.OpFire 0; Scene_Game.OpArrive 0].

Definition seatRevealScene : Scene_Game.t :=
  foldl (fun s op => Scene_Game.exec sampleEnv op s) (Scene_Game.created sampleEnv)
    [Scene_Game.OpNewCard 0 0 5 0; Scene_Game.OpOnCardDraw 0 [0]%nat true;
     Scene_Game.OpFire 0; Scene_Game.OpArrive 0].

(** [sampleEnv] with cards 160 wide. *)
Definition wideCardEnv : Scene_Game.Env :=
  Scene_Game.mkEnv 0 1 2 3 4
    10 11 12 13 14 15 16 17 18
    (fun symbol => if String.eqb symbol "Red5" then Some "img/Red5.png" else None)
    160 224 8
    (Scene_Game.mkRect 300 230 100 140)
    (Scene_Game.mkRect 500 200 200 200)
    [Scene_Game.mkRect 225 375 350 225; Scene_Game.mkRect 8 125 225 350;
     Scene_Game.mkRect 225 8 350 225; Scene_Game.mkRect 567 125 225 350].

End Samples.

(** * Properties *)

(** ** Generic lemmas *)

Lemma inject_Z_pos z : 0 < z -> (0 < inject_Z z)%Q.
Proof. intros H. change 0%Q with (inject_Z 0). rewrite <- Zlt_Qlt. done. Qed.

Lemma inject_Z_nonzero z : 0 < z -> ~ (inject_Z z == 0)%Q.
Proof. intros H%inject_Z_pos. lra. Qed.

Section Pointwise.

Context {K V : Type} `{Countable K}.

(** A loop whose body [g i] rewrites only the entry [i] of a map, from
    the entry's own value, acts entry by entry. *)
Lemma foldl_pointwise (F : K -> option V -> option V)
    (g : K -> gmap K V -> gmap K V) :
  (forall i m j, g i m !! j = if decide (i = j) then F i (m !! i) else m !! j) ->
  forall (l : list K) (m : gmap K V) (j : K), NoDup l ->
    foldl (fun acc i => g i acc) m l !! j
    = if decide (j ∈ l) then F j (m !! j) else m !! j.
Proof.
  intros Hg l. induction l as [|i l IH]; intros m j Hnd.
  - cbn. destruct (decide (j ∈ [])) as [Hin|]; [by apply elem_of_nil in Hin|done].
  - apply NoDup_cons in Hnd as [Hi Hnd]. cbn [foldl]. rewrite IH by done.
    rewrite !Hg.
    destruct (decide (j ∈ l)) as [Hjl|Hjl].
    + destruct (decide (i = j)) as [->|Hij]; [done|].
      destruct (decide (j ∈ i :: l)) as [|Hn]; [done|].
      exfalso. apply Hn. by apply elem_of_cons; right.
    + destruct (decide (i = j)) as [->|Hij].
      * destruct (decide (j ∈ j :: l)) as [|Hn]; [done|].
        exfalso. apply Hn. apply elem_of_cons. by left.
      * destruct (decide (j ∈ i :: l)) as [Hin|]; [|done].
        apply elem_of_cons in Hin as [->|]; done.
Qed.
End Pointwise.

Section PreserveLemmas.

Context {S : Type} (R : S -> S -> Prop) `{!PreOrder R}.

Lemma preserves_ret {A} (a : A) : preserves R (ret a).
Proof. intros s. cbn. reflexivity. Qed.

Lemma preserves_throw {A} (e : string) : preserves R (@throw S A e).
Proof. intros s. cbn. reflexivity. Qed.

Lemma preserves_get : preserves R get.
Proof. intros s. cbn. reflexivity. Qed.

Lemma preserves_modify (f : S -> S) : (forall s, R s (f s)) -> preserves R (modify f).
Proof. intros Hf s. cbn. apply Hf. Qed.

Lemma preserves_bind {A B} (m : M S A) (k : A -> M S B) :
  preserves R m -> (forall a, preserves R (k a)) -> preserves R (bind m k).
Proof.
  intros Hm Hk s. unfold bind. specialize (Hm s).
  destruct (m s) as [a s'|e s']; cbn in Hm |- *; [|done].
  etransitivity; [exact Hm|apply Hk].
Qed.

Lemma preserves_pure {A} (m : M S A) :
  (forall s, final (m s) = s) -> preserves R m.
Proof. intros Hm s. rewrite Hm. reflexivity. Qed.

End PreserveLemmas.



(** ** The fade transition *)

Section Fade.

Import Scene_Base.

Lemma updateChildren_fade s :
  _fadingTimer (updateChildren s) = _fadingTimer s /\
  _fadingFlag (updateChildren s) = _fadingFlag s /\
  _fadeSign (updateChildren s) = _fadeSign s /\
  fadeOpacity (updateChildren s) = fadeOpacity s.
Proof. done. Qed.

Lemma updateFading_tick s :
  0 < _fadingTimer s ->
  _fadingTimer (updateFading s) = _fadingTimer s - 1 /\
  _fadeSign (updateFading s) = _fadeSign s /\
  fadeOpacity (updateFading s) =
    (if 0 <? _fadeSign s
     then fadeOpacity s - fadeOpacity s / inject_Z (_fadingTimer s)
     else fadeOpacity s + (1 - fadeOpacity s) / inject_Z (_fadingTimer s))%Q /\
  _fadingFlag (updateFading s) = (if _fadingTimer s =? 1 then 0 else _fadingFlag s).
Proof.
  intros Ht. unfold updateFading.
  destruct (Z.leb_spec (_fadingTimer s) 0) as [?|_]; [lia|].
  cbn [set_fade _fadingTimer].
  destruct (Z.leb_spec (_fadingTimer s - 1) 0) as [Hl|Hl];
    destruct (Z.eqb_spec (_fadingTimer s) 1) as [He|He]; try lia; cbn.
  - repeat split; try done. lia.
  - repeat split; done.
Qed.

Lemma update_fade_fields s :
  _fadingTimer (update s) = _fadingTimer (updateFading s) /\
  _fadingFlag (update s) = _fadingFlag (updateFading s) /\
  _fadeSign (update s) = _fadeSign (updateFading s) /\
  fadeOpacity (update s) = fadeOpacity (updateFading s).
Proof. done. Qed.

Lemma fade_run k d s (j : nat) :
  let n := js_or d 30 in
  Z.of_nat j <= n -> 0 < n ->
  let sj := Nat.iter j update (startFade k d s) in
  _fadingTimer sj = n - Z.of_nat j /\
  _fadeSign sj = fadeSignOf k /\
  (fadeOpacity sj == fadeCurve k n j)%Q /\
  (Z.of_nat j = n -> _fadingFlag sj = 0).
Proof.
  intros n. induction j as [|j IH]; intros Hj Hn sj.
  - subst sj. change (Nat.iter 0 update ?x) with x. destruct k; cbn; fold n;
      (split; [lia|split; [done|split; [|lia]]]).
    + change (inject_Z (Z.of_nat 0)) with 0%Q. unfold Qdiv. rewrite Qmult_0_l. lra.
    + change (inject_Z (Z.of_nat 0)) with 0%Q. unfold Qdiv. rewrite Qmult_0_l. lra.
  - subst sj. rewrite Nat.iter_succ.
    destruct IH as (Ht & Hs & Ho & _); [lia|done|].
    set (sj := Nat.iter j update (startFade k d s)) in *.
    destruct (update_fade_fields sj) as (-> & -> & -> & ->).
    destruct (updateFading_tick sj) as (Ht' & Hs' & Ho' & Hf'); [lia|].
    rewrite Ht', Hs', Ho', Hf', Hs, Ht.
    split; [lia|]. split; [done|]. split.
    + assert (Hnz : ~ (inject_Z n == 0)%Q).
      { by apply inject_Z_nonzero. }
      assert (Hdz : ~ (inject_Z (n - Z.of_nat j) == 0)%Q).
      { apply inject_Z_nonzero. lia. }
      destruct k; cbn [fadeSignOf fadeCurve Z.ltb Z.compare] in *; rewrite Ho;
        rewrite Nat2Z.inj_succ; unfold Z.succ;
        revert Hdz; unfold Z.sub; rewrite !inject_Z_plus, inject_Z_opp;
        intros Hdz; field; split; auto.
    + intros E. destruct (Z.eqb_spec (n - Z.of_nat j) 1); [done|lia].
Qed.

Lemma update_idle s :
  _fadingTimer s <= 0 ->
  _fadingTimer (update s) = _fadingTimer s /\
  _fadingFlag (update s) = _fadingFlag s /\
  fadeOpacity (update s) = fadeOpacity s.
Proof.
  intros H. destruct (update_fade_fields s) as (-> & -> & _ & ->).
  unfold updateFading. destruct (Z.leb_spec (_fadingTimer s) 0); [done|lia].
Qed.

Lemma fadeCurve_end k n : 0 < n -> (fadeCurve k n (Z.to_nat n) == fadeTarget k)%Q.
Proof.
  intros Hn. pose proof (inject_Z_nonzero n Hn).
  destruct k; cbn [fadeCurve fadeTarget]; rewrite Z2Nat.id by lia; field; done.
Qed.

Lemma fade_rest k d s (j : nat) :
  let n := js_or d 30 in
  0 < n -> n <= Z.of_nat j ->
  let sj := Nat.iter j update (startFade k d s) in
  _fadingTimer sj = 0 /\ _fadingFlag sj = 0 /\ (fadeOpacity sj == fadeTarget k)%Q.
Proof.
  intros n Hn. induction j as [|j IH]; intros Hj sj; [lia|].
  destruct (Z.eq_dec (Z.of_nat (S j)) n) as [E|E].
  - destruct (fade_run k d s (S j)) as (Ht & _ & Ho & Hf); fold n; [lia|done|].
    fold sj in Ht, Ho, Hf. split; [lia|]. split; [auto|].
    replace (S j) with (Z.to_nat n) in Ho by lia.
    rewrite Ho. by apply fadeCurve_end.
  - destruct IH as (Ht & Hf & Ho); [lia|].
    subst sj. rewrite Nat.iter_succ.
    set (sj := Nat.iter j update (startFade k d s)) in *.
    destruct (update_idle sj) as (-> & -> & ->); [lia|]. done.
Qed.

Lemma fadeCurve_step k n (j : nat) :
  Z.of_nat j < n ->
  match k with
  | FadeIn => (0 <= fadeCurve k n (S j))%Q /\ (fadeCurve k n (S j) < fadeCurve k n j)%Q
  | FadeOut => (fadeCurve k n j < fadeCurve k n (S j))%Q /\ (fadeCurve k n (S j) <= 1)%Q
  end.
Proof.
  intros Hj. assert (Hn : 0 < n) by lia.
  pose proof (inject_Z_pos n Hn) as Hq.
  pose proof (Qinv_lt_0_compat _ Hq) as Hx.
  assert (Hnx : (inject_Z n * / inject_Z n == 1)%Q) by (apply Qmult_inv_r; lra).
  assert (Hle : (0 <= (inject_Z n - inject_Z (Z.of_nat (S j))) * / inject_Z n)%Q).
  { apply Qmult_le_0_compat; [|lra].
    assert (inject_Z (Z.of_nat (S j)) <= inject_Z n)%Q by (rewrite <- Zle_Qle; lia). lra. }
  revert Hle. rewrite Nat2Z.inj_succ. unfold Z.succ. rewrite inject_Z_plus.
  set (x := (/ inject_Z n)%Q) in *. set (a := inject_Z (Z.of_nat j)). set (b := inject_Z n) in *.
  intros Hle.
  destruct k; cbn [fadeCurve]; rewrite Nat2Z.inj_succ; unfold Z.succ;
    rewrite inject_Z_plus; fold a b; unfold Qdiv; fold x;
    change (inject_Z 1) with 1%Q in *; split; lra.
Qed.

(** The last tick lands on the target whatever the opacity before it
    was: the step divides the distance left by the one frame left. *)
Lemma last_tick_lands_on_target s :
  _fadingTimer s = 1 ->
  (fadeOpacity (update s) == if 0 <? _fadeSign s then 0 else 1)%Q /\
  _fadingTimer (update s) = 0 /\ _fadingFlag (update s) = 0.
Proof.
  intros Ht. destruct (update_fade_fields s) as (-> & -> & _ & ->).
  destruct (updateFading_tick s) as (Ht' & _ & Ho & Hf); [lia|].
  rewrite Ht', Ho, Hf, Ht. change (inject_Z 1) with 1%Q.
  split; [|done]. destruct (0 <? _fadeSign s); field.
Qed.

(** C1. A fade started by [startFadeIn] or [startFadeOut] with a positive
    number [n] of frames and driven by [update] ticks: on every tick
    taken while the timer is positive the opacity of the fade sprite gets
    strictly closer to its target without passing it; the timer is
    positive before tick [n]; from tick [n] on the timer and the fade
    flag are [0] and the opacity is the target. *)
Theorem fade_monotone_then_exact (k : FadeKind) (d : option Z) (s : t) :
  0 < js_or d 30 ->
  let n := js_or d 30 in
  let run (j : nat) := Nat.iter j update (startFade k d s) in
  (forall j : nat, 0 < _fadingTimer (run j) ->
     match k with
     | FadeIn => (fadeTarget k <= fadeOpacity (run (S j)))%Q
                 /\ (fadeOpacity (run (S j)) < fadeOpacity (run j))%Q
     | FadeOut => (fadeOpacity (run j) < fadeOpacity (run (S j)))%Q
                  /\ (fadeOpacity (run (S j)) <= fadeTarget k)%Q
     end) /\
  (forall j : nat, Z.of_nat j < n -> 0 < _fadingTimer (run j)) /\
  (forall j : nat, n <= Z.of_nat j ->
     _fadingTimer (run j) = 0 /\ _fadingFlag (run j) = 0
     /\ (fadeOpacity (run j) == fadeTarget k)%Q).
Proof.
  intros Hn n run. split; [|split].
  - intros j Ht.
    assert (Hj : Z.of_nat j < n).
    { destruct (Z.lt_ge_cases (Z.of_nat j) n) as [|Hge]; [done|].
      destruct (fade_rest k d s j Hn Hge) as (E & _). fold (run j) in E. lia. }
    destruct (fade_run k d s j) as (_ & _ & Ho & _); [fold n; lia|done|].
    destruct (fade_run k d s (S j)) as (_ & _ & Ho' & _); [fold n; lia|done|].
    fold (run j) in Ho. fold (run (S j)) in Ho'. fold n in Ho, Ho'.
    pose proof (fadeCurve_step k n j Hj) as Hc.
    destruct k; cbn [fadeTarget]; rewrite Ho, Ho'; exact Hc.
  - intros j Hj. destruct (fade_run k d s j) as (Ht & _); [fold n; lia|done|].
    fold (run j) in Ht. fold n in Ht. lia.
  - intros j Hj. exact (fade_rest k d s j Hn Hj).
Qed.

(** A fade-in of three frames, from the constructed scene. *)
Lemma fade_monotone_then_exact_witness :
  (fadeOpacity (Nat.iter 3 update (startFade FadeIn (Some 3%Z) constructor)) == 0)%Q /\
  _fadingTimer (Nat.iter 3 update (startFade FadeIn (Some 3) constructor)) = 0.
Proof.
  assert (Hn : 0 < js_or (Some 3) 30) by reflexivity.
  destruct (fade_monotone_then_exact FadeIn (Some 3) constructor Hn) as (_ & _ & H).
  destruct (H 3%nat) as (Ht & _ & Ho); [cbn; lia|].
  split; [exact Ho|exact Ht].
Defined.

End Fade.

(** ** Owned windows *)

Section Windows.

Import Scene_Base.

Lemma disposeWindowAt_hit (kept rest : list ref) (w : ref) (s : t) :
  _windows s = kept ++ w :: rest ->
  disposeWindowAt (Z.of_nat (length kept)) s =
    Return tt (set_windows (kept ++ rest) (set_store (call w_clear w (store s)) s)).
Proof.
  intros Hw. unfold disposeWindowAt.
  destruct (Z.leb_spec (Z.of_nat (length kept)) (-1)) as [?|_]; [lia|].
  rewrite Nat2Z.id, Hw.
  rewrite (list_lookup_middle kept rest w (length kept) eq_refl).
  by rewrite delete_middle.
Qed.

Lemma disposeLoop_done (fuel i : nat) (s : t) :
  (length (_windows s) <= i)%nat -> disposeLoop fuel i s = Return tt s.
Proof.
  intros H. destruct fuel; [done|]. cbn [disposeLoop].
  destruct (Nat.ltb_spec i (length (_windows s))); [lia|done].
Qed.

Lemma disposeLoop_every_other (fuel : nat) : forall (kept rest : list ref) (s : t),
  _windows s = kept ++ rest ->
  (length rest <= fuel)%nat ->
  disposeLoop fuel (length kept) s =
    Return tt
      (set_windows (kept ++ everyOther false rest)
         (set_store (forEach (call w_clear) (everyOther true rest) (store s)) s)).
Proof.
  induction fuel as [|fuel IH]; intros kept rest s Hw Hf.
  - destruct rest; [|cbn in Hf; lia]. cbn. rewrite <- Hw. by destruct s.
  - cbn [disposeLoop]. rewrite Hw, length_app.
    destruct rest as [|w rest].
    + cbn [length]. destruct (Nat.ltb_spec (length kept) (length kept + 0)); [lia|].
      cbn. rewrite <- Hw. by destruct s.
    + cbn [length]. destruct (Nat.ltb_spec (length kept) (length kept + S (length rest))); [|lia].
      unfold bind at 1. rewrite (disposeWindowAt_hit kept rest w s Hw).
      destruct rest as [|w2 rest].
      * rewrite disposeLoop_done; [by rewrite !app_nil_r|].
        cbn. rewrite app_nil_r. lia.
      * replace (S (length kept)) with (length (kept ++ [w2])) by (rewrite length_app; cbn; lia).
        rewrite (IH (kept ++ [w2]) rest); cbn [set_windows set_store _windows store].
        -- cbn. by rewrite <- app_assoc.
        -- by rewrite <- app_assoc.
        -- cbn in Hf. lia.
Qed.

Lemma disposeAllWindows_every_other (s : t) :
  disposeAllWindows s =
    Return tt
      (set_windows []
         (set_store (forEach (call w_clear) (everyOther true (_windows s)) (store s)) s)).
Proof.
  unfold disposeAllWindows, bind.
  pose proof (disposeLoop_every_other (length (_windows s)) [] (_windows s) s
                eq_refl (le_n _)) as H.
  cbn [length app] in H. by rewrite H.
Qed.

Lemma forEach_call_other (f : Widget -> Widget) (l : list ref) :
  forall (h : Store) (r : ref), r ∉ l -> forEach (call f) l h !! r = h !! r.
Proof.
  induction l as [|x l IH]; intros h r Hr; [done|].
  apply not_elem_of_cons in Hr as [Hne Hr]. cbn. unfold forEach in IH.
  rewrite IH by done. unfold call. by rewrite lookup_alter_ne.
Qed.

Lemma everyOther_lookup (l : list ref) : forall (b : bool) (r : ref),
  r ∈ everyOther b l -> exists i, l !! i = Some r /\ Nat.even i = b.
Proof.
  induction l as [|x l IH]; intros b r Hr; [by apply elem_of_nil in Hr|].
  cbn in Hr. destruct b.
  - apply elem_of_cons in Hr as [->|Hr]; [by exists 0%nat|].
    destruct (IH _ _ Hr) as (i & Hi & He). exists (Datatypes.S i). split; [done|].
    rewrite Nat.even_succ, <- Nat.negb_even, He. done.
  - destruct (IH _ _ Hr) as (i & Hi & He). exists (Datatypes.S i). split; [done|].
    rewrite Nat.even_succ, <- Nat.negb_even, He. done.
Qed.

(** [terminate] never clears a window that sits at an odd position of
    the list of owned windows. *)
Lemma terminate_skips_odd_positions (s : t) (i : nat) (w : ref) :
  NoDup (_windows s) -> _windows s !! i = Some w -> Nat.odd i = true ->
  w_isDisposed (store (final (terminate s))) w = w_isDisposed (store s) w.
Proof.
  intros Hnd Hw Hodd. unfold terminate. rewrite disposeAllWindows_every_other.
  cbn [final store set_windows set_store]. unfold w_isDisposed.
  rewrite forEach_call_other; [done|].
  intros Hin. destruct (everyOther_lookup _ _ _ Hin) as (j & Hj & He).
  assert (i = j) by (eapply NoDup_lookup; eauto). subst j.
  rewrite <- Nat.negb_even, He in Hodd. done.
Qed.

(** C3 (the code departs from it). [terminate] on a scene that owns two
    live windows returns and empties the list, but clears only the first
    window: the second is dropped from the list without being disposed. *)
Theorem terminate_two_windows :
  _windows Samples.twoWindows = [0%nat; 1%nat] /\
  w_isDisposed (store Samples.twoWindows) 1%nat = false /\
  returned (terminate Samples.twoWindows) = true /\
  _windows (final (terminate Samples.twoWindows)) = [] /\
  w_isDisposed (store (final (terminate Samples.twoWindows))) 0%nat = true /\
  w_isDisposed (store (final (terminate Samples.twoWindows))) 1%nat = false.
Proof. vm_compute. done. Qed.

(** C8. [addWindow] never throws. On a stopped scene without [forced],
    or with a disposed window, it writes one line to [console.error]
    (which one says why; the second names the class of the window) and
    changes nothing else: [_windows], the children, the stored objects
    and every other field are as they were. In every other case the
    window is appended to [_windows] and is the last child, and nothing
    is logged. *)
Theorem addWindow_contract (s : t) (win : ref) (forced : bool) :
  returned (addWindow win forced s) = true /\
  ((_active s = false /\ forced = false) \/ w_isDisposed (store s) win = true ->
     let s' := final (addWindow win forced s) in
     let msg := if negb (_active s) && negb forced
                then "Trying to add window to stopped scene"
                else "Try to add disposed window: " +:+ getClassName (store s) win in
     console s' = console s ++ [msg] /\
     _windows s' = _windows s /\ children s' = children s /\ store s' = store s /\
     s' = mk (_active s) (_windows s) (_fadingFlag s) (_fadingTimer s) (_fadeSign s)
             (_buttonCooldown s) (fadeOpacity s) (fadeShown s) (children s)
             (overlay s) (dimmed s) (store s) (console s ++ [msg])) /\
  (~ ((_active s = false /\ forced = false) \/ w_isDisposed (store s) win = true) ->
     let s' := final (addWindow win forced s) in
     _windows s' = _windows s ++ [win] /\
     children s' = filter (fun r => r <> win) (children s) ++ [win] /\
     win ∈ children s' /\
     console s' = console s /\ store s' = store s /\ _active s' = _active s).
Proof.
  unfold addWindow, isActive. split; [|split].
  - destruct (negb (_active s) && negb forced); [done|].
    by destruct (w_isDisposed (store s) win).
  - intros H. cbn zeta. destruct (negb (_active s) && negb forced) eqn:E.
    + by cbn.
    + destruct H as [[Ha Hf]|Hd]; [rewrite Ha, Hf in E; discriminate E|].
      rewrite Hd. by cbn.
  - intros Hn. cbn zeta.
    destruct (_active s) eqn:Ha, forced eqn:Hf, (w_isDisposed (store s) win) eqn:Hd;
      cbn [negb andb]; try (exfalso; apply Hn; auto; fail);
      (cbn; repeat split; try done;
       apply elem_of_app; right; apply list_elem_of_singleton; done).
Qed.

(** The constructed scene is stopped: a plain add is refused with the
    line for a stopped scene, a forced one goes through. *)
Lemma addWindow_contract_witness :
  console (final (addWindow 0%nat false constructor))
  = ["Trying to add window to stopped scene"] /\
  _windows (final (addWindow 0%nat false constructor)) = [] /\
  children (final (addWindow 0%nat false constructor)) = [] /\
  _windows (final (addWindow 0%nat true constructor)) = [0%nat].
Proof.
  destruct (proj1 (proj2 (addWindow_contract constructor 0%nat false)))
    as (Hc & Hw & Hch & _); [left; split; reflexivity|].
  destruct (proj2 (proj2 (addWindow_contract constructor 0%nat true)))
    as (Hw' & _); [intros [[_ H]|H]; discriminate H|].
  split; [exact Hc|]. split; [exact Hw|]. split; [exact Hch|exact Hw'].
Defined.

End Windows.

(** ** Button cooldown *)

Section Cooldown.

Import Scene_Base.

Lemma updateButtonCooldown_lookup (s : Scene_Load.t) (k : Z) :
  _buttonCooldown (Scene_Load.base (Scene_Load.updateButtonCooldown s)) !! k
  = if decide (0 <= k < 255)
    then coolStep (_buttonCooldown (Scene_Load.base s) !! k)
    else _buttonCooldown (Scene_Load.base s) !! k.
Proof.
  unfold Scene_Load.updateButtonCooldown.
  cbn [Scene_Load.base Scene_Load.set_base set_buttonCooldown _buttonCooldown].
  rewrite (foldl_pointwise (fun _ v => coolStep v)).
  - destruct (decide (k ∈ seqZ 0 255)) as [Hin|Hin];
      destruct (decide (0 <= k < 255)) as [Hr|Hr]; try done.
    + apply elem_of_seqZ in Hin. lia.
    + exfalso. apply Hin. apply elem_of_seqZ. lia.
  - intros i m j. unfold coolStep.
    destruct (0 <? js_or (m !! i) 0) eqn:E.
    + destruct (decide (i = j)) as [->|Hij].
      * by rewrite lookup_insert_eq.
      * by rewrite lookup_insert_ne.
    + destruct (decide (i = j)) as [->|Hij]; done.
  - apply NoDup_seqZ.
Qed.

Lemma updateLoading_base ready (s : Scene_Load.t) :
  Scene_Load.base (Scene_Load.updateLoading ready s) = Scene_Load.base s.
Proof.
  unfold Scene_Load.updateLoading, Scene_Load.processLoadingComplete.
  cbn [Scene_Load.base Scene_Load.allLoaded Scene_Load.loading_timer].
  destruct (Scene_Load.allLoaded s || ready); [|done].
  destruct (Scene_Load.loading_timer s <? 60);
    cbn [Scene_Load.base Scene_Load.allLoaded Scene_Load.loading_timer];
    match goal with |- context [if ?b then _ else _] => destruct b end; done.
Qed.

Lemma Scene_Load_update_cooldown ready (s : Scene_Load.t) (k : Z) :
  _buttonCooldown (Scene_Load.base (Scene_Load.update ready s)) !! k
  = if decide (0 <= k < 255)
    then coolStep (_buttonCooldown (Scene_Base.update (Scene_Load.base s)) !! k)
    else _buttonCooldown (Scene_Base.update (Scene_Load.base s)) !! k.
Proof.
  unfold Scene_Load.update. rewrite updateButtonCooldown_lookup, updateLoading_base.
  done.
Qed.

(** [Scene_Base.update] never reads or writes the cooldown table. *)
Lemma Scene_Base_update_cooldown (s : t) :
  _buttonCooldown (update s) = _buttonCooldown s.
Proof.
  unfold update, updateChildren, updateFading. cbn [set_store _buttonCooldown].
  destruct (_fadingTimer s <=? 0); [done|].
  cbn [set_fade _fadingTimer].
  destruct (_fadingTimer s - 1 <=? 0); done.
Qed.

(** In the loading scene a heated button is cool again after four frames
    and not before. *)
Lemma Scene_Load_cools_in_four (s : Scene_Load.t) (k : Z) (n : nat) :
  0 <= k < 255 -> (n <= 4)%nat ->
  let heated := Scene_Load.set_base (heatupButton k (Scene_Load.base s)) s in
  _buttonCooldown (Scene_Load.base (Nat.iter n (Scene_Load.update false) heated)) !! k
  = Some (4 - Z.of_nat n).
Proof.
  intros Hk Hn heated. induction n as [|n IH].
  - cbn. by rewrite lookup_insert_eq.
  - rewrite Nat.iter_succ, Scene_Load_update_cooldown, Scene_Base_update_cooldown, IH by lia.
    destruct (decide (0 <= k < 255)); [|lia].
    unfold coolStep, js_or.
    destruct (Z.eqb_spec (4 - Z.of_nat n) 0); [lia|].
    destruct (Z.ltb_spec 0 (4 - Z.of_nat n)); [|lia].
    f_equal. lia.
Qed.

Lemma Scene_Base_updates_cooldown (s : t) (n : nat) :
  _buttonCooldown (Nat.iter n update s) = _buttonCooldown s.
Proof.
  induction n as [|n IH]; [done|].
  by rewrite Nat.iter_succ, Scene_Base_update_cooldown.
Qed.

Lemma Scene_Game_updates_cooldown (g : Scene_Game.t) (n : nat) :
  _buttonCooldown (Scene_Game.base (Nat.iter n Scene_Game.update g))
  = _buttonCooldown (Scene_Game.base g).
Proof.
  induction n as [|n IH]; [done|].
  rewrite Nat.iter_succ. unfold Scene_Game.update at 1.
  cbn [Scene_Game.base Scene_Game.set_base].
  by rewrite Scene_Base_update_cooldown.
Qed.

Lemma Scene_Intro_update_cooldown (k : Z) (triggered : bool) (s : Scene_Intro.t) :
  _buttonCooldown (Scene_Intro.base (Scene_Intro.update k triggered s))
  = if triggered then <[k := 4]> (_buttonCooldown (Scene_Intro.base s))
    else _buttonCooldown (Scene_Intro.base s).
Proof.
  unfold Scene_Intro.update.
  set (s2 := Scene_Intro.set_timer _ _).
  assert (E2 : _buttonCooldown (Scene_Intro.base s2) = _buttonCooldown (Scene_Intro.base s)).
  { subst s2. cbn. apply Scene_Base_update_cooldown. }
  set (s3 := Scene_Intro.updateSplashStage s2).
  assert (E3 : _buttonCooldown (Scene_Intro.base s3) = _buttonCooldown (Scene_Intro.base s)).
  { rewrite <- E2. subst s3. unfold Scene_Intro.updateSplashStage.
    repeat match goal with |- context [if ?b then _ else _] => destruct b end; done. }
  set (s4 := Scene_Intro.updateSkip k triggered s3).
  assert (E4 : _buttonCooldown (Scene_Intro.base s4)
               = if triggered then <[k := 4]> (_buttonCooldown (Scene_Intro.base s))
                 else _buttonCooldown (Scene_Intro.base s)).
  { rewrite <- E3. subst s4. unfold Scene_Intro.updateSkip.
    destruct triggered; cbn [negb]; [|done].
    repeat match goal with |- context [if ?b then _ else _] => destruct b end; done. }
  rewrite <- E4. by destruct (Scene_Intro.requestFilterUpdate s4).
Qed.

Lemma Scene_Intro_stays_hot (k : Z) (clicks : list bool) : forall (s : Scene_Intro.t),
  _buttonCooldown (Scene_Intro.base s) !! k = Some 4 ->
  _buttonCooldown
    (Scene_Intro.base (foldl (fun acc c => Scene_Intro.update k c acc) s clicks)) !! k
  = Some 4.
Proof.
  induction clicks as [|c clicks IH]; intros s Hs; [done|].
  cbn [foldl]. apply IH. rewrite Scene_Intro_update_cooldown.
  destruct c; [by rewrite lookup_insert_eq|done].
Qed.

(** C6 (the code departs from it). A button heated by [heatupButton]
    keeps the counter [4], and is never cool again, through any number of
    frames of a scene whose frame update is [Scene_Base.update], of the
    gameplay scene, and of the intro scene, whose [updateSkip] is the one
    caller of [heatupButton]. In the started intro scene a click on the
    first frame heats the button and skips to frame 149; a click on the
    next frame, with the button still hot, skips again, to frame 179. *)
Theorem heated_button_stays_hot (s : t) (k : Z) (n : nat) :
  _buttonCooldown (Nat.iter n update (heatupButton k s)) !! k = Some 4 /\
  isButtonCooled k (Nat.iter n update (heatupButton k s)) = false /\
  (forall g : Scene_Game.t,
     Scene_Game.base g = heatupButton k s ->
     isButtonCooled k (Scene_Game.base (Nat.iter n Scene_Game.update g)) = false) /\
  (forall (i : Scene_Intro.t) (clicks : list bool),
     isButtonCooled k
       (Scene_Intro.base
          (foldl (fun acc c => Scene_Intro.update k c acc)
                 (Scene_Intro.update k true i) clicks)) = false) /\
  (let s1 := Scene_Intro.update k true (Scene_Intro.start s) in
   let s2 := Scene_Intro.update k true s1 in
   Scene_Intro.timer s1 = 149 /\
   isButtonCooled k (Scene_Intro.base s1) = false /\
   Scene_Intro.timer s2 = 179).
Proof.
  assert (E : _buttonCooldown (heatupButton k s) !! k = Some 4).
  { cbn. by rewrite lookup_insert_eq. }
  split; [|split; [|split; [|split]]].
  - by rewrite Scene_Base_updates_cooldown.
  - unfold isButtonCooled. by rewrite Scene_Base_updates_cooldown, E.
  - intros g Hg. unfold isButtonCooled.
    by rewrite Scene_Game_updates_cooldown, Hg, E.
  - intros i clicks. unfold isButtonCooled.
    rewrite Scene_Intro_stays_hot; [done|].
    by rewrite Scene_Intro_update_cooldown, lookup_insert_eq.
  - cbn zeta. split; [reflexivity|]. split; [|reflexivity].
    unfold isButtonCooled.
    by rewrite Scene_Intro_update_cooldown, lookup_insert_eq.
Qed.

Lemma isButtonCooled_iff (s : t) (k : Z) :
  isButtonCooled k s = true <-> js_or (_buttonCooldown s !! k) 0 = 0.
Proof. unfold isButtonCooled. apply Z.eqb_eq. Qed.

End Cooldown.

(** ** Overlay *)

Section Overlay.

Import Scene_Base.

Lemma call_lookup f (r j : ref) (h : Store) :
  call f r h !! j = if decide (r = j) then f <$> h !! r else h !! j.
Proof.
  unfold call. destruct (decide (r = j)) as [->|Hn].
  - by rewrite lookup_alter_eq.
  - by rewrite lookup_alter_ne.
Qed.

Lemma raise_body (o sp : ref) (h : Store) (j : ref) :
  (if from_option w_alwaysActive false (h !! sp) then h
   else if bool_decide (sp <> o)
        then call w_deactivate sp (call (w_setLastActiveState (w_isActive h sp)) sp h)
        else h) !! j
  = if decide (sp = j) then raiseChild o sp <$> h !! sp else h !! j.
Proof.
  unfold raiseChild, w_isActive.
  destruct (decide (sp = j)) as [<-|Hn];
    destruct (h !! sp) as [w|] eqn:E; cbn [from_option fmap option_fmap option_map];
    try destruct (w_alwaysActive w); try destruct (bool_decide (sp <> o));
    rewrite ?call_lookup, ?decide_True, ?decide_False, ?E by done; done.
Qed.

Lemma close_body (o sp : ref) (h : Store) (j : ref) :
  (if bool_decide (sp <> o) && from_option w_lastActiveState false (h !! sp)
   then call w_activate sp h else h) !! j
  = if decide (sp = j) then closeChild o sp <$> h !! sp else h !! j.
Proof.
  unfold closeChild.
  destruct (decide (sp = j)) as [<-|Hn];
    destruct (h !! sp) as [w|] eqn:E; cbn [from_option fmap option_fmap option_map];
    try destruct (w_lastActiveState w); destruct (bool_decide (sp <> o)); cbn [andb];
    rewrite ?call_lookup, ?decide_True, ?decide_False, ?E by done; done.
Qed.

Lemma raise_loop (o : ref) (cs : list ref) (h : Store) (j : ref) :
  NoDup cs ->
  forEach (fun sp h =>
             if from_option w_alwaysActive false (h !! sp) then h
             else if bool_decide (sp <> o)
                  then call w_deactivate sp
                         (call (w_setLastActiveState (w_isActive h sp)) sp h)
                  else h) cs h !! j
  = if decide (j ∈ cs) then raiseChild o j <$> h !! j else h !! j.
Proof.
  intros Hnd. unfold forEach.
  apply (foldl_pointwise (fun sp v => raiseChild o sp <$> v)); [|done].
  intros. apply raise_body.
Qed.

Lemma close_loop (o : ref) (cs : list ref) (h : Store) (j : ref) :
  NoDup cs ->
  forEach (fun sp h =>
             if bool_decide (sp <> o) && from_option w_lastActiveState false (h !! sp)
             then call w_activate sp h else h) cs h !! j
  = if decide (j ∈ cs) then closeChild o j <$> h !! j else h !! j.
Proof.
  intros Hnd. unfold forEach.
  apply (foldl_pointwise (fun sp v => closeChild o sp <$> v)); [|done].
  intros. apply close_body.
Qed.

(** What one raise followed by one close leaves of a child other than
    the overlay. *)
Lemma overlay_round_trip_child (s : t) (o r : ref) (w : Widget) :
  NoDup (children s) -> r <> o -> store s !! r = Some w ->
  store (closeOverlay (raiseOverlay (Some o) s)) !! r
  = Some (if decide (r ∈ children s)
          then closeChild o r (raiseChild o r w) else w).
Proof.
  intros Hnd Hro Hw. assert (Hor : o <> r) by congruence.
  unfold raiseOverlay. unfold closeOverlay at 1.
  cbn [overlay set_store set_dimmed set_overlay store children].
  rewrite call_lookup, (decide_False (P := o = r)) by done.
  rewrite close_loop by done.
  rewrite !call_lookup, !(decide_False (P := o = r)) by done.
  rewrite raise_loop by done.
  rewrite !call_lookup, !(decide_False (P := o = r)) by done. rewrite Hw.
  by destruct (decide (r ∈ children s)).
Qed.

Lemma overlay_round_trip_siblings (s : t) (o r : ref) (w : Widget) :
  NoDup (children s) -> r <> o -> store s !! r = Some w ->
  exists w', store (closeOverlay (raiseOverlay (Some o) s)) !! r = Some w' /\
    w_z w' = w_z w /\
    (w_alwaysActive w = false \/ w_lastActiveState w = false \/ w_active w = true ->
     w_active w' = w_active w).
Proof.
  intros Hnd Hro Hw. eexists. split; [by apply overlay_round_trip_child|].
  destruct (decide (r ∈ children s)); [|done].
  unfold closeChild, raiseChild. rewrite bool_decide_true by done. cbn [andb].
  destruct w as [a l aa iw v z oz dd p tk cn]; cbn.
  destruct aa; cbn.
  - destruct l; cbn; split; try done. intros [?|[?|?]]; done.
  - destruct a; cbn; done.
Qed.

(** The overlay gets back the z it had before it was raised. *)
Lemma overlay_round_trip_z (s : t) (o : ref) (w : Widget) :
  NoDup (children s) -> store s !! o = Some w ->
  exists w', store (closeOverlay (raiseOverlay (Some o) s)) !! o = Some w' /\
             w_z w' = w_z w.
Proof.
  intros Hnd Hw.
  unfold raiseOverlay. unfold closeOverlay at 1.
  cbn [overlay set_store set_dimmed set_overlay store children].
  rewrite call_lookup, (decide_True (P := o = o)) by done.
  rewrite close_loop by done.
  rewrite !call_lookup, !(decide_True (P := o = o)) by done.
  rewrite raise_loop by done.
  rewrite !call_lookup, !(decide_True (P := o = o)) by done. rewrite Hw.
  unfold closeChild, raiseChild. rewrite bool_decide_false by (intros H; by apply H).
  destruct (decide (o ∈ children s)); destruct w as [a l aa iw v z oz dd p tk cn];
    destruct aa; cbn; eauto.
Qed.

Lemma overlay_noops (s : t) :
  raiseOverlay None s = s /\ (overlay s = None -> closeOverlay s = s).
Proof. split; [done|]. intros E. unfold closeOverlay. by rewrite E. Qed.

(** C7 (the code departs from it). The scene holds a window and an
    always-active sprite, both active. After [pause] the sprite is
    inactive; raising the window as overlay and closing it again leaves
    the sprite active: [closeOverlay] acts on the flag that [pause] left
    behind, which [raiseOverlay] did not refresh for this sprite. *)
Theorem overlay_close_wakes_paused_sticky_child :
  let before := pause Samples.stickyScene in
  let after := closeOverlay (raiseOverlay (Some 0%nat) before) in
  children before = [0%nat; 1%nat] /\
  overlay before = None /\
  from_option w_alwaysActive false (store before !! 1%nat) = true /\
  w_isActive (store before) 1%nat = false /\
  w_isActive (store after) 1%nat = true /\
  overlay after = None.
Proof. vm_compute. done. Qed.

End Overlay.

(** ** Doubles *)

Lemma fl64_comp (x y : Q) : (x == y)%Q -> fl64 x = fl64 y.
Proof. intros E. unfold fl64. by rewrite (Qred_complete x y E). Qed.

Lemma roundHalfEven_close (q : Q) :
  (Qabs (inject_Z (roundHalfEven q) - q) <= 1 # 2)%Q.
Proof.
  unfold roundHalfEven.
  pose proof (Qfloor_le q) as Hl. pose proof (Qlt_floor q) as Hu.
  rewrite inject_Z_plus in Hu. change (inject_Z 1) with 1%Q in Hu.
  apply Qabs_Qle_condition.
  destruct (Qcompare (q - inject_Z (Qfloor q)) (1 # 2)) eqn:E.
  - apply Qeq_alt in E. destruct (Z.even (Qfloor q)).
    + split; lra.
    + rewrite inject_Z_plus. change (inject_Z 1) with 1%Q. split; lra.
  - apply Qlt_alt in E. split; lra.
  - apply Qgt_alt in E. rewrite inject_Z_plus. change (inject_Z 1) with 1%Q.
    split; lra.
Qed.

Lemma two_power_pos (k : Z) : (0 < 2 ^ k)%Q.
Proof. by apply Qpower_0_lt. Qed.

Lemma binade_le (x : Q) : ~ (x == 0)%Q -> (2 ^ binade x <= Qabs x)%Q.
Proof.
  intros Hx. unfold binade.
  destruct (Qle_bool _ _) eqn:E; [by apply Qle_bool_iff|]. clear E.
  destruct x as [n d]. cbn [Qnum Qden Qabs].
  assert (Hn : 0 < Z.abs n).
  { destruct (Z.eq_dec n 0) as [->|]; [|lia]. exfalso. apply Hx. reflexivity. }
  pose proof (Z.log2_spec _ Hn) as [Ha _].
  pose proof (Z.log2_spec (Zpos d) (Pos2Z.is_pos d)) as [_ Hb].
  pose proof (Z.log2_nonneg (Z.abs n)) as Ha0.
  pose proof (Z.log2_nonneg (Zpos d)) as Hb0.
  set (a := Z.log2 (Z.abs n)) in *. set (b := Z.log2 (Zpos d)) in *.
  replace (a - b - 1) with (a - Z.succ b) by lia.
  rewrite Qpower_minus by done.
  change 2%Q with (inject_Z 2).
  rewrite <- !Zpower_Qpower by lia.
  rewrite (Qmake_Qdiv (Z.abs n) d).
  assert (H2 : 0 < 2 ^ Z.succ b) by (apply Z.pow_pos_nonneg; lia).
  apply Qle_shift_div_r.
  { change 0%Q with (inject_Z 0). by rewrite <- Zlt_Qlt. }
  assert (E : (inject_Z (Z.abs n) / inject_Z (Z.pos d) * inject_Z (2 ^ Z.succ b)
               == inject_Z (Z.abs n) * inject_Z (2 ^ Z.succ b) / inject_Z (Z.pos d))%Q).
  { field. change 0%Q with (inject_Z 0). rewrite inject_Z_injective. lia. }
  rewrite E. apply Qle_shift_div_l.
  { change 0%Q with (inject_Z 0). by rewrite <- Zlt_Qlt. }
  rewrite <- !inject_Z_mult, <- Zle_Qle. nia.
Qed.

(** From [2^-1022] on, the double of [x] is within [|x| / 2^53] of [x]. *)
Lemma fl64_close (x : Q) :
  (2 ^ (-1022) <= Qabs x)%Q ->
  (Qabs (fl64 x - x) <= Qabs x * 2 ^ (-53))%Q.
Proof.
  intros Hn. unfold fl64.
  assert (Hx0 : ~ (x == 0)%Q).
  { intros E. rewrite E in Hn. revert Hn. apply Qlt_not_le. apply two_power_pos. }
  pose proof (Qred_correct x) as Hr.
  destruct (Qeq_bool (Qred x) 0) eqn:E0.
  { apply Qeq_bool_iff in E0. rewrite Hr in E0. done. }
  clear E0. rewrite Qred_correct.
  set (k := Z.max (binade (Qred x)) (-1022) - 52).
  pose proof (two_power_pos k) as Hk.
  assert (Hulp : (2 ^ k <= Qabs x * 2 ^ (-52))%Q).
  { assert (Hs : (2 ^ k == 2 ^ (k + 52) * 2 ^ (-52))%Q).
    { rewrite <- Qpower_plus by done. by replace (k + 52 + -52) with k by lia. }
    rewrite Hs. apply Qmult_le_compat_r; [|apply Qlt_le_weak, two_power_pos].
    unfold k. replace (Z.max (binade (Qred x)) (-1022) - 52 + 52)
      with (Z.max (binade (Qred x)) (-1022)) by lia.
    destruct (Z.max_spec (binade (Qred x)) (-1022)) as [[_ ->]|[_ ->]]; [done|].
    rewrite <- Hr at 2. apply binade_le. by rewrite Hr. }
  pose proof (roundHalfEven_close (Qred x / 2 ^ k)) as Hc.
  set (r := inject_Z (roundHalfEven (Qred x / 2 ^ k))) in *.
  assert (E : (r * 2 ^ k - x == (r - Qred x / 2 ^ k) * 2 ^ k)%Q).
  { rewrite Hr. field. lra. }
  rewrite E, Qabs_Qmult, (Qabs_pos (2 ^ k)) by lra.
  assert (H53 : (Qabs x * 2 ^ (-53) == (1 # 2) * (Qabs x * 2 ^ (-52)))%Q).
  { assert (Hp : (2 ^ (-52) == 2 ^ (-53) * 2 ^ 1)%Q) by (by rewrite <- Qpower_plus).
    rewrite Hp. change (2 ^ 1)%Q with 2%Q. ring. }
  rewrite H53.
  apply Qle_trans with ((1 # 2) * 2 ^ k)%Q.
  - apply Qmult_le_compat_r; [exact Hc|lra].
  - apply Qmult_le_l; [reflexivity|exact Hulp].
Qed.

(** One tenth is not a double; the nearest one lies above it. *)
Lemma fl64_tenth : fl64 (1 # 10) = (3602879701896397 # 36028797018963968)%Q.
Proof. vm_compute. reflexivity. Qed.

(** [0.2375] is not a double either; the nearest one lies below it, and
    [toFixed(3)] takes it to [0.237]. *)
Lemma toFixed3_below_tie :
  (fl64 (19 # 80) < 19 # 80)%Q /\
  Scene_Game.toFixed3 (fl64 (19 # 80)) = (237 # 1000)%Q /\
  Scene_Game.toFixed3 (19 # 80) = (238 # 1000)%Q.
Proof. split; [|split]; vm_compute; reflexivity. Qed.

(** ** The gameplay scene *)

Section Game.

Import Scene_Game.

#[local] Instance keeps_preorder : PreOrder keeps.
Proof.
  split.
  - intros s. split; [done|]. intros H. split; [done|lia].
  - intros a b c [Hb1 Hp1] [Hb2 Hp2]. split; [congruence|].
    intros H. destruct (Hp1 H) as [H1 L1]. destruct (Hp2 H1) as [H2 L2].
    split; [done|lia].
Qed.

Lemma toFixed3_comp (x y : Q) : (x == y)%Q -> toFixed3 x = toFixed3 y.
Proof.
  intros E. unfold toFixed3.
  assert (Hb : Qle_bool 0 x = Qle_bool 0 y).
  { apply eq_true_iff_eq. rewrite !Qle_bool_iff. by rewrite E. }
  rewrite Hb. destruct (Qle_bool 0 y); by rewrite E.
Qed.

Lemma Qmake_1000 (k : Z) : (Qmake k 1000 == inject_Z k / 1000)%Q.
Proof. rewrite Qmake_Qdiv. reflexivity. Qed.

Lemma toFixed3_rounds (x : Q) : is_round3 x (toFixed3 x).
Proof.
  unfold toFixed3, is_round3.
  destruct (Qle_bool 0 x).
  - exists (Qfloor (x * 1000 + (1 # 2))). split; [apply Qmake_1000|].
    pose proof (Qfloor_le (x * 1000 + (1 # 2))) as Hl.
    pose proof (Qlt_floor (x * 1000 + (1 # 2))) as Hu.
    rewrite inject_Z_plus in Hu. change (inject_Z 1) with 1%Q in Hu.
    rewrite Qmake_1000. set (f := inject_Z (Qfloor (x * 1000 + (1 # 2)))) in *.
    assert (Hf : (f == 1000 * (f / 1000))%Q) by (field; done).
    set (r := (f / 1000)%Q) in *.
    apply Qabs_Qle_condition. split; lra.
  - exists (- Qfloor (- x * 1000 + (1 # 2))). split.
    + rewrite Qmake_1000, inject_Z_opp. field.
    + pose proof (Qfloor_le (- x * 1000 + (1 # 2))) as Hl.
      pose proof (Qlt_floor (- x * 1000 + (1 # 2))) as Hu.
      rewrite inject_Z_plus in Hu. change (inject_Z 1) with 1%Q in Hu.
      rewrite Qmake_1000. set (f := inject_Z (Qfloor (- x * 1000 + (1 # 2)))) in *.
      assert (Hf : (f == 1000 * (f / 1000))%Q) by (field; done).
      set (r := (f / 1000)%Q) in *.
      apply Qabs_Qle_condition. split; lra.
Qed.

Lemma land_1_even (z : Z) : (Z.land z 1 =? 0) = Z.even z.
Proof.
  change 1 with (Z.ones 1). rewrite Z.land_ones by lia. change (2 ^ 1) with 2.
  rewrite Zeven_mod. done.
Qed.

Lemma rem_4_even (z : Z) : Z.even (Z.rem z 4) = Z.even z.
Proof.
  pose proof (Z.quot_rem' z 4) as H.
  replace (Z.rem z 4) with (z - 4 * (z ÷ 4)) by lia.
  rewrite Z.even_sub, Z.even_mul. cbn. by destruct (Z.even z).
Qed.


Variable env : Env.

Create HintDb keeps.


Lemma keeps_field (f : t -> t) :
  (forall s, base (f s) = base s) ->
  (forall s, spritePool (f s) = spritePool s) ->
  (forall s, cardSpritePoolSize (f s) = cardSpritePoolSize s) ->
  forall s, keeps s (f s).
Proof.
  intros Hb Hp Hs s. split; [apply Hb|].
  unfold poolOK, poolLen. rewrite Hp, Hs. intros H. split; [done|lia].
Qed.

Lemma keeps_getPool : preserves keeps getPool.
Proof. apply (preserves_pure keeps). intros s. unfold getPool. by destruct (spritePool s). Qed.

Lemma keeps_getCard c : preserves keeps (getCard c).
Proof. apply (preserves_pure keeps). intros s. unfold getCard. by destruct (cards s !! c). Qed.

Lemma keeps_getHandCanvas pid : preserves keeps (getHandCanvas env pid).
Proof.
  unfold getHandCanvas. destruct (at_Z _ _); [apply (preserves_ret keeps)|apply (preserves_throw keeps)].
Qed.

Lemma keeps_getSprite i : preserves keeps (getSprite i).
Proof.
  unfold getSprite. apply (preserves_bind keeps); [apply keeps_getPool|].
  intros p. destruct (p !! i); [apply (preserves_ret keeps)|apply (preserves_throw keeps)].
Qed.

Lemma keeps_spriteOf c : preserves keeps (spriteOf c).
Proof.
  unfold spriteOf. apply (preserves_bind keeps); [apply keeps_getCard|].
  intros cd. destruct (sprite cd); [apply (preserves_ret keeps)|apply (preserves_throw keeps)].
Qed.

Lemma keeps_updSprite i f : preserves keeps (updSprite i f).
Proof.
  apply (preserves_modify keeps). intros s. split; [done|].
  unfold poolOK, poolLen. cbn. intros (p & Hp & Hs). rewrite Hp. cbn.
  rewrite length_alter. split; [|lia]. exists (alter f i p). by rewrite length_alter.
Qed.

Lemma keeps_getIdleCardSprite : preserves keeps (getIdleCardSprite env).
Proof.
  intros s. unfold getIdleCardSprite.
  destruct (spritePool s) as [p|] eqn:Hp; cbn [from_option].
  - destruct (findIdle p) as [i|]; [reflexivity|].
    unfold createCardSprite, pushSprite, getPool, ret, modify, bind; cbn.
    rewrite Hp. cbn. split; [done|].
    unfold poolOK, poolLen. cbn. rewrite Hp. cbn.
    intros (p0 & [= <-] & Hs). rewrite length_app. cbn. split; [|lia].
    eexists. split; [done|]. rewrite length_app. cbn. lia.
  - unfold createCardSprite, pushSprite, getPool, ret, modify, bind; cbn.
    rewrite Hp. cbn.
    split; [done|]. unfold poolOK. cbn. rewrite Hp. by intros (? & ? & ?).
Qed.

Ltac keep :=
  repeat first
    [ apply (preserves_bind keeps); [|intros ?]
    | apply (preserves_ret keeps)
    | apply (preserves_throw keeps)
    | apply (preserves_get keeps)
    | apply keeps_getPool
    | apply keeps_getCard
    | apply keeps_getHandCanvas
    | apply keeps_getSprite
    | apply keeps_spriteOf
    | apply keeps_updSprite
    | apply keeps_getIdleCardSprite
    | apply (preserves_modify keeps); apply keeps_field; done
    | progress auto with keeps
    | match goal with
      | |- preserves _ (match ?x with _ => _ end) => destruct x
      end ].

Lemma keeps_bindSprite c i : preserves keeps (bindSprite c i).
Proof. unfold bindSprite. keep. Qed.

Lemma keeps_addAnimationCount d : preserves keeps (addAnimationCount d).
Proof. unfold addAnimationCount. keep. Qed.

Lemma keeps_setTimeout task d : preserves keeps (setTimeout task d).
Proof. unfold setTimeout. keep. Qed.

#[local] Hint Resolve keeps_bindSprite keeps_addAnimationCount keeps_setTimeout : keeps.

Lemma keeps_getCardImage cd : preserves keeps (getCardImage env cd).
Proof. unfold getCardImage. keep. Qed.

#[local] Hint Resolve keeps_getCardImage : keeps.

Lemma keeps_arrangeLoop index hcs n rest : forall i,
  preserves keeps (arrangeLoop env index hcs n i rest).
Proof. induction rest as [|c rest IH]; intros i; cbn [arrangeLoop]; keep. Qed.

#[local] Hint Resolve keeps_arrangeLoop : keeps.

Lemma keeps_arrangeHandCards index : preserves keeps (arrangeHandCards env index).
Proof. unfold arrangeHandCards. keep. Qed.

#[local] Hint Resolve keeps_arrangeHandCards : keeps.

Lemma keeps_addDiscardCard card pid : preserves keeps (addDiscardCard env card pid).
Proof. unfold addDiscardCard. keep. Qed.

#[local] Hint Resolve keeps_addDiscardCard : keeps.

Lemma keeps_onCardPlay pid card : preserves keeps (onCardPlay env pid card).
Proof. unfold onCardPlay. keep. Qed.

Lemma keeps_onCardDraw_from pid n show rest : forall i,
  preserves keeps (onCardDraw_from pid n show i rest).
Proof. induction rest as [|c rest IH]; intros i; cbn [onCardDraw_from]; keep. Qed.

#[local] Hint Resolve keeps_onCardDraw_from : keeps.

Lemma keeps_onCardDraw pid cs show : preserves keeps (onCardDraw pid cs show).
Proof. unfold onCardDraw. keep. Qed.

Lemma keeps_processCardDrawAnimation pid card show ar :
  preserves keeps (processCardDrawAnimation env pid card show ar).
Proof. unfold processCardDrawAnimation. keep. Qed.

Lemma keeps_sendCardToDeck pid card : preserves keeps (sendCardToDeck env pid card).
Proof. unfold sendCardToDeck. keep. Qed.

#[local] Hint Resolve keeps_processCardDrawAnimation keeps_sendCardToDeck : keeps.

Lemma keeps_runCallback i cb : preserves keeps (runCallback env i cb).
Proof. unfold runCallback. keep. Qed.

#[local] Hint Resolve keeps_runCallback : keeps.

Lemma keeps_arrive i : preserves keeps (arrive env i).
Proof. unfold arrive. keep. Qed.

Lemma keeps_fire k : preserves keeps (fire env k).
Proof. unfold fire, runTask. keep. Qed.

Lemma pushSprites_spec (n : nat) : forall (s : t) (p : list CardSprite),
  spritePool s = Some p ->
  exists p', pushSprites env n s = Return tt (set_spritePool (Some (p ++ p')) s) /\
             length p' = n /\ Forall (idle env) p'.
Proof.
  induction n as [|n IH]; intros s p Hp.
  - exists []. rewrite app_nil_r, <- Hp. split; [by destruct s|]. split; [done|constructor].
  - cbn [pushSprites].
    unfold createCardSprite, pushSprite, getPool, ret, modify, bind at 1 2 3.
    rewrite Hp. cbn [spritePool set_spritePool fmap option_fmap option_map].
    rewrite Hp. cbn [fmap option_fmap option_map].
    destruct (IH (set_spritePool (Some (p ++ [freshCardSprite env (length p)])) s)
                 (p ++ [freshCardSprite env (length p)]) eq_refl) as (p' & E & Hl & Hi).
    rewrite E. exists (freshCardSprite env (length p) :: p'). split; [|split].
    + cbn. by rewrite <- app_assoc.
    + cbn. by rewrite Hl.
    + constructor; [|done]. by repeat split.
Qed.

Lemma createCardSpritePool_spec (s : t) :
  exists p, createCardSpritePool env s = Return tt (set_spritePool (Some p) s) /\
            length p = Z.to_nat (cardSpritePoolSize s) /\ Forall (idle env) p.
Proof.
  unfold createCardSpritePool.
  destruct (pushSprites_spec (Z.to_nat (cardSpritePoolSize s))
              (set_spritePool (Some []) s) [] eq_refl) as (p & E & Hl & Hi).
  exists p. by rewrite E.
Qed.

Lemma created_pool :
  exists p, spritePool (created env) = Some p /\ length p = 116%nat /\
            cardSpritePoolSize (created env) = 116 /\ Forall (idle env) p.
Proof.
  unfold created.
  destruct (createCardSpritePool_spec constructor) as (p & E & Hl & Hi).
  rewrite E. exists p. cbn in *. repeat split; try done; lia.
Qed.

Lemma created_poolOK : poolOK (created env).
Proof.
  destruct created_pool as (p & Hp & Hl & Hs & _).
  exists p. split; [done|]. rewrite Hs, Hl. done.
Qed.

Lemma exec_keeps_pool (op : Op) (s : t) :
  poolOK s -> poolOK (exec env op s) /\ (poolLen s <= poolLen (exec env op s))%nat.
Proof.
  destruct op as [ | d | d | | | | | pid card | pid cs show | k | i | ps | c co v n];
    cbn [exec]; try (intros H; split; [exact H|exact (le_n _)]).
  - exact (proj2 (keeps_onCardPlay pid card s)).
  - exact (proj2 (keeps_onCardDraw pid cs show s)).
  - exact (proj2 (keeps_fire k s)).
  - exact (proj2 (keeps_arrive i s)).
  - destruct (cards s !! c); intros H; (split; [exact H|exact (le_n _)]).
Qed.

Lemma update_timer_nonneg (b : Scene_Base.t) :
  0 <= Scene_Base._fadingTimer b -> 0 <= Scene_Base._fadingTimer (Scene_Base.update b).
Proof.
  intros H. unfold Scene_Base.update, Scene_Base.updateChildren, Scene_Base.updateFading.
  cbn [Scene_Base.set_store Scene_Base._fadingTimer].
  destruct (Scene_Base._fadingTimer b <=? 0); [done|].
  cbn [Scene_Base.set_fade Scene_Base._fadingTimer].
  destruct (Z.leb_spec (Scene_Base._fadingTimer b - 1) 0); cbn; lia.
Qed.

Lemma js_or_nonneg d : match d with Some v => 0 <= v | None => True end -> 0 <= js_or d 30.
Proof. destruct d as [v|]; cbn; [|lia]. destruct (v =? 0); lia. Qed.

Lemma exec_timer_nonneg (op : Op) (s : t) :
  validOp op ->
  0 <= Scene_Base._fadingTimer (base s) ->
  0 <= Scene_Base._fadingTimer (base (exec env op s)).
Proof.
  intros Hv H.
  destruct op as [ | d | d | | | | | pid card | pid cs show | k | i | ps | c co v n];
    cbn [exec]; try exact H.
  - by apply update_timer_nonneg.
  - cbn. apply js_or_nonneg. by destruct d.
  - cbn. apply js_or_nonneg. by destruct d.
  - cbn. done.
  - cbn. done.
  - by rewrite (proj1 (keeps_onCardPlay pid card s)).
  - by rewrite (proj1 (keeps_onCardDraw pid cs show s)).
  - by rewrite (proj1 (keeps_fire k s)).
  - by rewrite (proj1 (keeps_arrive i s)).
  - by destruct (cards s !! c).
Qed.

Lemma reachable_invariant (s : t) :
  reachable env s -> 0 <= Scene_Base._fadingTimer (base s) /\ poolOK s.
Proof.
  induction 1 as [|s op _ [Ht Hp] Hv].
  - split; [|apply created_poolOK].
    destruct (createCardSpritePool_spec constructor) as (p & E & _).
    unfold created. rewrite E. cbn. done.
  - split; [by apply exec_timer_nonneg|by apply exec_keeps_pool].
Qed.

Lemma findIdle_from_None (p : list CardSprite) : forall i,
  findIdle_from i p = None <-> Forall (fun sp => playerIndex sp <> -2) p.
Proof.
  induction p as [|sp p IH]; intros i; cbn [findIdle_from].
  - split; [constructor|done].
  - destruct (Z.eqb_spec (playerIndex sp) (-2)) as [E|E].
    + split; [done|]. intros H. apply Forall_cons in H as [H _]. done.
    + rewrite IH. split; [by constructor|]. intros H. by apply Forall_cons in H as [_ H].
Qed.

Lemma findIdle_from_Some (p : list CardSprite) : forall i k,
  findIdle_from i p = Some k ->
  exists j sp, k = (i + j)%nat /\ p !! j = Some sp /\ playerIndex sp = -2 /\
    Forall (fun sp' => playerIndex sp' <> -2) (take j p).
Proof.
  induction p as [|sp p IH]; intros i k; cbn [findIdle_from]; [done|].
  destruct (Z.eqb_spec (playerIndex sp) (-2)) as [E|E].
  - intros [= <-]. exists 0%nat, sp. repeat split; [lia|done|constructor].
  - intros H. destruct (IH _ _ H) as (j & sp' & -> & Hl & Ho & Hf).
    exists (S j), sp'. repeat split; [lia|done|done|]. cbn. by constructor.
Qed.

Lemma getIdleCardSprite_exhausted (s : t) (p : list CardSprite) :
  spritePool s = Some p ->
  Forall (fun sp => playerIndex sp <> -2) p ->
  getIdleCardSprite env s
  = Return (length p)
      (set_spritePool (Some (p ++ [freshCardSprite env (length p)]))
         (set_cardSpritePoolSize (cardSpritePoolSize s + 1) s)).
Proof.
  intros Hp Hf. unfold getIdleCardSprite. rewrite Hp. cbn [from_option].
  unfold findIdle. rewrite (proj2 (findIdle_from_None p 0) Hf).
  unfold createCardSprite, pushSprite, getPool, ret, modify, bind; cbn.
  rewrite Hp. cbn. by rewrite Hp.
Qed.

Lemma getIdleCardSprite_found (s : t) (p : list CardSprite) (i : nat) :
  spritePool s = Some p -> findIdle p = Some i ->
  getIdleCardSprite env s = Return i s.
Proof. intros Hp Hf. unfold getIdleCardSprite. rewrite Hp. cbn. by rewrite Hf. Qed.

(** C10. [createCardSpritePool] on the constructed scene builds 116
    sprites, the value of [cardSpritePoolSize]. In every scene reachable
    from the created one the counter equals the length of the pool; an
    acquire on a pool without an unowned sprite returns the new last
    position and raises counter and length by one each; an acquire that
    finds an unowned sprite changes nothing; and no event shortens the
    pool. *)
Theorem pool_counter_matches_pool :
  (exists p, createCardSpritePool env constructor
             = Return tt (set_spritePool (Some p) constructor) /\
             length p = 116%nat /\ cardSpritePoolSize constructor = 116) /\
  forall s, reachable env s ->
    exists p, spritePool s = Some p /\
      cardSpritePoolSize s = Z.of_nat (length p) /\
      (Forall (fun sp => playerIndex sp <> -2) p ->
       exists s' sp, getIdleCardSprite env s = Return (length p) s' /\
         cardSpritePoolSize s' = cardSpritePoolSize s + 1 /\
         spritePool s' = Some (p ++ [sp]) /\
         cardSpritePoolSize s' = Z.of_nat (length (p ++ [sp]))) /\
      (forall i, findIdle p = Some i -> getIdleCardSprite env s = Return i s) /\
      (forall op, (length p <= poolLen (exec env op s))%nat).
Proof.
  split.
  - destruct (createCardSpritePool_spec constructor) as (p & E & Hl & _).
    exists p. by repeat split.
  - intros s Hr. destruct (reachable_invariant s Hr) as (_ & p & Hp & Hs).
    exists p. split; [done|]. split; [done|]. split; [|split].
    + intros Hf. eexists _, _. split; [by apply (getIdleCardSprite_exhausted s p)|].
      cbn. repeat split; try done. rewrite length_app. cbn. lia.
    + intros i Hi. by apply (getIdleCardSprite_found s p).
    + intros op. destruct (exec_keeps_pool op s) as [_ Hl]; [by exists p|].
      unfold poolLen in Hl at 1. by rewrite Hp in Hl.
Qed.

Lemma isBusy_spelled (s : t) :
  isBusy s = (0 <? Scene_Base._fadingTimer (base s))
             || negb (animationCount s =? 0) || playerPhase s.
Proof. done. Qed.

Lemma isBusy_iff (s : t) :
  0 <= Scene_Base._fadingTimer (base s) ->
  isBusy s = true <->
  Scene_Base._fadingTimer (base s) <> 0 \/ animationCount s <> 0 \/ playerPhase s = true.
Proof.
  intros Ht. rewrite isBusy_spelled.
  destruct (Z.ltb_spec 0 (Scene_Base._fadingTimer (base s)));
    destruct (Z.eqb_spec (animationCount s) 0);
    destruct (playerPhase s); cbn; split; auto; try lia;
    intros [?|[?|?]]; (done || lia).
Qed.

Lemma addDiscardCard_run (s : t) (card : nat) (pid : Z) (cd : Card) (i : nat)
    (p : list CardSprite) :
  cards s !! card = Some cd -> sprite cd = Some i -> spritePool s = Some p ->
  addDiscardCard env card pid s
  = Return tt
      (mk (base s) (cardSpritePoolSize s) (animationCount s + 1) (playerPhase s)
          (Some (alter (fun x =>
                   sp_moveto
                     (r_x (discardPile env) + r_width (discardPile env) / 2)
                     (r_y (discardPile env) + r_height (discardPile env) / 2)
                     (DiscardDone card) (sp_setShown true x)) i p))
          (players s) (cards s) (timers s)).
Proof.
  intros Hc Hs Hp.
  unfold addDiscardCard, spriteOf, getCard, updSprite, addAnimationCount,
    ret, modify, bind.
  rewrite Hc, Hs. cbn. rewrite Hp. cbn.
  by rewrite list_alter_alter_eq.
Qed.
Lemma arrive_discard_run (s : t) (card : nat) (cd : Card) (i : nat)
    (p : list CardSprite) (sp : CardSprite) (h : Handle) :
  cards s !! card = Some cd -> sprite cd = Some i -> spritePool s = Some p ->
  p !! i = Some sp -> motion sp = Some h -> onArrive h = DiscardDone card ->
  arrive env i s
  = Return tt
      (mk (base s) (cardSpritePoolSize s) (animationCount s + -1) (playerPhase s)
          (Some (alter (fun x =>
                   sp_setPOS (r_width (discardPile env) / 2)
                             (r_height (discardPile env) / 2)
                     (sp_setParent OnDiscard
                        (sp_setMotion None
                           (sp_setPOS (target_x h) (target_y h) x)))) i p))
          (players s) (cards s) (timers s)).
Proof.
  intros Hc Hs Hp Hi Hm Hcb.
  unfold arrive, getSprite, getPool, bind at 1 2. rewrite Hp, Hi. cbn [ret]. rewrite Hm.
  unfold runCallback. rewrite Hcb.
  unfold spriteOf, getCard, updSprite, addAnimationCount, ret, modify, bind.
  repeat (progress (cbn; rewrite ?Hc, ?Hs, ?Hp)).
  by rewrite !list_alter_alter_eq.
Qed.

Lemma arrive_nothing (s : t) (i : nat) (p : list CardSprite) (sp : CardSprite) :
  spritePool s = Some p -> p !! i = Some sp -> motion sp = None ->
  arrive env i s = Return tt s.
Proof.
  intros Hp Hi Hm. unfold arrive, getSprite, getPool, bind. rewrite Hp, Hi. cbn [ret].
  by rewrite Hm.
Qed.

(** C2, as amended. In every scene, [isBusy] answers [true] exactly when
    the fade timer is positive, or [animationCount] is not [0], or
    [playerPhase] is set. From a counter of [0], the animation that
    [addDiscardCard] starts for a card shown by a pool sprite takes the
    counter to [1] and [isBusy] to [true]; when it ends, its callback
    takes the counter back to [0], [isBusy] is what the fade and the
    player phase alone say, and the handle is gone, so that a second end
    of the same animation changes nothing. In a scene reachable from the
    created one with fade durations that are not negative the timer is
    never negative, and positive is the same as not [0]. *)
Theorem isBusy_follows_play_animation (s : t) :
  (isBusy s = true <->
     0 < Scene_Base._fadingTimer (base s) \/ animationCount s <> 0
     \/ playerPhase s = true) /\
  (forall (card : nat) (pid : Z) (cd : Card) (i : nat) (p : list CardSprite),
    animationCount s = 0 ->
    cards s !! card = Some cd -> sprite cd = Some i ->
    spritePool s = Some p -> (i < length p)%nat ->
    exists s1 s2,
      addDiscardCard env card pid s = Return tt s1 /\
      animationCount s1 = 1 /\ isBusy s1 = true /\
      arrive env i s1 = Return tt s2 /\
      animationCount s2 = 0 /\
      isBusy s2 = Scene_Base.isBusy (base s) || playerPhase s /\
      arrive env i s2 = Return tt s2) /\
  (reachable env s ->
   (isBusy s = true <->
      Scene_Base._fadingTimer (base s) <> 0 \/ animationCount s <> 0
      \/ playerPhase s = true)).
Proof.
  split; [|split; [|intros Hr; apply isBusy_iff; by apply reachable_invariant]].
  { rewrite isBusy_spelled.
    destruct (Z.ltb_spec 0 (Scene_Base._fadingTimer (base s)));
      destruct (Z.eqb_spec (animationCount s) 0);
      destruct (playerPhase s); cbn; split; auto; try lia;
      intros [?|[?|?]]; (done || lia). }
  intros card pid cd i p Hn Hc Hs Hp Hi.
  destruct (lookup_lt_is_Some_2 p i Hi) as [sp Hsp].
  eexists _, _. split; [by apply (addDiscardCard_run s card pid cd i p)|].
  split; [cbn; lia|]. split.
  { rewrite isBusy_spelled. cbn. rewrite Hn. cbn. by rewrite orb_true_r. }
  split.
  { eapply arrive_discard_run; cbn; try done.
    - by rewrite list_lookup_alter_eq, Hsp.
    - done.
    - done. }
  split; [cbn; lia|]. split.
  { rewrite isBusy_spelled. cbn. rewrite Hn. cbn. by rewrite orb_false_r. }
  eapply arrive_nothing; cbn; [done| |].
  - by rewrite !list_lookup_alter_eq, Hsp.
  - done.
Qed.

(** *** Release of a sprite *)

Lemma sendCardToDeck_run (s : t) (pid : Z) (card : nat) (cd : Card) (i : nat)
    (p : list CardSprite) (hcs : Rect) :
  cards s !! card = Some cd -> sprite cd = Some i -> spritePool s = Some p ->
  at_Z (handCanvas env) pid = Some hcs ->
  sendCardToDeck env pid card s
  = Return tt
      (set_spritePool
         (Some (alter (fun x =>
                  sp_setPOS (fst (deckAnchor env)) (snd (deckAnchor env))
                    (sp_setShown false
                       (sp_removeFrom (OnHand (Z.to_nat pid))
                          (sp_setOwner (-2) x)))) i p)) s).
Proof.
  intros Hc Hs Hp Hh.
  unfold sendCardToDeck, spriteOf, getCard, getHandCanvas, updSprite, ret, modify, bind.
  rewrite Hc, Hs. cbn. rewrite Hh. cbn. rewrite Hp. cbn.
  rewrite !list_alter_alter_eq. by destruct s.
Qed.

Lemma sp_removeFrom_fields c sp :
  index (sp_removeFrom c sp) = index sp /\
  handIndex (sp_removeFrom c sp) = handIndex sp /\
  playerIndex (sp_removeFrom c sp) = playerIndex sp /\
  shown (sp_removeFrom c sp) = shown sp /\
  pos_x (sp_removeFrom c sp) = pos_x sp /\
  pos_y (sp_removeFrom c sp) = pos_y sp /\
  motion (sp_removeFrom c sp) = motion sp.
Proof.
  unfold sp_removeFrom. destruct c, (parent sp); try done.
  by destruct (Nat.eqb seat seat0).
Qed.

(** When the seat has no hand canvas the release stops half way: the
    sprite is unowned already but neither hidden nor moved. *)
Lemma sendCardToDeck_without_canvas (s : t) (pid : Z) (card : nat) (cd : Card)
    (i : nat) (p : list CardSprite) :
  cards s !! card = Some cd -> sprite cd = Some i -> spritePool s = Some p ->
  at_Z (handCanvas env) pid = None ->
  sendCardToDeck env pid card s
  = Throw "TypeError" (set_spritePool (Some (alter (sp_setOwner (-2)) i p)) s).
Proof.
  intros Hc Hs Hp Hh.
  unfold sendCardToDeck, spriteOf, getCard, getHandCanvas, updSprite, ret, modify, bind.
  rewrite Hc, Hs. cbn. rewrite Hh. cbn. rewrite Hp. cbn. by destruct s.
Qed.


Lemma colorSymbol_None (c : Z) : colorSymbol env c = None <-> c ∉ knownColors env.
Proof.
  unfold colorSymbol, knownColors. rewrite !not_elem_of_cons.
  repeat match goal with
         | |- context [?a =? ?b] => destruct (Z.eqb_spec a b)
         end;
    (split; [try done; intros _; repeat split; try done; apply not_elem_of_nil
            |try done; intros; exfalso; tauto]).
Qed.

Lemma valueSymbol_unnamed (v : Z) : v ∉ namedValues env -> valueSymbol env v = pretty v.
Proof.
  unfold valueSymbol, namedValues. rewrite !not_elem_of_cons. intros H.
  repeat match goal with
         | |- context [?a =? ?b] => destruct (Z.eqb_spec a b)
         end; try done; exfalso; tauto.
Qed.

Lemma getCardImage_bad_color (cd : Card) (s : t) :
  color cd ∉ knownColors env ->
  getCardImage env cd s = Throw ("Invalid card color: " +:+ pretty (color cd)) s.
Proof.
  intros H. unfold getCardImage. by rewrite (proj2 (colorSymbol_None _) H).
Qed.

Lemma getCardImage_good_color (cd : Card) (s : t) :
  color cd ∈ knownColors env ->
  exists img, getCardImage env cd s = Return img s.
Proof.
  intros H. unfold getCardImage.
  destruct (colorSymbol env (color cd)) eqn:E.
  - eexists. reflexivity.
  - apply colorSymbol_None in E. done.
Qed.

Lemma getIdleCardSprite_returns (s : t) (p : list CardSprite) :
  spritePool s = Some p ->
  exists i s', getIdleCardSprite env s = Return i s' /\ cards s' = cards s /\
               animationCount s' = animationCount s.
Proof.
  intros Hp. destruct (findIdle p) as [i|] eqn:E.
  - exists i, s. by rewrite (getIdleCardSprite_found s p i Hp E).
  - eexists _, _. rewrite (getIdleCardSprite_exhausted s p Hp).
    + split; [done|]. by cbn.
    + by apply (findIdle_from_None p 0%nat).
Qed.

Lemma onCardPlay_bad_color (s : t) (card : nat) (cd : Card) (p : list CardSprite) :
  cards s !! card = Some cd -> spritePool s = Some p ->
  color cd ∉ knownColors env ->
  exists s', onCardPlay env (-1) card s
             = Throw ("Invalid card color: " +:+ pretty (color cd)) s' /\
             animationCount s' = animationCount s.
Proof.
  intros Hc Hp Hbad.
  destruct (getIdleCardSprite_returns s p Hp) as (i & s1 & E & Hc1 & Ha1).
  unfold onCardPlay. cbn [Z.eqb Z.opp Pos.eqb].
  unfold bind at 1 2 3. rewrite E.
  unfold updSprite, getCard, modify, bind. cbn. rewrite Hc1, Hc.
  rewrite getCardImage_bad_color by done.
  eexists. split; [done|]. by cbn.
Qed.

(** C9, as amended. [getCardImage] on a card whose colour is none of the
    five of [Color] throws, leaving the scene as it was, and the throw
    goes through [onCardPlay] to its caller. On a card of a known colour
    whose value is none of the nine named ones it returns: the value is
    spelled out after the colour and the entry of [Graphics] under that
    symbol is the result. *)
Theorem getCardImage_raises_on_color_only (cd : Card) (s : t) :
  (color cd ∉ knownColors env ->
     getCardImage env cd s = Throw ("Invalid card color: " +:+ pretty (color cd)) s /\
     forall (card : nat) (p : list CardSprite),
       cards s !! card = Some cd -> spritePool s = Some p ->
       exists s', onCardPlay env (-1) card s
                  = Throw ("Invalid card color: " +:+ pretty (color cd)) s') /\
  (color cd ∈ knownColors env ->
     exists csym, colorSymbol env (color cd) = Some csym /\
       (value cd ∉ namedValues env ->
        getCardImage env cd s
        = Return (Graphics_at env
                    (if (9 <? value cd) && (0 <? numID cd)
                     then (csym +:+ pretty (value cd)) +:+ "_" +:+ pretty (numID cd + 1)
                     else csym +:+ pretty (value cd))) s)).
Proof.
  split.
  - intros H. split; [by apply getCardImage_bad_color|].
    intros card p Hc Hp.
    destruct (onCardPlay_bad_color s card cd p Hc Hp H) as (s' & E & _). eauto.
  - intros H. destruct (colorSymbol env (color cd)) as [csym|] eqn:E.
    + exists csym. split; [done|]. intros Hv.
      unfold getCardImage. rewrite E, (valueSymbol_unnamed _ Hv).
      by destruct ((9 <? value cd) && (0 <? numID cd)).
    + apply colorSymbol_None in E. done.
Qed.


(** *** Hand layout *)

Lemma canvasWidth_span index hcs : canvasWidth index hcs = canvasSpan index hcs.
Proof. unfold canvasWidth, canvasSpan. by rewrite land_1_even. Qed.

Lemma handTarget_along (index : Z) (hcs : Rect) (n i : nat) :
  alongAxis index (handTarget env index hcs n i)
  = (base_pos env index hcs n
     + CardRectReg_width env * stackPortion env index hcs n * inject_Z (Z.of_nat i)
     + CardRectReg_width env / 2)%Q.
Proof.
  unfold alongAxis, handTarget. rewrite land_1_even, rem_4_even.
  by destruct (Z.even index).
Qed.

Lemma arrangeLoop_run (index : Z) (hcs : Rect) (n : nat) (rest : list nat) :
  forall (i : nat) (js : list nat) (s : t) (p : list CardSprite),
  spritePool s = Some p ->
  Forall2 (boundTo s) rest js ->
  arrangeLoop env index hcs n i rest s
  = Return tt
      (mk (base s) (cardSpritePoolSize s)
          (animationCount s + Z.of_nat (length rest)) (playerPhase s)
          (Some (arrangePool env index hcs n i js p))
          (players s) (cards s) (timers s)).
Proof.
  induction rest as [|c rest IH]; intros i js s p Hp Hb.
  - apply Forall2_nil_inv_l in Hb as ->. cbn. rewrite Z.add_0_r, <- Hp. by destruct s.
  - apply Forall2_cons_inv_l in Hb as (j & js' & (cd & Hc & Hs) & Hb & ->).
    cbn [arrangeLoop arrangePool].
    unfold spriteOf, getCard, updSprite, addAnimationCount, ret, modify, bind at 1 2 3 4 5 6.
    rewrite Hc, Hs. cbn [spritePool set_spritePool set_animationCount].
    rewrite Hp. cbn [fmap option_fmap option_map].
    erewrite (IH (S i) js'); cbn; [| done | exact Hb].
    rewrite !list_alter_alter_eq. f_equal. f_equal; first [reflexivity|cbn [length]; lia].
Qed.

Lemma arrangePool_other (index : Z) (hcs : Rect) (n : nat) (js : list nat) :
  forall (i : nat) (p : list CardSprite) (j : nat),
  j ∉ js -> arrangePool env index hcs n i js p !! j = p !! j.
Proof.
  induction js as [|j' js IH]; intros i p j Hj; [done|].
  apply not_elem_of_cons in Hj as [Hne Hj]. cbn [arrangePool].
  rewrite IH by done. by rewrite list_lookup_alter_ne.
Qed.

Lemma arrangePool_lookup (index : Z) (hcs : Rect) (n : nat) (js : list nat) :
  forall (i : nat) (p : list CardSprite) (k j : nat),
  NoDup js -> js !! k = Some j ->
  arrangePool env index hcs n i js p !! j
  = arranged env index hcs n (i + k) <$> p !! j.
Proof.
  induction js as [|j' js IH]; intros i p k j Hnd Hk; [done|].
  apply NoDup_cons in Hnd as [Hj' Hnd]. cbn [arrangePool].
  destruct k as [|k]; cbn in Hk.
  - injection Hk as ->. rewrite arrangePool_other by done.
    by rewrite list_lookup_alter_eq, Nat.add_0_r.
  - rewrite (IH (S i) _ k j) by done.
    rewrite list_lookup_alter_ne.
    + by replace (S i + k)%nat with (i + S k)%nat by lia.
    + intros ->. apply Hj'. by eapply list_elem_of_lookup_2.
Qed.

Lemma is_round3_comp (x y r : Q) : (x == y)%Q -> is_round3 x r -> is_round3 y r.
Proof. intros E (k & Hk & Hd). exists k. split; [done|]. by rewrite <- E. Qed.

Lemma toFixed3_2 : toFixed3 2 = (2000 # 1000)%Q.
Proof. reflexivity. Qed.

Lemma stackQuotient_span (index : Z) (hcs : Rect) (n : nat) :
  stackQuotient env index hcs n
  = fdiv (fsub (canvasSpan index hcs) (CardRectReg_width env))
         (fmul (CardRectReg_width env) (inject_Z (Z.of_nat n))).
Proof.
  unfold stackQuotient. rewrite canvasWidth_span. unfold fmul.
  by rewrite (fl64_comp _ _ (Qmult_comm _ _)).
Qed.

(** C4, as amended. A seat with a hand canvas holds [cardCount >= 1]
    cards, each shown by a pool sprite of its own, and the card width is
    not [0]. Then [arrangeHandCards] returns, and the sprite of card [i]
    is in flight to a point whose coordinate along the stacking axis is
    [basePosition + cardSize * overlapFraction * i + cardSize / 2], where
    [overlapFraction] is the quotient
    [(canvasSpan - cardSize) / (cardSize * cardCount)] as double
    arithmetic computes it, rounded to three decimals with a tie going
    away from zero,
    [totalStackWidth = cardSize + cardSize * overlapFraction * (cardCount - 1)]
    and [basePosition = (canvasSpan - totalStackWidth) / 2]. When the
    difference and the product are exact, as they are for whole numbers
    of pixels, the computed quotient is within one part in [2^53] of the
    exact one. With a card size of 50, a span of 350 and three cards the
    quotient is 2 and the three values are 2, 250 and 50. *)
Theorem hand_layout_places_cards (s : t) (index : Z) (pl : Player) (hcs : Rect)
    (p : list CardSprite) (js : list nat) :
  at_Z (players s) index = Some pl ->
  at_Z (handCanvas env) index = Some hcs ->
  (1 <= length (hand pl))%nat ->
  ~ (CardRectReg_width env == 0)%Q ->
  spritePool s = Some p ->
  Forall2 (boundTo s) (hand pl) js -> NoDup js ->
  Forall (fun j => (j < length p)%nat) js ->
  let cardCount := length (hand pl) in
  let cardSize := CardRectReg_width env in
  let span := canvasSpan index hcs in
  let quotient :=
    fdiv (fsub span cardSize) (fmul cardSize (inject_Z (Z.of_nat cardCount))) in
  let overlapFraction := stackPortion env index hcs cardCount in
  let totalStackWidth :=
    (cardSize + cardSize * overlapFraction * (inject_Z (Z.of_nat cardCount) - 1))%Q in
  let basePosition := ((span - totalStackWidth) / 2)%Q in
  (overlapFraction = toFixed3 quotient /\ is_round3 quotient overlapFraction) /\
  ((fsub span cardSize == span - cardSize)%Q ->
   (fmul cardSize (inject_Z (Z.of_nat cardCount))
    == cardSize * inject_Z (Z.of_nat cardCount))%Q ->
   let exact := ((span - cardSize) / (cardSize * inject_Z (Z.of_nat cardCount)))%Q in
   (2 ^ (-1022) <= Qabs exact)%Q ->
   (Qabs (quotient - exact) <= Qabs exact * 2 ^ (-53))%Q) /\
  totalWidth env index hcs cardCount = totalStackWidth /\
  base_pos env index hcs cardCount = basePosition /\
  (exists s', arrangeHandCards env index s = Return tt s' /\
     forall (i j : nat), js !! i = Some j ->
       exists sp' h, (spritePool s' ≫= (.!! j)) = Some sp' /\
         motion sp' = Some h /\
         (alongAxis index (target_x h, target_y h)
          == basePosition + cardSize * overlapFraction * inject_Z (Z.of_nat i)
             + cardSize / 2)%Q) /\
  ((cardSize == 50)%Q -> (span == 350)%Q -> cardCount = 3%nat ->
   (quotient == 2)%Q /\
   (overlapFraction == 2)%Q /\ (totalStackWidth == 250)%Q /\ (basePosition == 50)%Q).
Proof.
  intros Hpl Hh Hn Hw Hp Hb Hnd Hlt cardCount cardSize span quotient overlapFraction
    totalStackWidth basePosition.
  assert (Htw : totalWidth env index hcs cardCount = totalStackWidth) by done.
  assert (Hbp : base_pos env index hcs cardCount = basePosition).
  { unfold base_pos, basePosition, span. by rewrite canvasWidth_span, Htw. }
  assert (Hq : overlapFraction = toFixed3 quotient).
  { unfold overlapFraction, stackPortion. by rewrite stackQuotient_span. }
  split; [|split; [|split; [done|split; [done|split]]]].
  - split; [exact Hq|]. rewrite Hq. apply toFixed3_rounds.
  - intros Es Em exact Hx. unfold quotient, fdiv.
    rewrite (fl64_comp _ exact); [by apply fl64_close|].
    unfold exact. by rewrite Es, Em.
  - eexists. split.
    + unfold arrangeHandCards, get, bind at 1. rewrite Hpl.
      unfold getHandCanvas. rewrite Hh. unfold ret, modify, bind.
      rewrite (arrangeLoop_run index hcs _ _ 0%nat js s p Hp Hb). reflexivity.
    + intros i j Hj. cbn [modify spritePool set_players mbind option_bind].
      rewrite (arrangePool_lookup index hcs _ js 0%nat p i j Hnd Hj).
      destruct (lookup_lt_is_Some_2 p j) as [sp Hsp].
      { apply (proj1 (Forall_lookup _ _) Hlt i j Hj). }
      rewrite Hsp. eexists _, _. split; [reflexivity|]. split; [reflexivity|].
      cbn [target_x target_y Nat.add].
      rewrite <- surjective_pairing, handTarget_along.
      unfold basePosition, totalStackWidth, overlapFraction, span, cardSize, cardCount.
      rewrite <- canvasWidth_span. reflexivity.
  - intros Hcs Hsp Hc3.
    assert (Hq2 : quotient = 2%Q).
    { unfold quotient, fdiv, fsub, fmul. rewrite Hc3.
      rewrite (fl64_comp (span - cardSize) 300) by (by rewrite Hcs, Hsp).
      rewrite (fl64_comp (cardSize * inject_Z (Z.of_nat 3)) 150) by (by rewrite Hcs).
      vm_compute. reflexivity. }
    assert (Ho : (overlapFraction == 2)%Q).
    { rewrite Hq, Hq2. by rewrite toFixed3_2. }
    assert (Ht : (totalStackWidth == 250)%Q).
    { unfold totalStackWidth. rewrite Ho, Hcs, Hc3. reflexivity. }
    split; [by rewrite Hq2|]. split; [done|]. split; [done|].
    unfold basePosition. rewrite Ht, Hsp. reflexivity.
Qed.


End Game.

(** ** The properties at sample scenes *)

Section AtSamples.

Import Scene_Game Samples.

(** The gameplay properties, applied to the sample scenes. *)
Lemma isBusy_follows_play_animation_witness :
  animationCount playedScene = 0 /\
  exists s1 s2,
    addDiscardCard sampleEnv 0 (-1) playedScene = Return tt s1 /\
    animationCount s1 = 1 /\ isBusy s1 = true /\
    arrive sampleEnv 0 s1 = Return tt s2 /\
    animationCount s2 = 0 /\ isBusy s2 = false.
Proof.
  assert (Hn : animationCount playedScene = 0) by (vm_compute; reflexivity).
  split; [exact Hn|].
  destruct (proj1 (proj2 (isBusy_follows_play_animation sampleEnv playedScene))
              0%nat (-1) (mkCard 0 5 0 (Some 0%nat)) 0%nat
              (from_option id [] (spritePool playedScene)) Hn)
    as (s1 & s2 & H1 & H2 & H3 & H4 & H5 & H6 & _);
    [vm_compute; reflexivity | reflexivity | vm_compute; reflexivity
    | vm_compute; lia |].
  exists s1, s2.
  split; [exact H1|]. split; [exact H2|]. split; [exact H3|].
  split; [exact H4|]. split; [exact H5|].
  rewrite H6. vm_compute. reflexivity.
Defined.

(** C2 (counterexample). After [startFadeOut(-5)] on the created scene
    the fade timer is [-5], which is not [0], and [isBusy] answers
    [false]: the test is [_fadingTimer > 0]. *)
Lemma isBusy_false_at_negative_timer :
  let s := exec sampleEnv (OpStartFadeOut (Some (-5))) (created sampleEnv) in
  Scene_Base._fadingTimer (base s) = -5 /\
  isBusy s = false /\
  ~ (isBusy s = true <->
       Scene_Base._fadingTimer (base s) <> 0 \/ animationCount s <> 0
       \/ playerPhase s = true).
Proof.
  cbn zeta.
  assert (Ht : Scene_Base._fadingTimer
                 (base (exec sampleEnv (OpStartFadeOut (Some (-5))) (created sampleEnv)))
               = -5) by (vm_compute; reflexivity).
  assert (Hb : isBusy (exec sampleEnv (OpStartFadeOut (Some (-5))) (created sampleEnv))
               = false) by (vm_compute; reflexivity).
  split; [exact Ht|]. split; [exact Hb|].
  intros [_ H]. rewrite Hb in H. discriminate H. left. rewrite Ht. discriminate.
Qed.

Lemma pool_counter_matches_pool_witness :
  exists p, spritePool (created sampleEnv) = Some p /\
            cardSpritePoolSize (created sampleEnv) = Z.of_nat (length p).
Proof.
  destruct (proj2 (pool_counter_matches_pool sampleEnv) (created sampleEnv)
              (reachable_created sampleEnv)) as (p & Hp & Hs & _).
  exists p. split; assumption.
Defined.


(** C9 (counterexample). A red card of the value 99, which is no named
    value and no digit, gets the symbol [Red99]: [getCardImage] returns
    what [Graphics] holds under it, here nothing, and does not throw. *)
Lemma getCardImage_unknown_value_returns :
  (99 ∉ namedValues sampleEnv) /\ ~ (0 <= 99 <= 9) /\
  colorSymbol sampleEnv (color red99) = Some "Red" /\
  valueSymbol sampleEnv (value red99) = "99" /\
  getCardImage sampleEnv red99 constructor = Return None constructor.
Proof.
  split; [|split; [lia|vm_compute; repeat split; reflexivity]].
  unfold namedValues. rewrite !not_elem_of_cons.
  repeat split; try discriminate. apply not_elem_of_nil.
Qed.

Lemma getCardImage_raises_on_color_only_witness :
  getCardImage sampleEnv colour7 constructor
  = Throw "Invalid card color: 7" constructor.
Proof.
  apply (getCardImage_raises_on_color_only sampleEnv colour7 constructor).
  unfold knownColors. rewrite !not_elem_of_cons.
  repeat split; try discriminate. apply not_elem_of_nil.
Defined.

Lemma reachable_run (ops : list Op) (s : t) :
  reachable sampleEnv s -> Forall (validOp) ops ->
  reachable sampleEnv (foldl (fun s op => exec sampleEnv op s) s ops).
Proof.
  revert s. induction ops as [|op ops IH]; intros s Hs Hv; [done|].
  cbn [foldl]. apply IH; [|by eapply Forall_inv_tail].
  apply reachable_exec; [done|by eapply Forall_inv].
Qed.

Lemma drawnScene_reachable : reachable sampleEnv drawnScene.
Proof.
  apply reachable_run; [apply reachable_created|]. repeat constructor.
Qed.

Lemma halfDrawnScene_reachable : reachable sampleEnv halfDrawnScene.
Proof.
  apply reachable_run; [apply reachable_created|]. repeat constructor.
Qed.

Lemma first_three_below (n : nat) :
  (3 <= n)%nat -> Forall (fun j => (j < n)%nat) [0; 1; 2]%nat.
Proof. intros H. repeat constructor; lia. Qed.

Lemma hand_layout_places_cards_witness :
  reachable sampleEnv drawnScene /\
  (stackPortion sampleEnv 0 (mkRect 225 375 350 225) 3 == 2)%Q /\
  (totalWidth sampleEnv 0 (mkRect 225 375 350 225) 3 == 250)%Q /\
  (base_pos sampleEnv 0 (mkRect 225 375 350 225) 3 == 50)%Q /\
  returned (arrangeHandCards sampleEnv 0 drawnScene) = true.
Proof.
  split; [exact drawnScene_reachable|].
  assert (Hw : ~ (CardRectReg_width sampleEnv == 0)%Q) by discriminate.
  assert (Hnd : NoDup [0; 1; 2]%nat).
  { repeat constructor; rewrite ?not_elem_of_cons; repeat split;
      try discriminate; apply not_elem_of_nil. }
  pose (p := from_option id [] (spritePool drawnScene)).
  assert (Hp : spritePool drawnScene = Some p) by (vm_compute; reflexivity).
  assert (Hl : length p = 116%nat) by (vm_compute; reflexivity).
  clearbody p.
  assert (Hb : Forall2 (boundTo drawnScene) [0; 1; 2]%nat [0; 1; 2]%nat).
  { repeat constructor.
    - exists (mkCard 0 5 0 (Some 0%nat)). split; [vm_compute|]; reflexivity.
    - exists (mkCard 1 7 0 (Some 1%nat)). split; [vm_compute|]; reflexivity.
    - exists (mkCard 2 10 0 (Some 2%nat)). split; [vm_compute|]; reflexivity. }
  assert (Hlt : Forall (fun j => (j < length p)%nat) [0; 1; 2]%nat).
  { apply first_three_below. rewrite Hl. by apply Nat.leb_le. }
  assert (Hpl : at_Z (players drawnScene) 0 = Some (mkPlayer [0; 1; 2]%nat [0; 1; 2]%nat))
    by (vm_compute; reflexivity).
  destruct (hand_layout_places_cards sampleEnv drawnScene 0
              (mkPlayer [0; 1; 2]%nat [0; 1; 2]%nat) (mkRect 225 375 350 225)
              p [0; 1; 2]%nat Hpl eq_refl (le_S _ _ (le_S _ _ (le_n 1))) Hw
              Hp Hb Hnd Hlt)
    as (_ & _ & Htw & Hbp & (s' & E & _) & Hscn).
  destruct Hscn as (_ & Ho & Ht & Hq); [reflexivity..|].
  cbn [length hand] in Htw, Hbp, Ho, Ht, Hq.
  rewrite Htw, Hbp, E. repeat split; assumption.
Defined.

(** With a span of 350, cards 160 wide and five cards, the first card
    goes to 99.16 and the last to 250.84. *)
Lemma wide_hand_targets :
  (alongAxis 0 (handTarget wideCardEnv 0 (mkRect 225 375 350 225) 5 0) == 9916 # 100)%Q /\
  (alongAxis 0 (handTarget wideCardEnv 0 (mkRect 225 375 350 225) 5 4) == 25084 # 100)%Q.
Proof. split; vm_compute; reflexivity. Qed.

(** C4 (counterexample). Seat [0] holds the cards [0] and [1], and has a
    hand canvas; the draw of card [0] is in flight and card [1] has no
    sprite yet. [arrangeHandCards(0)] throws at [card.sprite.setPOS] for
    card [1] and places no second card. And with a span of 350, cards 160
    wide and five cards the exact quotient is the tie 0.2375, which
    [toFixed(3)] would take to 0.238; the code gets 0.237, the double
    nearest to 0.2375 lying below it. *)
Lemma hand_layout_unbound_card :
  reachable sampleEnv halfDrawnScene /\
  at_Z (players halfDrawnScene) 0 = Some (mkPlayer [0; 1]%nat []) /\
  at_Z (handCanvas sampleEnv) 0 = Some (mkRect 225 375 350 225) /\
  boundTo halfDrawnScene 0%nat 0%nat /\
  (forall j, ~ boundTo halfDrawnScene 1%nat j) /\
  arrangeHandCards sampleEnv 0 halfDrawnScene
  = Throw "TypeError" (final (arrangeHandCards sampleEnv 0 halfDrawnScene)) /\
  (~ exists s', arrangeHandCards sampleEnv 0 halfDrawnScene = Return tt s') /\
  stackPortion wideCardEnv 0 (mkRect 225 375 350 225) 5 = (237 # 1000)%Q /\
  toFixed3 ((350 - 160) / (160 * 5)) = (238 # 1000)%Q.
Proof.
  assert (E : arrangeHandCards sampleEnv 0 halfDrawnScene
              = Throw "TypeError" (final (arrangeHandCards sampleEnv 0 halfDrawnScene)))
    by (vm_compute; reflexivity).
  split; [exact halfDrawnScene_reachable|].
  split; [vm_compute; reflexivity|]. split; [reflexivity|].
  split; [exists (mkCard 0 5 0 (Some 0%nat)); split; [vm_compute|]; reflexivity|].
  split.
  { intros j (cd & Hc & Hs).
    assert (Hc1 : cards halfDrawnScene !! 1%nat = Some (mkCard 1 7 0 None))
      by (vm_compute; reflexivity).
    rewrite Hc1 in Hc. injection Hc as <-. discriminate Hs. }
  split; [exact E|]. split.
  { intros [s' H]. rewrite E in H. discriminate H. }
  split; vm_compute; reflexivity.
Qed.

End AtSamples.

(** * Further properties *)

(** ** Removing one window *)

Section MoreWindows.

Import Scene_Base.

Lemma indexOf_from_absent (x : ref) (l : list ref) : forall i,
  x ∉ l -> indexOf_from i x l = -1.
Proof.
  induction l as [|y l IH]; intros i Hx; [done|].
  apply not_elem_of_cons in Hx as [Hne Hx]. cbn.
  destruct (Nat.eqb_spec y x); [congruence|]. by apply IH.
Qed.

Lemma indexOf_from_first (x : ref) (l : list ref) : forall (i : Z) (k : nat),
  l !! k = Some x -> (forall j, (j < k)%nat -> l !! j <> Some x) ->
  indexOf_from i x l = i + Z.of_nat k.
Proof.
  induction l as [|y l IH]; intros i k Hk Hfirst; [done|]. cbn.
  destruct (Nat.eqb_spec y x) as [->|Hne].
  - destruct k as [|k]; [lia|]. exfalso. by apply (Hfirst 0%nat); [lia|].
  - destruct k as [|k]; [cbn in Hk; congruence|].
    rewrite (IH (i + 1) k); [lia|done|].
    intros j Hj. apply (Hfirst (S j)). lia.
Qed.

(** X1. [removeWindow] never throws. For a window the scene does not own
    it changes nothing but the console, which gets one error line. For an
    owned window it takes the first occurrence out of [_windows], clears
    the window (which disposes it) and writes nothing to the console;
    when the scene owns no window twice, removing the same window again
    is the first case: it only logs the error. *)
Theorem removeWindow_contract (s : t) (win : ref) :
  (win ∉ _windows s ->
     returned (removeWindow win s) = true /\
     _windows (final (removeWindow win s)) = _windows s /\
     store (final (removeWindow win s)) = store s /\
     console (final (removeWindow win s))
     = console s ++ ["Trying to dispose the window not rendered yet"]) /\
  (forall k : nat,
     _windows s !! k = Some win ->
     (forall j, (j < k)%nat -> _windows s !! j <> Some win) ->
     returned (removeWindow win s) = true /\
     _windows (final (removeWindow win s)) = delete k (_windows s) /\
     (is_Some (store s !! win) ->
      w_isDisposed (store (final (removeWindow win s))) win = true) /\
     console (final (removeWindow win s)) = console s /\
     (NoDup (_windows s) ->
      console (final (removeWindow win (final (removeWindow win s))))
      = console s ++ ["Trying to dispose the window not rendered yet"])).
Proof.
  split.
  - intros Hx. unfold removeWindow, indexOf. rewrite indexOf_from_absent by done.
    by cbn.
  - intros k Hk Hfirst.
    assert (E : removeWindow win s
                = Return tt (set_windows (delete k (_windows s))
                               (set_store (call w_clear win (store s)) s))).
    { unfold removeWindow, indexOf. rewrite (indexOf_from_first win _ 0 k) by done.
      unfold disposeWindowAt. destruct (Z.leb_spec (0 + Z.of_nat k) (-1)); [lia|].
      replace (Z.to_nat (0 + Z.of_nat k)) with k by lia. by rewrite Hk. }
    rewrite E. cbn [returned final _windows store console set_windows set_store].
    split; [done|]. split; [done|]. split; [|split; [done|]].
    + intros [w Hw]. unfold w_isDisposed, call. by rewrite lookup_alter_eq, Hw.
    + intros Hnd.
      assert (Hout : win ∉ delete k (_windows s)).
      { intros Hin. apply list_elem_of_lookup in Hin as [j Hj].
        destruct (decide (j < k)%nat) as [Hlt|Hge].
        - rewrite list_lookup_delete_lt in Hj by done.
          assert (j = k) by (eapply NoDup_lookup; eauto). lia.
        - rewrite list_lookup_delete_ge in Hj by lia.
          assert (S j = k) by (eapply NoDup_lookup; eauto). lia. }
      unfold removeWindow, indexOf. cbn [_windows set_windows set_store].
      rewrite indexOf_from_absent by done. by cbn.
Qed.

(** The scene of two windows: the second one is removed, a stranger is
    not. *)
Lemma removeWindow_contract_witness :
  _windows (final (removeWindow 1%nat Samples.twoWindows)) = [0%nat] /\
  console (final (removeWindow 7%nat Samples.twoWindows))
  = console Samples.twoWindows ++ ["Trying to dispose the window not rendered yet"].
Proof.
  split.
  - destruct (proj2 (removeWindow_contract Samples.twoWindows 1%nat) 1%nat)
      as (_ & H & _).
    + vm_compute. reflexivity.
    + intros [|j] Hj; [vm_compute; discriminate|lia].
    + exact H.
  - destruct (proj1 (removeWindow_contract Samples.twoWindows 7%nat))
      as (_ & _ & _ & H).
    + change (_windows Samples.twoWindows) with [0%nat; 1%nat].
      rewrite !not_elem_of_cons. repeat split; try discriminate. apply not_elem_of_nil.
    + exact H.
Defined.

End MoreWindows.

(** ** Children, pause and the length of a fade *)

Section MoreChildren.

Import Scene_Base.

Lemma update_body (o : option ref) (sp : ref) (h : Store) (j : ref) :
  (if negb (bool_decide (is_Some o))
      || negb (from_option w_isWindow false (h !! sp))
      || bool_decide (o = Some sp)
   then call w_update sp h else h) !! j
  = if decide (sp = j) then updateChild o sp <$> h !! sp else h !! j.
Proof.
  unfold updateChild.
  destruct (decide (sp = j)) as [<-|Hn];
    destruct (h !! sp) as [w|] eqn:E; cbn [from_option fmap option_fmap option_map];
    repeat match goal with |- context [if ?b then _ else _] => destruct b end;
    rewrite ?call_lookup, ?decide_True, ?decide_False, ?E by done; done.
Qed.

(** X2. [updateChildren] calls [update] at most once on a child and on
    nothing else. Without an overlay every child gets its call; while an
    overlay is up, a window other than the overlay is left exactly as it
    was. (The scene lists no child twice.) *)
Theorem updateChildren_isolation (s : t) (r : ref) (w : Widget) :
  NoDup (children s) -> store s !! r = Some w ->
  store (updateChildren s) !! r
  = Some (if decide (r ∈ children s) then updateChild (overlay s) r w else w) /\
  (r ∈ children s -> overlay s = None ->
   w_ticks <$> store (updateChildren s) !! r = Some (S (w_ticks w))) /\
  (r ∈ children s -> w_isWindow w = true -> is_Some (overlay s) ->
   overlay s <> Some r ->
   store (updateChildren s) !! r = Some w).
Proof.
  intros Hnd Hw.
  assert (E : store (updateChildren s) !! r
              = Some (if decide (r ∈ children s)
                      then updateChild (overlay s) r w else w)).
  { unfold updateChildren. cbn [store set_store]. unfold forEach.
    rewrite (foldl_pointwise (fun sp v => updateChild (overlay s) sp <$> v));
      [|intros; apply update_body|done].
    rewrite Hw. by destruct (decide (r ∈ children s)). }
  split; [done|]. rewrite E. split.
  - intros Hin Ho. rewrite decide_True by done. unfold updateChild. rewrite Ho.
    by cbn.
  - intros Hin Hwin [o Ho] Hne. rewrite decide_True by done. unfold updateChild.
    rewrite Hwin, Ho. cbn. rewrite bool_decide_false by congruence. done.
Qed.

Lemma sample_children_NoDup : NoDup (children Samples.stickyScene).
Proof.
  change (children Samples.stickyScene) with [0%nat; 1%nat].
  repeat constructor; rewrite ?not_elem_of_cons; repeat split;
    try discriminate; apply not_elem_of_nil.
Qed.

Lemma updateChildren_isolation_witness :
  w_ticks <$> store (updateChildren Samples.stickyScene) !! 0%nat = Some 1%nat.
Proof.
  destruct (updateChildren_isolation Samples.stickyScene 0%nat Samples.plainWindow
              sample_children_NoDup) as (_ & H & _).
  - vm_compute. reflexivity.
  - apply H; [|reflexivity]. change (children Samples.stickyScene) with [0%nat; 1%nat].
    apply list_elem_of_here.
Defined.

Lemma pause_body (sp : ref) (h : Store) (j : ref) :
  (let h1 := call (w_setPaused true) sp h in
   let h2 := if w_isActive h1 sp
             then call (w_setLastActiveState (w_isActive h1 sp)) sp h1 else h1 in
   call w_deactivate sp h2) !! j
  = if decide (sp = j) then pauseChild <$> h !! sp else h !! j.
Proof.
  cbn zeta. unfold w_isActive.
  rewrite (call_lookup (w_setPaused true) sp sp h), decide_True by done.
  destruct (h !! sp) as [w|] eqn:E; cbn [fmap option_fmap option_map from_option].
  - change (w_active (w_setPaused true w)) with (w_active w).
    unfold pauseChild.
    destruct (w_active w) eqn:Ea;
      rewrite !call_lookup; destruct (decide (sp = j)) as [<-|Hn];
      rewrite ?(decide_True (P := sp = sp)), ?E by done; done.
  - rewrite !call_lookup. destruct (decide (sp = j)) as [<-|Hn];
      by rewrite ?(decide_True (P := sp = sp)), ?E by done.
Qed.

Lemma resume_body (sp : ref) (h : Store) (j : ref) :
  (let h1 := call (w_setPaused false) sp h in
   if from_option w_lastActiveState false (h1 !! sp)
   then call w_activate sp h1 else h1) !! j
  = if decide (sp = j) then resumeChild <$> h !! sp else h !! j.
Proof.
  cbn zeta.
  rewrite (call_lookup (w_setPaused false) sp sp h), decide_True by done.
  destruct (h !! sp) as [w|] eqn:E; cbn [fmap option_fmap option_map from_option].
  - change (w_lastActiveState (w_setPaused false w)) with (w_lastActiveState w).
    unfold resumeChild.
    destruct (w_lastActiveState w) eqn:Ea;
      rewrite !call_lookup; destruct (decide (sp = j)) as [<-|Hn];
      rewrite ?(decide_True (P := sp = sp)), ?E by done; done.
  - rewrite !call_lookup. destruct (decide (sp = j)) as [<-|Hn];
      by rewrite ?(decide_True (P := sp = sp)), ?E by done.
Qed.

Lemma pause_lookup (s : t) (r : ref) :
  NoDup (children s) ->
  store (pause s) !! r
  = if decide (r ∈ children s) then pauseChild <$> store s !! r else store s !! r.
Proof.
  intros Hnd. unfold pause. cbn [store set_store]. unfold forEach.
  by rewrite (foldl_pointwise (fun _ v => pauseChild <$> v));
    [|intros; apply pause_body|].
Qed.

Lemma resume_lookup (s : t) (r : ref) :
  NoDup (children s) ->
  store (resume s) !! r
  = if decide (r ∈ children s) then resumeChild <$> store s !! r else store s !! r.
Proof.
  intros Hnd. unfold resume. cbn [store set_store]. unfold forEach.
  by rewrite (foldl_pointwise (fun _ v => resumeChild <$> v));
    [|intros; apply resume_body|].
Qed.

(** X3. [pause] leaves every child inactive. After [resume] a child is
    active when it was active before the pause or carried a set
    [lastActiveState] from earlier: [pause] records the state of an
    active child only, it does not reset the mark of an inactive one. A
    child that was active, or whose mark was unset, gets its state
    back. *)
Theorem pause_resume_round_trip (s : t) (r : ref) (w : Widget) :
  NoDup (children s) -> r ∈ children s -> store s !! r = Some w ->
  w_isActive (store (pause s)) r = false /\
  w_isActive (store (resume (pause s))) r = w_active w || w_lastActiveState w /\
  (w_active w = true \/ w_lastActiveState w = false ->
   w_isActive (store (resume (pause s))) r = w_active w).
Proof.
  intros Hnd Hin Hw.
  assert (Hp : store (pause s) !! r = Some (pauseChild w)).
  { by rewrite pause_lookup, decide_True, Hw. }
  assert (Hr : store (resume (pause s)) !! r = Some (resumeChild (pauseChild w))).
  { rewrite resume_lookup by done. cbn [children pause set_store].
    by rewrite decide_True, Hp. }
  unfold w_isActive. rewrite Hp, Hr. cbn [from_option].
  unfold resumeChild, pauseChild.
  destruct w as [a l aa iw v z oz dd p tk cn]. cbn.
  destruct a, l; cbn; repeat split; try done; intros [?|?]; done.
Qed.

Lemma pause_resume_round_trip_witness :
  w_isActive (store (pause Samples.stickyScene)) 0%nat = false /\
  w_isActive (store (resume (pause Samples.stickyScene))) 0%nat = true.
Proof.
  destruct (pause_resume_round_trip Samples.stickyScene 0%nat Samples.plainWindow
              sample_children_NoDup) as (H1 & _ & H3).
  - change (children Samples.stickyScene) with [0%nat; 1%nat]. apply list_elem_of_here.
  - vm_compute. reflexivity.
  - split; [exact H1|]. apply H3. left. reflexivity.
Defined.

Lemma timer_countdown (s : t) (j : nat) :
  0 <= _fadingTimer s ->
  _fadingTimer (Nat.iter j update s) = Z.max 0 (_fadingTimer s - Z.of_nat j).
Proof.
  intros Hs. induction j as [|j IH]; [cbn; lia|].
  rewrite Nat.iter_succ.
  set (sj := Nat.iter j update s) in *.
  destruct (update_fade_fields sj) as (-> & _).
  destruct (Z.lt_ge_cases 0 (_fadingTimer sj)) as [Hpos|Hz].
  - destruct (updateFading_tick sj Hpos) as (-> & _). lia.
  - unfold updateFading. destruct (Z.leb_spec (_fadingTimer sj) 0); lia.
Qed.

(** X4. A scene is busy for exactly as many frames as the fade lasts:
    after [startFadeIn] or [startFadeOut] with a duration [d] that is not
    negative ([d] missing or [0] counts as 30), [isBusy] holds after [j]
    frames exactly when [j < d]; after [preTerminate] exactly when
    [j < 30], and after [fadeOutAll] exactly when [j < 48]. *)
Theorem busy_exactly_for_duration (s : t) (d : option Z) (k : FadeKind) (j : nat) :
  (0 <= js_or d 30 ->
   isBusy (Nat.iter j update (startFade k d s)) = (Z.of_nat j <? js_or d 30)) /\
  isBusy (Nat.iter j update (preTerminate s)) = (Z.of_nat j <? 30) /\
  isBusy (Nat.iter j update (fadeOutAll s)) = (Z.of_nat j <? 48).
Proof.
  assert (G : forall s0 : t, 0 <= _fadingTimer s0 ->
            isBusy (Nat.iter j update s0) = (Z.of_nat j <? _fadingTimer s0)).
  { intros s0 H0. unfold isBusy. rewrite timer_countdown by done.
    destruct (Z.ltb_spec (Z.of_nat j) (_fadingTimer s0));
      destruct (Z.ltb_spec 0 (Z.max 0 (_fadingTimer s0 - Z.of_nat j))); lia. }
  assert (Hk : _fadingTimer (startFade k d s) = js_or d 30) by (by destruct k).
  assert (Hp : _fadingTimer (preTerminate s) = 30) by reflexivity.
  assert (Hf : _fadingTimer (fadeOutAll s) = 48) by reflexivity.
  split; [|split].
  - intros Hd. rewrite G; rewrite Hk; done.
  - rewrite G; rewrite Hp; [done|lia].
  - rewrite G; rewrite Hf; [done|lia].
Qed.

(** A fade-out of three frames: busy after two of them, idle after
    three. *)
Lemma busy_exactly_for_duration_witness :
  isBusy (Nat.iter 2 update (startFade FadeOut (Some 3) constructor)) = true /\
  isBusy (Nat.iter 3 update (startFade FadeOut (Some 3) constructor)) = false.
Proof.
  split.
  - apply (proj1 (busy_exactly_for_duration constructor (Some 3) FadeOut 2)).
    vm_compute. discriminate.
  - apply (proj1 (busy_exactly_for_duration constructor (Some 3) FadeOut 3)).
    vm_compute. discriminate.
Defined.

(** X5. A fade started with a negative duration never runs: the timer
    keeps the negative value, [isBusy] is [false] from the start, and the
    fading sprite stays shown at the opacity the start gave it, fully
    opaque for a fade-in, on every later frame. *)
Theorem negative_duration_never_fades (s : t) (d : Z) (k : FadeKind) (j : nat) :
  d < 0 ->
  let sj := Nat.iter j update (startFade k (Some d) s) in
  isBusy sj = false /\ _fadingTimer sj = d /\ fadeShown sj = true /\
  fadeOpacity sj = match k with FadeIn => 1%Q | FadeOut => 0%Q end.
Proof.
  intros Hd. induction j as [|j IH].
  - cbn. destruct (Z.eqb_spec d 0); [lia|]. unfold isBusy.
    destruct k; cbn; destruct (Z.eqb_spec d 0); try lia;
      destruct (Z.ltb_spec 0 d); try lia; done.
  - cbn zeta in *. rewrite Nat.iter_succ.
    set (sj := Nat.iter j update (startFade k (Some d) s)) in *.
    destruct IH as (Hb & Ht & Hs & Ho).
    assert (E : updateFading sj = sj).
    { unfold updateFading. rewrite Ht. destruct (Z.leb_spec d 0); [done|lia]. }
    unfold update. rewrite E. unfold isBusy in *. cbn. done.
Qed.

Lemma negative_duration_never_fades_witness :
  fadeShown (Nat.iter 100 update (startFade FadeIn (Some (-5)) constructor)) = true /\
  fadeOpacity (Nat.iter 100 update (startFade FadeIn (Some (-5)) constructor)) = 1%Q.
Proof.
  destruct (negative_duration_never_fades constructor (-5) FadeIn 100)
    as (_ & _ & H1 & H2); [reflexivity|].
  split; [exact H1|exact H2].
Defined.

End MoreChildren.

(** ** The warnings of the loading scene *)

Section Warnings.

Import Scene_Load.

Lemma land_pow2_testbit (z i : Z) :
  0 <= i -> (Z.land z (Z.shiftl 1 i) =? 0) = negb (Z.testbit z i).
Proof.
  intros Hi. rewrite Z.shiftl_1_l.
  destruct (Z.testbit z i) eqn:Eb; cbn [negb].
  - apply Z.eqb_neq. intros E.
    assert (Z.testbit (Z.land z (2 ^ i)) i = true).
    { by rewrite Z.land_spec, Eb, Z.pow2_bits_true. }
    rewrite E, Z.bits_0 in H. done.
  - apply Z.eqb_eq. apply Z.bits_inj'. intros n Hn.
    rewrite Z.land_spec, Z.bits_0, Z.pow2_bits_eqb by done.
    destruct (Z.eqb_spec i n) as [->|]; [by rewrite Eb|by rewrite andb_false_r].
Qed.

Lemma warn_spec (a : bool) (bitset bit : Z) (w : Warning)
    (confirm : Warning -> bool) (st : Z * list Warning) :
  0 <= bit ->
  warn a bitset bit w confirm st
  = (Z.lor (fst st)
       (Z.shiftl (Z.b2z (a && (Z.testbit bitset bit || confirm w))) bit),
     snd st ++ (if a && negb (Z.testbit bitset bit) then [w] else [])).
Proof.
  intros Hb. unfold warn. rewrite land_pow2_testbit by done.
  destruct a, (Z.testbit bitset bit); cbn [andb orb negb];
    rewrite ?Z.shiftl_0_l, ?Z.lor_0_r, ?app_nil_r; by destruct st.
Qed.

Lemma hideWarning_spec (pf : Platform) (confirm : Warning -> bool)
    (stored : option Z) :
  hideWarning pf confirm stored
  = (Z.lor (Z.lor (Z.lor 0
        (Z.shiftl (Z.b2z (keptBit pf confirm stored MobileWarning)) 0))
        (Z.shiftl (Z.b2z (keptBit pf confirm stored BrowserWarning)) 1))
        (Z.shiftl (Z.b2z (keptBit pf confirm stored FirefoxWarning)) 2),
     ((if asked pf stored MobileWarning then [MobileWarning] else [])
      ++ (if asked pf stored BrowserWarning then [BrowserWarning] else []))
      ++ (if asked pf stored FirefoxWarning then [FirefoxWarning] else [])).
Proof.
  unfold hideWarning. rewrite !warn_spec by lia. reflexivity.
Qed.

(** X6. The [hideWarning] setting that [start] stores has three bits, one
    per warning. The bit of a warning is set exactly when the warning
    concerns the platform and either its bit was stored before or the
    user confirms the prompt; the bit of a warning that does not concern
    the platform is dropped. A prompt is shown exactly for the warnings
    that concern the platform and whose bit was not stored, each at most
    once; the browser and the Firefox bit are never both set. *)
Theorem hideWarning_bits (pf : Platform) (confirm : Warning -> bool)
    (stored : option Z) (w : Warning) :
  let r := hideWarning pf confirm stored in
  0 <= fst r < 8 /\
  Z.testbit (fst r) (bitOf w)
  = applies pf w && (storedBit stored w || confirm w) /\
  (w ∈ snd r <-> applies pf w = true /\ storedBit stored w = false) /\
  NoDup (snd r) /\
  ~ (Z.testbit (fst r) 1 = true /\ Z.testbit (fst r) 2 = true).
Proof.
  cbn zeta. rewrite hideWarning_spec. cbn [fst snd].
  fold (keptBit pf confirm stored w).
  assert (Hx : keptBit pf confirm stored BrowserWarning = true ->
               keptBit pf confirm stored FirefoxWarning = false).
  { unfold keptBit. cbn [applies]. destruct (isFirefox pf); [|done].
    rewrite andb_false_r. cbn. done. }
  assert (Ha : forall v, asked pf stored v = true
                         <-> applies pf v = true /\ storedBit stored v = false).
  { intros v. unfold asked. rewrite andb_true_iff, negb_true_iff. done. }
  rewrite <- Ha.
  destruct (keptBit pf confirm stored MobileWarning) eqn:K0,
    (keptBit pf confirm stored BrowserWarning) eqn:K1,
    (keptBit pf confirm stored FirefoxWarning) eqn:K2;
    try (by discriminate Hx);
    (split; [by vm_compute|]);
    (split; [destruct w; cbn [bitOf]; rewrite ?K0, ?K1, ?K2; by vm_compute|]);
    (split; [|split; [|by vm_compute; intuition congruence]]);
    destruct (asked pf stored MobileWarning) eqn:A0,
      (asked pf stored BrowserWarning) eqn:A1,
      (asked pf stored FirefoxWarning) eqn:A2; cbn [app];
    try (destruct w; rewrite ?A0, ?A1, ?A2, ?elem_of_cons, ?elem_of_nil;
         intuition congruence);
    repeat constructor; rewrite ?elem_of_cons, ?elem_of_nil; intuition congruence.
Qed.

Lemma setting_testbit (b0 b1 b2 : bool) (w : Warning) :
  Z.testbit
    (Z.lor (Z.lor (Z.lor 0 (Z.shiftl (Z.b2z b0) 0)) (Z.shiftl (Z.b2z b1) 1))
           (Z.shiftl (Z.b2z b2) 2)) (bitOf w)
  = match w with MobileWarning => b0 | BrowserWarning => b1 | FirefoxWarning => b2 end.
Proof. by destruct b0, b1, b2, w. Qed.

Lemma hideWarning_testbit (pf : Platform) (confirm : Warning -> bool)
    (stored : option Z) (w : Warning) :
  Z.testbit (fst (hideWarning pf confirm stored)) (bitOf w)
  = keptBit pf confirm stored w.
Proof. rewrite hideWarning_spec. cbn [fst]. rewrite setting_testbit. by destruct w. Qed.

Lemma hideWarning_asked (pf : Platform) (confirm : Warning -> bool)
    (stored : option Z) (w : Warning) :
  w ∈ snd (hideWarning pf confirm stored) <-> asked pf stored w = true.
Proof.
  rewrite hideWarning_spec. cbn [snd].
  destruct (asked pf stored MobileWarning) eqn:A0,
    (asked pf stored BrowserWarning) eqn:A1,
    (asked pf stored FirefoxWarning) eqn:A2; cbn [app];
    destruct w; rewrite ?A0, ?A1, ?A2, ?elem_of_cons, ?elem_of_nil;
    intuition congruence.
Qed.

(** X7. Starting again with the setting the first start stored: a
    prompt comes back exactly for the warnings the user declined; a bit
    once set stays set; and when the user confirms nothing that was
    declined before, the setting stored is the same. *)
Theorem hideWarning_rerun (pf : Platform) (confirm confirm' : Warning -> bool)
    (stored : option Z) (w : Warning) :
  let r := hideWarning pf confirm stored in
  let r' := hideWarning pf confirm' (Some (fst r)) in
  (w ∈ snd r' <->
     applies pf w = true /\ storedBit stored w = false /\ confirm w = false) /\
  (Z.testbit (fst r) (bitOf w) = true -> Z.testbit (fst r') (bitOf w) = true) /\
  ((forall v, confirm' v = true -> confirm v = true) -> fst r' = fst r).
Proof.
  cbn zeta.
  assert (Hs : forall v, storedBit (Some (fst (hideWarning pf confirm stored))) v
                         = keptBit pf confirm stored v).
  { intros v. unfold storedBit. cbn [from_option id]. apply hideWarning_testbit. }
  split; [|split].
  - rewrite hideWarning_asked. unfold asked. rewrite Hs. unfold keptBit.
    destruct (applies pf w), (storedBit stored w), (confirm w); cbn; intuition congruence.
  - rewrite !hideWarning_testbit. intros Hk. unfold keptBit. rewrite Hs, Hk.
    unfold keptBit in Hk. apply andb_true_iff in Hk as [-> _]. done.
  - intros Hc.
    assert (Hk : forall v, keptBit pf confirm' (Some (fst (hideWarning pf confirm stored))) v
                           = keptBit pf confirm stored v).
    { intros v. unfold keptBit at 1. rewrite Hs. unfold keptBit.
      specialize (Hc v).
      destruct (applies pf v), (storedBit stored v), (confirm v), (confirm' v);
        cbn in *; try done. by discriminate Hc. }
    rewrite (hideWarning_spec pf confirm' _). cbn [fst]. rewrite !Hk.
    by rewrite (hideWarning_spec pf confirm stored).
Qed.

(** A phone running Firefox, nothing stored: the mobile and the Firefox
    warning are confirmed, so the setting is 5 and stays 5. *)
Lemma hideWarning_rerun_witness :
  fst (hideWarning Samples.firefoxPhone (fun _ => true) None) = 5 /\
  fst (hideWarning Samples.firefoxPhone (fun _ => false)
         (Some (fst (hideWarning Samples.firefoxPhone (fun _ => true) None)))) = 5.
Proof.
  split; [reflexivity|].
  rewrite (proj2 (proj2 (hideWarning_rerun Samples.firefoxPhone (fun _ => true)
                           (fun _ => false) None MobileWarning))).
  - reflexivity.
  - intros v Hv. discriminate Hv.
Defined.

End Warnings.


(** ** Loading *)

Section Loading.

Import Scene_Base.

Lemma loadFrames_snoc (frames : list bool) (r : bool) (s : Scene_Load.t) :
  loadFrames (frames ++ [r]) s = Scene_Load.update r (loadFrames frames s).
Proof. unfold loadFrames. by rewrite foldl_app. Qed.

Lemma loadFrames_cooldown (frames : list bool) (s : Scene_Load.t) (k : Z) (v : Z) :
  _buttonCooldown (Scene_Load.base s) !! k = Some v -> 0 <= v ->
  _buttonCooldown (Scene_Load.base (loadFrames frames s)) !! k
  = Some (if decide (0 <= k < 255) then Z.max 0 (v - Z.of_nat (length frames)) else v).
Proof.
  intros Hv Hv0. induction frames as [|r frames IH] using rev_ind.
  - cbn. rewrite Hv. destruct (decide (0 <= k < 255)); f_equal; lia.
  - rewrite loadFrames_snoc, Scene_Load_update_cooldown, Scene_Base_update_cooldown, IH.
    rewrite length_app. cbn [length].
    destruct (decide (0 <= k < 255)); [|done].
    unfold coolStep, js_or.
    destruct (Z.eqb_spec (Z.max 0 (v - Z.of_nat (length frames))) 0) as [E|E].
    + cbn. rewrite E. f_equal. lia.
    + destruct (Z.ltb_spec 0 (Z.max 0 (v - Z.of_nat (length frames)))); [|lia].
      f_equal. lia.
Qed.

(** X8. In the loading scene a heated button of a key in [0 .. 254] is
    cooled exactly from the fourth frame on, whatever the loading does
    meanwhile; a key outside that range never cools, the loop of
    [updateButtonCooldown] not reaching it. *)
Theorem Scene_Load_button_cooling (s : Scene_Load.t) (k : Z) (frames : list bool) :
  let heated := Scene_Load.set_base (heatupButton k (Scene_Load.base s)) s in
  isButtonCooled k (Scene_Load.base (loadFrames frames heated))
  = if decide (0 <= k < 255) then (4 <=? Z.of_nat (length frames)) else false.
Proof.
  cbn zeta. unfold isButtonCooled.
  rewrite (loadFrames_cooldown frames _ k 4); [| |lia].
  - destruct (decide (0 <= k < 255)); [|done]. unfold js_or.
    destruct (Z.leb_spec 4 (Z.of_nat (length frames))).
    + by replace (Z.max 0 (4 - Z.of_nat (length frames))) with 0 by lia.
    + destruct (Z.eqb_spec (Z.max 0 (4 - Z.of_nat (length frames))) 0) as [E|E]; [lia|].
      by apply Z.eqb_neq.
  - cbn. by rewrite lookup_insert_eq.
Qed.

Lemma updateButtonCooldown_loading (s : Scene_Load.t) :
  Scene_Load.allLoaded (Scene_Load.updateButtonCooldown s) = Scene_Load.allLoaded s /\
  Scene_Load.loading_timer (Scene_Load.updateButtonCooldown s) = Scene_Load.loading_timer s /\
  Scene_Load.loadingComplete (Scene_Load.updateButtonCooldown s)
  = Scene_Load.loadingComplete s.
Proof. done. Qed.

(** What one frame does to the loading fields. *)
Lemma update_loading_fields (ready : bool) (s : Scene_Load.t) :
  let s' := Scene_Load.update ready s in
  let al := Scene_Load.allLoaded s || ready in
  let tm := Scene_Load.loading_timer s in
  Scene_Load.allLoaded s' = al /\
  Scene_Load.loading_timer s'
  = (if al then
       let t1 := if tm <? 60 then tm + 1 else tm in
       if t1 =? 60 then 255 else t1
     else tm) /\
  Scene_Load.loadingComplete s'
  = (if al then
       let t1 := if tm <? 60 then tm + 1 else tm in
       if t1 =? 60 then true else Scene_Load.loadingComplete s
     else Scene_Load.loadingComplete s).
Proof.
  cbn zeta. unfold Scene_Load.update.
  destruct (updateButtonCooldown_loading
              (Scene_Load.updateLoading ready
                 (Scene_Load.set_base (update (Scene_Load.base s)) s)))
    as (-> & -> & ->).
  unfold Scene_Load.updateLoading, Scene_Load.processLoadingComplete.
  cbn [Scene_Load.allLoaded Scene_Load.loading_timer Scene_Load.loadingComplete
       Scene_Load.set_base Scene_Load.base].
  destruct (Scene_Load.allLoaded s || ready); [|done].
  destruct (Scene_Load.loading_timer s <? 60);
    cbn [Scene_Load.allLoaded Scene_Load.loading_timer Scene_Load.loadingComplete];
    match goal with |- context [?a =? 60] => destruct (a =? 60) end; done.
Qed.

(** X9. While the resources are not ready the loading timer stays [0]
    and nothing completes. From the first frame that finds them ready,
    [allLoaded] is set for good and the timer counts that frame and the
    later ones: [processLoadingComplete] has been called exactly when 60
    of them have passed, and the timer is then parked at 255, so that it
    is not called a second time. *)
Theorem loading_completes_after_sixty (waiting rest : list bool) (s : Scene_Load.t) :
  Scene_Load.allLoaded s = false -> Scene_Load.loading_timer s = 0 ->
  Scene_Load.loadingComplete s = false ->
  Forall (fun r => r = false) waiting ->
  let m := Z.of_nat (S (length rest)) in
  let s' := loadFrames (waiting ++ true :: rest) s in
  Scene_Load.loadingComplete (loadFrames waiting s) = false /\
  Scene_Load.loading_timer (loadFrames waiting s) = 0 /\
  Scene_Load.allLoaded s' = true /\
  Scene_Load.loadingComplete s' = (60 <=? m) /\
  Scene_Load.loading_timer s' = (if m <? 60 then m else 255).
Proof.
  intros Ha Ht Hc Hw.
  assert (W : Scene_Load.allLoaded (loadFrames waiting s) = false /\
              Scene_Load.loading_timer (loadFrames waiting s) = 0 /\
              Scene_Load.loadingComplete (loadFrames waiting s) = false).
  { induction waiting as [|r waiting IH] using rev_ind; [done|].
    apply Forall_app in Hw as [Hw Hr]. apply Forall_cons in Hr as [-> _].
    destruct (IH Hw) as (Ia & It & Ic).
    rewrite loadFrames_snoc.
    destruct (update_loading_fields false (loadFrames waiting s)) as (-> & -> & ->).
    by rewrite Ia, It, Ic. }
  destruct W as (Wa & Wt & Wc). cbn zeta.
  split; [done|]. split; [done|].
  induction rest as [|r rest IH] using rev_ind.
  - rewrite loadFrames_snoc.
    destruct (update_loading_fields true (loadFrames waiting s)) as (-> & -> & ->).
    rewrite Wa, Wt, Wc. by cbn.
  - replace (waiting ++ true :: rest ++ [r]) with ((waiting ++ true :: rest) ++ [r])
      by (by rewrite <- app_assoc).
    rewrite loadFrames_snoc.
    destruct IH as (Ia & Ic & It).
    destruct (update_loading_fields r (loadFrames (waiting ++ true :: rest) s))
      as (-> & -> & ->).
    rewrite Ia, Ic, It. cbn [orb]. rewrite length_app. cbn [length].
    set (m := Z.of_nat (S (length rest))) in *.
    replace (Z.of_nat (S (length rest + 1))) with (m + 1) by lia.
    split; [done|].
    destruct (Z.ltb_spec m 60) as [H1|H1].
    + rewrite (proj2 (Z.ltb_lt m 60) H1).
      destruct (Z.eqb_spec (m + 1) 60) as [E|E].
      * split; [|destruct (Z.ltb_spec (m + 1) 60); [lia|done]].
        symmetry. apply Z.leb_le. lia.
      * destruct (Z.leb_spec 60 m); [lia|].
        destruct (Z.leb_spec 60 (m + 1)); [lia|].
        destruct (Z.ltb_spec (m + 1) 60); [done|lia].
    + cbn. destruct (Z.leb_spec 60 m); [|lia].
      destruct (Z.leb_spec 60 (m + 1)); [|lia].
      destruct (Z.ltb_spec (m + 1) 60); [lia|]. done.
Qed.

(** Two frames of waiting, then one ready frame: the timer is at 1. *)
Lemma loading_completes_after_sixty_witness :
  Scene_Load.loading_timer (loadFrames [false; false; true] Scene_Load.constructor) = 1 /\
  Scene_Load.loadingComplete (loadFrames [false; false; true] Scene_Load.constructor)
  = false.
Proof.
  destruct (loading_completes_after_sixty [false; false] [] Scene_Load.constructor)
    as (_ & _ & _ & Hc & Ht); [reflexivity|reflexivity|reflexivity| |].
  - repeat constructor.
  - split; [exact Ht|exact Hc].
Defined.

End Loading.


(** ** The intro timeline *)

Section Intro.

Import Scene_Intro.

Lemma introFrames_snoc (k : Z) (clicks : list bool) (c : bool) (s : t) :
  introFrames k (clicks ++ [c]) s = update k c (introFrames k clicks s).
Proof. unfold introFrames. by rewrite foldl_app. Qed.

Local Ltac fin e :=
  cbn;
  repeat match goal with
         | H : _ = _ |- _ => rewrite H
         end;
  cbn; rewrite ?orb_false_r, ?orb_true_r.

(** What one frame does to the fields of the timeline. *)
Lemma update_timeline (k : Z) (c : bool) (s : t) :
  fadeDuration s = 30 -> NTOUmoment s = 150 -> ENDmoment s = 500 ->
  let s' := update k c s in
  let t1 := timer s + 1 in
  fadeDuration s' = 30 /\ NTOUmoment s' = 150 /\ ENDmoment s' = 500 /\
  timer s' = (if c then
                if t1 <? 150 then 149
                else if t1 <? 180 then 179
                else if t1 <? 500 then 499 else t1
              else t1) /\
  splashShown s' = splashShown s || (t1 =? 180) /\
  gotoTitle s' = gotoTitle s || (t1 =? 500).
Proof.
  intros Hf Hn He. cbn zeta. unfold update.
  remember (set_timer (timer (set_base (Scene_Base.update (base s)) s) + 1)
                      (set_base (Scene_Base.update (base s)) s)) as s2 eqn:E2.
  assert (H2 : timer s2 = timer s + 1 /\ fadeDuration s2 = 30 /\ NTOUmoment s2 = 150 /\
               ENDmoment s2 = 500 /\ splashShown s2 = splashShown s /\
               gotoTitle s2 = gotoTitle s) by (subst s2; done).
  clear E2. destruct H2 as (T2 & F2 & N2 & E2 & S2 & G2).
  remember (updateSplashStage s2) as s3 eqn:E3.
  assert (H3 : timer s3 = timer s + 1 /\ fadeDuration s3 = 30 /\ NTOUmoment s3 = 150 /\
               ENDmoment s3 = 500 /\
               splashShown s3 = splashShown s || (timer s + 1 =? 180) /\
               gotoTitle s3 = gotoTitle s || (timer s + 1 =? 500)).
  { subst s3. unfold updateSplashStage. rewrite F2, N2, E2, T2.

    destruct (Z.eqb_spec (timer s + 1) 150) as [e|n1]; [by fin e|].
    destruct (Z.eqb_spec (timer s + 1) (150 + 30)) as [e|n2]; [by fin e|].
    destruct (Z.eqb_spec (timer s + 1) (150 + 30 + 40)) as [e|n3]; [by fin e|].
    destruct (Z.eqb_spec (timer s + 1) (150 + 30 + 60)) as [e|n4]; [by fin e|].
    destruct (Z.eqb_spec (timer s + 1) 500) as [e|n5]; [by fin e|].
    rewrite ?T2, ?S2, ?G2.
    destruct (Z.eqb_spec (timer s + 1) 180); [lia|].
    by rewrite !orb_false_r. }
  clear E3 T2 F2 N2 E2 S2 G2. destruct H3 as (T3 & F3 & N3 & E3' & S3 & G3).
  remember (updateSkip k c s3) as s4 eqn:E4.
  assert (H4 : fadeDuration s4 = 30 /\ NTOUmoment s4 = 150 /\ ENDmoment s4 = 500 /\
               timer s4 = (if c then
                             if timer s + 1 <? 150 then 149
                             else if timer s + 1 <? 180 then 179
                             else if timer s + 1 <? 500 then 499 else timer s + 1
                           else timer s + 1) /\
               splashShown s4 = splashShown s || (timer s + 1 =? 180) /\
               gotoTitle s4 = gotoTitle s || (timer s + 1 =? 500)).
  { subst s4. unfold updateSkip. destruct c; cbn [negb]; [|done].
    cbn [timer NTOUmoment fadeDuration ENDmoment set_base].
    rewrite T3, F3, N3, E3'.
    destruct (timer s + 1 <? 150); [done|].
    change (150 + 30) with 180.
    destruct (timer s + 1 <? 180); [done|].
    destruct (timer s + 1 <? 500); done. }
  clear E4. destruct H4 as (F4 & N4 & E4 & T4 & S4 & G4).
  destruct (requestFilterUpdate s4); done.
Qed.

(** X10. The intro after any frames, clicked or not: the timer is at
    least the number of frames, the splash has been put up exactly when
    the timer has reached 180 and the title scene has been asked for
    exactly when it has reached 500, so a click never skips either
    moment. The title is asked for by frame 500 at the latest and, three
    clicks being needed to get there, not before frame 4; without clicks
    the timer is the number of frames. *)
Theorem intro_timeline (b : Scene_Base.t) (k : Z) (clicks : list bool) :
  let s := introFrames k clicks (start b) in
  let n := Z.of_nat (length clicks) in
  n <= timer s /\
  splashShown s = (180 <=? timer s) /\
  gotoTitle s = (500 <=? timer s) /\
  (n < 4 -> gotoTitle s = false) /\
  (500 <= n -> gotoTitle s = true) /\
  (Forall (fun c => c = false) clicks -> timer s = n).
Proof.
  cbn zeta.
  assert (I : let s := introFrames k clicks (start b) in
              let n := Z.of_nat (length clicks) in
              fadeDuration s = 30 /\ NTOUmoment s = 150 /\ ENDmoment s = 500 /\
              n <= timer s /\
              splashShown s = (180 <=? timer s) /\
              gotoTitle s = (500 <=? timer s) /\
              (n <= 0 -> timer s <= 0) /\ (n <= 1 -> timer s < 150) /\
              (n <= 2 -> timer s < 180) /\ (n <= 3 -> timer s < 500) /\
              (Forall (fun c => c = false) clicks -> timer s = n)).
  { induction clicks as [|c clicks IH] using rev_ind.
    - cbn. repeat split; try lia; done.
    - cbn zeta in *. rewrite introFrames_snoc, length_app. cbn [length].
      destruct IH as (F & N & E & Hn & Hs & Hg & B0 & B1 & B2 & B3 & Hq).
      destruct (update_timeline k c (introFrames k clicks (start b)) F N E)
        as (-> & -> & -> & -> & -> & ->).
      rewrite Hs, Hg.
      set (tm := timer (introFrames k clicks (start b))) in *.
      set (n := Z.of_nat (length clicks)) in *.
      replace (Z.of_nat (length clicks + 1)) with (n + 1) by lia.
      split; [done|]. split; [done|]. split; [done|].
      assert (Hq' : Forall (fun c0 => c0 = false) (clicks ++ [c]) ->
                    c = false /\ tm = n).
      { intros Hall. apply Forall_app in Hall as [Ha Hc].
        apply Forall_cons in Hc as [-> _]. split; [done|]. by apply Hq. }
      destruct c.
      + destruct (Z.ltb_spec (tm + 1) 150); [|destruct (Z.ltb_spec (tm + 1) 180);
          [|destruct (Z.ltb_spec (tm + 1) 500)]];
          destruct (Z.leb_spec 180 tm); destruct (Z.leb_spec 500 tm);
          destruct (Z.eqb_spec (tm + 1) 180); destruct (Z.eqb_spec (tm + 1) 500);
          try lia; cbn [orb];
          repeat split; try lia; try done;
          try (intros Hall; by destruct (Hq' Hall)).
      + destruct (Z.leb_spec 180 tm); destruct (Z.leb_spec 500 tm);
          destruct (Z.eqb_spec (tm + 1) 180); destruct (Z.eqb_spec (tm + 1) 500);
          destruct (Z.leb_spec 180 (tm + 1)); destruct (Z.leb_spec 500 (tm + 1));
          try lia; cbn [orb];
          repeat split; try lia; try done;
          try (intros Hall; destruct (Hq' Hall); lia). }
  cbn zeta in I. destruct I as (_ & _ & _ & Hn & Hs & Hg & B0 & B1 & B2 & B3 & Hq).
  split; [done|]. split; [done|]. split; [done|].
  split; [|split; [|done]].
  - intros H4. rewrite Hg. apply Z.leb_gt. apply B3. lia.
  - intros H5. rewrite Hg. apply Z.leb_le. lia.
Qed.

(** Three clicked frames are not enough, four are. *)
Lemma intro_timeline_witness :
  gotoTitle (introFrames 1 [true; true; true] (start Scene_Base.constructor)) = false /\
  gotoTitle (introFrames 1 [true; true; true; true] (start Scene_Base.constructor)) = true.
Proof.
  split.
  - apply (intro_timeline Scene_Base.constructor 1 [true; true; true]). cbn. lia.
  - reflexivity.
Defined.

End Intro.


(** ** The sprite pool: acquiring and the sprite's indices *)

Section Pool.

Import Scene_Game.

Variable env : Env.

#[local] Instance stays_preorder {S : Type} (P : S -> Prop) : PreOrder (stays P).
Proof. split; [intros s H; exact H|]. intros a b c Hab Hbc H. by apply Hbc, Hab. Qed.

Lemma findIdle_from_first (p : list CardSprite) : forall (k i : nat) (sp : CardSprite),
  p !! i = Some sp -> playerIndex sp = -2 ->
  (forall j sp', (j < i)%nat -> p !! j = Some sp' -> playerIndex sp' <> -2) ->
  findIdle_from k p = Some (k + i)%nat.
Proof.
  induction p as [|x p IH]; intros k i sp Hi Ho Hb; [done|].
  cbn [findIdle_from]. destruct i as [|i].
  - injection Hi as ->. rewrite Ho. cbn. f_equal. lia.
  - destruct (Z.eqb_spec (playerIndex x) (-2)) as [E|E].
    + by destruct (Hb 0%nat x ltac:(lia) eq_refl).
    + rewrite (IH (S k) i sp Hi Ho); [f_equal; lia|].
      intros j sp' Hj Hl. apply (Hb (S j) sp'); [lia|done].
Qed.

(** X11. [getIdleCardSprite] is first fit: it hands out the unowned
    sprite of the lowest pool position and changes nothing, the owner tag
    included, so that a second acquire before the caller tags the sprite
    hands out the same one. *)
Theorem getIdleCardSprite_first_fit (s : t) (p : list CardSprite) (i : nat)
    (sp : CardSprite) :
  spritePool s = Some p -> p !! i = Some sp -> playerIndex sp = -2 ->
  (forall j sp', (j < i)%nat -> p !! j = Some sp' -> playerIndex sp' <> -2) ->
  getIdleCardSprite env s = Return i s /\
  getIdleCardSprite env (final (getIdleCardSprite env s)) = Return i s.
Proof.
  intros Hp Hi Ho Hb.
  assert (E : getIdleCardSprite env s = Return i s).
  { apply (getIdleCardSprite_found env s p i Hp). unfold findIdle.
    by rewrite (findIdle_from_first p 0 i sp Hi Ho Hb). }
  by rewrite E.
Qed.

(** X12. An acquire before [create] finds no pool: it throws, after
    [cardSpritePoolSize] has been raised already, so that the pool
    [createCardSpritePool] builds afterwards has one sprite more than
    the number the scene was constructed with. *)
Theorem getIdleCardSprite_before_create (s : t) :
  spritePool s = None ->
  let s' := final (getIdleCardSprite env s) in
  returned (getIdleCardSprite env s) = false /\
  cardSpritePoolSize s' = cardSpritePoolSize s + 1 /\
  spritePool s' = None /\
  exists p, spritePool (final (createCardSpritePool env s')) = Some p /\
            length p = Z.to_nat (cardSpritePoolSize s + 1).
Proof.
  intros Hp. cbn zeta.
  assert (E : getIdleCardSprite env s
              = Throw "TypeError" (set_cardSpritePoolSize (cardSpritePoolSize s + 1) s)).
  { unfold getIdleCardSprite. rewrite Hp. cbn [from_option].
    unfold createCardSprite, getPool, typeError, throw, modify, bind. cbn.
    by rewrite Hp. }
  rewrite E. cbn [final returned]. split; [done|]. split; [done|]. split; [done|].
  destruct (createCardSpritePool_spec env
              (set_cardSpritePoolSize (cardSpritePoolSize s + 1) s)) as (p & Ec & Hl & _).
  exists p. rewrite Ec. by split.
Qed.

(** *** The index of a sprite *)

Lemma stays_updSprite i f :
  (forall x, index (f x) = index x /\ (handIndex x = -1 -> handIndex (f x) = -1)) ->
  preserves (stays indexOK) (updSprite i f).
Proof.
  intros Hf. apply (preserves_modify (stays indexOK)). intros s H p j sp Hp Hj.
  cbn in Hp. destruct (spritePool s) as [p0|] eqn:E; [|done].
  injection Hp as <-. destruct (decide (i = j)) as [->|Hne].
  - rewrite list_lookup_alter_eq in Hj.
    destruct (p0 !! j) as [x|] eqn:Ex; [|done]. injection Hj as <-.
    destruct (Hf x) as [Hf1 Hf2]. destruct (H p0 j x E Ex) as [H1 H2].
    split; [congruence|by apply Hf2].
  - rewrite list_lookup_alter_ne in Hj by done. by apply (H p0).
Qed.

Lemma stays_field (f : t -> t) :
  (forall s, spritePool (f s) = spritePool s) -> forall s, stays indexOK s (f s).
Proof. intros Hp s H p i sp. rewrite Hp. apply H. Qed.

Lemma stays_getIdleCardSprite : preserves (stays indexOK) (getIdleCardSprite env).
Proof.
  intros s. unfold getIdleCardSprite.
  destruct (spritePool s) as [p|] eqn:Hp; cbn [from_option].
  - destruct (findIdle p) as [i|]; [reflexivity|].
    unfold createCardSprite, pushSprite, getPool, ret, modify, bind; cbn.
    rewrite Hp. cbn. intros H q j sp Hq Hj. cbn in Hq. rewrite Hp in Hq.
    injection Hq as <-.
    destruct (decide (j < length p)%nat) as [Hlt|Hge].
    + rewrite lookup_app_l in Hj by done. by apply (H p).
    + rewrite lookup_app_r in Hj by lia.
      destruct (j - length p)%nat as [|d] eqn:Ed; [|done].
      injection Hj as <-. cbn. split; [lia|done].
  - unfold createCardSprite, pushSprite, getPool, typeError, throw, modify, bind; cbn.
    rewrite Hp. cbn. intros _ q j sp Hq. cbn in Hq. by rewrite Hp in Hq.
Qed.

Lemma index_removeFrom c x :
  index (sp_removeFrom c x) = index x /\
  (handIndex x = -1 -> handIndex (sp_removeFrom c x) = -1).
Proof. unfold sp_removeFrom. repeat case_match; done. Qed.

Create HintDb idx.

Ltac idx :=
  repeat first
    [ apply (preserves_bind (stays indexOK)); [|intros ?]
    | apply (preserves_ret (stays indexOK))
    | apply (preserves_throw (stays indexOK))
    | apply (preserves_get (stays indexOK))
    | apply stays_getIdleCardSprite
    | apply stays_updSprite; first [done | apply index_removeFrom]
    | apply (preserves_modify (stays indexOK)); apply stays_field; done
    | apply (preserves_pure (stays indexOK)); intros s0;
      first [ unfold getPool; by destruct (spritePool s0)
            | match goal with |- final (getCard ?c _) = _ =>
                unfold getCard; by destruct (cards s0 !! c) end ]
    | progress auto with idx
    | match goal with
      | |- preserves _ (match ?x with _ => _ end) => destruct x
      | |- preserves _ (if ?x then _ else _) => destruct x
      end ].

Lemma stays_getSprite i : preserves (stays indexOK) (getSprite i).
Proof. unfold getSprite. idx. Qed.

Lemma stays_spriteOf c : preserves (stays indexOK) (spriteOf c).
Proof. unfold spriteOf. idx. Qed.

Lemma stays_getHandCanvas pid : preserves (stays indexOK) (getHandCanvas env pid).
Proof. unfold getHandCanvas. idx. Qed.

Lemma stays_bindSprite c i : preserves (stays indexOK) (bindSprite c i).
Proof. unfold bindSprite. idx. Qed.

Lemma stays_addAnimationCount d : preserves (stays indexOK) (addAnimationCount d).
Proof. unfold addAnimationCount. idx. Qed.

Lemma stays_setTimeout task d : preserves (stays indexOK) (setTimeout task d).
Proof. unfold setTimeout. idx. Qed.

Lemma stays_getCardImage cd : preserves (stays indexOK) (getCardImage env cd).
Proof. unfold getCardImage. idx. Qed.

#[local] Hint Resolve stays_getSprite stays_spriteOf stays_getHandCanvas stays_bindSprite
  stays_addAnimationCount stays_setTimeout stays_getCardImage : idx.

Lemma stays_arrangeLoop index hcs n rest : forall i,
  preserves (stays indexOK) (arrangeLoop env index hcs n i rest).
Proof. induction rest as [|c rest IH]; intros i; cbn [arrangeLoop]; idx; apply IH. Qed.

#[local] Hint Resolve stays_arrangeLoop : idx.

Lemma stays_arrangeHandCards index : preserves (stays indexOK) (arrangeHandCards env index).
Proof. unfold arrangeHandCards. idx. Qed.

Lemma stays_addDiscardCard card pid : preserves (stays indexOK) (addDiscardCard env card pid).
Proof. unfold addDiscardCard. idx. Qed.

#[local] Hint Resolve stays_arrangeHandCards stays_addDiscardCard : idx.

Lemma stays_onCardPlay pid card : preserves (stays indexOK) (onCardPlay env pid card).
Proof. unfold onCardPlay. idx. Qed.

Lemma stays_onCardDraw_from pid n show rest : forall i,
  preserves (stays indexOK) (onCardDraw_from pid n show i rest).
Proof. induction rest as [|c rest IH]; intros i; cbn [onCardDraw_from]; idx; apply IH. Qed.

Lemma stays_processCardDrawAnimation pid card show ar :
  preserves (stays indexOK) (processCardDrawAnimation env pid card show ar).
Proof. unfold processCardDrawAnimation. idx. Qed.

Lemma stays_sendCardToDeck pid card : preserves (stays indexOK) (sendCardToDeck env pid card).
Proof. unfold sendCardToDeck. idx. Qed.

#[local] Hint Resolve stays_processCardDrawAnimation stays_sendCardToDeck : idx.

Lemma stays_runCallback i cb : preserves (stays indexOK) (runCallback env i cb).
Proof. unfold runCallback. idx. Qed.

#[local] Hint Resolve stays_runCallback : idx.

Lemma stays_arrive i : preserves (stays indexOK) (arrive env i).
Proof. unfold arrive. idx. Qed.

Lemma stays_fire k : preserves (stays indexOK) (fire env k).
Proof. unfold fire, runTask. idx. Qed.

Lemma pushSprites_index (n : nat) : forall (s : t),
  indexOK s -> indexOK (final (pushSprites env n s)).
Proof.
  induction n as [|n IH]; intros s H; [done|].
  cbn [pushSprites].
  assert (Hs : preserves (stays indexOK)
                 (let! sp := createCardSprite env in pushSprite sp)).
  { intros s0 H0. unfold createCardSprite, pushSprite, getPool, typeError, throw, ret,
      modify, bind.
    destruct (spritePool s0) as [p|] eqn:Hp; cbn; [|done].
    rewrite Hp. cbn. intros q j sp Hq Hj. cbn in Hq. injection Hq as <-.
    destruct (decide (j < length p)%nat) as [Hlt|Hge].
    + rewrite lookup_app_l in Hj by done. by apply (H0 p).
    + rewrite lookup_app_r in Hj by lia.
      destruct (j - length p)%nat as [|d] eqn:Ed; [|done].
      injection Hj as <-. cbn. split; [lia|done]. }
  specialize (Hs s H). unfold bind in *.
  destruct (createCardSprite env s) as [sp s1|e s1]; cbn in *; [by apply IH|exact Hs].
Qed.

Lemma exec_index (op : Op) (s : t) : indexOK s -> indexOK (exec env op s).
Proof.
  destruct op as [ | d | d | | | | | pid card | pid cs show | k | i | ps | c co v n];
    cbn [exec]; try (intros H; exact H).
  - apply stays_onCardPlay.
  - apply stays_onCardDraw_from.
  - apply stays_fire.
  - apply stays_arrive.
  - by destruct (cards s !! c).
Qed.

Lemma reachable_indexOK (s : t) : reachable env s -> indexOK s.
Proof.
  intros Hr. induction Hr as [|s op _ IH _].
  - unfold created, createCardSpritePool. apply pushSprites_index.
    intros p i sp [= <-]. done.
  - by apply exec_index.
Qed.

(** X13. In every scene reachable from the created one, each sprite of
    the pool carries its pool position in [index] and [-1] in
    [handIndex]: no event writes another hand index. *)
Theorem sprite_index_is_pool_position (s : t) (p : list CardSprite) (i : nat)
    (sp : CardSprite) :
  reachable env s -> spritePool s = Some p -> p !! i = Some sp ->
  index sp = i /\ handIndex sp = -1.
Proof.
  intros Hr. revert p i sp. change (indexOK s). by apply reachable_indexOK.
Qed.

End Pool.

(** ** Releasing a sprite *)

Section Release.

Import Scene_Game.

Variable env : Env.

(** C5 (the code departs from it). In a scene reachable from the created
    one, [sendCardToDeck] for a card shown by a pool sprite and a seat
    that has a hand canvas returns and changes that sprite only: the
    owner tag is [-2], the sprite is hidden, its hand index is [-1] and
    it is at the deck anchor; with no animation handle on it the sprite
    satisfies the free-list predicate. For a seat without a hand canvas,
    such as the system seat [-1] that [processCardDrawAnimation] provides
    for, the call throws at [this.handCanvas[pid].removeChild] after the
    owner tag is written: the sprite is unowned, and neither hidden nor
    moved, so a sprite that was shown breaks the free-list predicate. *)
Theorem sendCardToDeck_release (s : t) (pid : Z) (card : nat) (cd : Card) (i : nat)
    (p : list CardSprite) (sp : CardSprite) :
  reachable env s ->
  cards s !! card = Some cd -> sprite cd = Some i ->
  spritePool s = Some p -> p !! i = Some sp ->
  (is_Some (at_Z (handCanvas env) pid) ->
   exists sp',
     sendCardToDeck env pid card s
     = Return tt (set_spritePool (Some (<[i := sp']> p)) s) /\
     playerIndex sp' = -2 /\
     shown sp' = false /\
     handIndex sp' = -1 /\
     (pos_x sp', pos_y sp') = deckAnchor env /\
     motion sp' = motion sp /\
     (motion sp = None -> idle env sp')) /\
  (at_Z (handCanvas env) pid = None ->
   exists sp',
     sendCardToDeck env pid card s
     = Throw "TypeError" (set_spritePool (Some (<[i := sp']> p)) s) /\
     playerIndex sp' = -2 /\
     handIndex sp' = -1 /\
     shown sp' = shown sp /\
     (pos_x sp', pos_y sp') = (pos_x sp, pos_y sp) /\
     (shown sp = true -> ~ idle env sp')).
Proof.
  intros Hr Hc Hs Hp Hi.
  destruct (reachable_indexOK env s Hr p i sp Hp Hi) as [_ Hhi].
  split.
  - intros [hcs Hh].
    exists (sp_setPOS (fst (deckAnchor env)) (snd (deckAnchor env))
              (sp_setShown false
                 (sp_removeFrom (OnHand (Z.to_nat pid)) (sp_setOwner (-2) sp)))).
    split.
    + rewrite (sendCardToDeck_run env s pid card cd i p hcs) by done.
      do 3 f_equal. rewrite list_insert_alter. apply list_alter_ext; [|done].
      intros x Hx. rewrite Hi in Hx. by injection Hx as <-.
    + destruct (sp_removeFrom_fields (OnHand (Z.to_nat pid)) (sp_setOwner (-2) sp))
        as (_ & Hh' & Ho & _ & _ & _ & Hm).
      unfold idle.
      cbn [playerIndex shown pos_x pos_y handIndex motion sp_setPOS sp_setShown].
      rewrite Hh', Ho, Hm. cbn [handIndex playerIndex motion sp_setOwner].
      rewrite Hhi, <- surjective_pairing. repeat split; done.
  - intros Hh. exists (sp_setOwner (-2) sp). split.
    + rewrite (sendCardToDeck_without_canvas env s pid card cd i p) by done.
      do 3 f_equal. rewrite list_insert_alter. apply list_alter_ext; [|done].
      intros x Hx. rewrite Hi in Hx. by injection Hx as <-.
    + unfold idle. cbn [playerIndex shown pos_x pos_y handIndex motion sp_setOwner].
      repeat split; try done.
      intros Hv (_ & _ & Hf & _). rewrite Hv in Hf. discriminate Hf.
Qed.

End Release.

(** ** Arranging a hand *)

Section Hand.

Import Scene_Game.

Variable env : Env.

Lemma at_Z_alter {A} (f : A -> A) (l : list A) (index : Z) (x : A) :
  at_Z l index = Some x -> at_Z (alter f (Z.to_nat index) l) index = Some (f x).
Proof.
  unfold at_Z. destruct (index <? 0); [done|]. intros H.
  by rewrite list_lookup_alter_eq, H.
Qed.

(** X14. [arrangeHandCards] for a seat with a canvas whose cards are all
    shown by pool sprites returns; it raises [animationCount] by the
    number of cards in the hand, stores the hand as the seat's
    [lastHand], leaves the other seats and the sprites of other cards
    alone; the sprite of the [i]-th card gets the depth [0x11 + i] and
    the seat's canvas as parent, is in flight, and keeps its owner and
    visibility. *)
Theorem arrangeHandCards_accounting (s : t) (index : Z) (pl : Player) (hcs : Rect)
    (p : list CardSprite) (js : list nat) :
  at_Z (players s) index = Some pl ->
  at_Z (handCanvas env) index = Some hcs ->
  spritePool s = Some p ->
  Forall2 (boundTo s) (hand pl) js ->
  let s' := final (arrangeHandCards env index s) in
  returned (arrangeHandCards env index s) = true /\
  animationCount s' = animationCount s + Z.of_nat (length (hand pl)) /\
  at_Z (players s') index = Some (mkPlayer (hand pl) (hand pl)) /\
  (forall k : nat, k <> Z.to_nat index -> players s' !! k = players s !! k) /\
  (forall j, j ∉ js -> (spritePool s' ≫= (.!! j)) = p !! j) /\
  (NoDup js -> forall i j sp, js !! i = Some j -> p !! j = Some sp ->
     exists sp', (spritePool s' ≫= (.!! j)) = Some sp' /\
       zIndex sp' = 17 + Z.of_nat i /\ parent sp' = OnHand (Z.to_nat index) /\
       playerIndex sp' = playerIndex sp /\ shown sp' = shown sp /\
       is_Some (motion sp')).
Proof.
  intros Hpl Hh Hp Hb. cbn zeta.
  assert (E : arrangeHandCards env index s
              = Return tt
                  (set_players
                     (alter (fun q => mkPlayer (hand q) (hand q)) (Z.to_nat index) (players s))
                     (mk (base s) (cardSpritePoolSize s)
                        (animationCount s + Z.of_nat (length (hand pl))) (playerPhase s)
                        (Some (arrangePool env index hcs (length (hand pl)) 0 js p))
                        (players s) (cards s) (timers s)))).
  { unfold arrangeHandCards, get, bind at 1. rewrite Hpl.
    unfold getHandCanvas. rewrite Hh. unfold ret, modify, bind.
    by rewrite (arrangeLoop_run env index hcs _ _ 0%nat js s p Hp Hb). }
  rewrite E. cbn [final returned animationCount set_players players spritePool].
  split; [done|]. split; [done|].
  split; [exact (at_Z_alter (fun q => mkPlayer (hand q) (hand q)) _ _ pl Hpl)|].
  split; [intros k Hk; by rewrite list_lookup_alter_ne|].
  split.
  - intros j Hj. cbn. by apply arrangePool_other.
  - intros Hnd i j sp Hj Hsp. cbn [mbind option_bind].
    rewrite (arrangePool_lookup env index hcs _ js 0%nat p i j Hnd Hj), Hsp.
    eexists. split; [reflexivity|]. cbn [Nat.add]. repeat split. by eexists.
Qed.

Lemma arrangeLoop_stops (index : Z) (hcs : Rect) (n : nat) (c : nat) (post : list nat)
    (pre : list nat) :
  forall (i : nat) (js : list nat) (s : t) (p : list CardSprite),
  spritePool s = Some p ->
  Forall2 (boundTo s) pre js ->
  (forall j, ~ boundTo s c j) ->
  arrangeLoop env index hcs n i (pre ++ c :: post) s
  = Throw "TypeError"
      (mk (base s) (cardSpritePoolSize s)
          (animationCount s + Z.of_nat (length pre)) (playerPhase s)
          (Some (arrangePool env index hcs n i js p))
          (players s) (cards s) (timers s)).
Proof.
  induction pre as [|c0 pre IH]; intros i js s p Hp Hb Hc.
  - apply Forall2_nil_inv_l in Hb as ->. cbn [app arrangeLoop arrangePool length].
    unfold spriteOf, getCard, bind, typeError, throw, ret.
    rewrite Z.add_0_r, <- Hp.
    destruct (cards s !! c) as [cd|] eqn:Ec; [|by destruct s].
    destruct (sprite cd) as [j|] eqn:Es; [|by destruct s].
    destruct (Hc j). by exists cd.
  - apply Forall2_cons_inv_l in Hb as (j & js' & (cd & Hcd & Hs) & Hb & ->).
    cbn [app arrangeLoop arrangePool].
    unfold spriteOf, getCard, updSprite, addAnimationCount, ret, modify, bind at 1 2 3 4 5 6.
    rewrite Hcd, Hs. cbn [spritePool set_spritePool set_animationCount].
    rewrite Hp. cbn [fmap option_fmap option_map].
    erewrite (IH (S i) js'); cbn; [| done | exact Hb | exact Hc].
    rewrite !list_alter_alter_eq. f_equal. f_equal; first [reflexivity|cbn [length]; lia].
Qed.

(** X15. When a card of the hand is shown by no sprite,
    [arrangeHandCards] throws at that card: the sprites of the cards
    before it are in flight already and are counted in [animationCount],
    the cards after it are not reached, and [lastHand] is not
    updated. *)
Theorem arrangeHandCards_stops_at_unbound_card (s : t) (index : Z) (pl : Player)
    (hcs : Rect) (p : list CardSprite) (pre post js : list nat) (c : nat) :
  at_Z (players s) index = Some pl ->
  at_Z (handCanvas env) index = Some hcs ->
  spritePool s = Some p ->
  hand pl = pre ++ c :: post ->
  Forall2 (boundTo s) pre js ->
  (forall j, ~ boundTo s c j) ->
  let s' := final (arrangeHandCards env index s) in
  returned (arrangeHandCards env index s) = false /\
  animationCount s' = animationCount s + Z.of_nat (length pre) /\
  players s' = players s /\
  (NoDup js -> forall i j sp, js !! i = Some j -> p !! j = Some sp ->
     exists sp', (spritePool s' ≫= (.!! j)) = Some sp' /\ is_Some (motion sp')) /\
  (forall j, j ∉ js -> (spritePool s' ≫= (.!! j)) = p !! j).
Proof.
  intros Hpl Hh Hp Hhand Hb Hc. cbn zeta.
  assert (E : arrangeHandCards env index s
              = Throw "TypeError"
                  (mk (base s) (cardSpritePoolSize s)
                      (animationCount s + Z.of_nat (length pre)) (playerPhase s)
                      (Some (arrangePool env index hcs (length (hand pl)) 0 js p))
                      (players s) (cards s) (timers s))).
  { unfold arrangeHandCards, get, bind at 1. rewrite Hpl.
    unfold getHandCanvas. rewrite Hh. unfold ret, modify, bind.
    rewrite Hhand at 2.
    by rewrite (arrangeLoop_stops index hcs _ c post pre 0%nat js s p Hp Hb Hc). }
  rewrite E. cbn [final returned animationCount players spritePool].
  split; [done|]. split; [done|]. split; [done|]. split.
  - intros Hnd i j sp Hj Hsp. cbn [mbind option_bind].
    rewrite (arrangePool_lookup env index hcs _ js 0%nat p i j Hnd Hj), Hsp.
    eexists. split; [reflexivity|]. by eexists.
  - intros j Hj. cbn. by apply arrangePool_other.
Qed.

Lemma stack_margin (cw span m x r e : Q) :
  (0 < cw)%Q -> (1 <= m)%Q -> (span - cw == cw * m * x)%Q ->
  (r - x <= e)%Q -> ((m - 1) * e <= x)%Q ->
  (0 <= (span - (cw + cw * r * (m - 1))) / 2)%Q.
Proof.
  intros Hcw Hm Hsx Hd Hx.
  assert (Hkey : (0 <= cw * (x + (m - 1) * (x - r)))%Q).
  { clear Hsx. apply Qmult_le_0_compat; [lra|].
    assert (H1 : ((r - x) * (m - 1) <= e * (m - 1))%Q).
    { apply Qmult_le_compat_r; lra. }
    assert (H2 : ((m - 1) * e == e * (m - 1))%Q) by ring.
    rewrite H2 in Hx.
    assert (H3 : (x + (m - 1) * (x - r) == x - (r - x) * (m - 1))%Q) by ring.
    rewrite H3. clear H2 H3 Hd. revert H1 Hx.
    generalize ((r - x) * (m - 1))%Q, (e * (m - 1))%Q. intros u v H1 Hx. lra. }
  assert (Hdiff : (span - (cw + cw * r * (m - 1)) == cw * (x + (m - 1) * (x - r)))%Q).
  { transitivity ((span - cw) - cw * r * (m - 1))%Q; [ring|]. rewrite Hsx. ring. }
  rewrite Hdiff. revert Hkey. generalize (cw * (x + (m - 1) * (x - r)))%Q.
  intros u Hu. apply Qle_shift_div_l; [reflexivity|]. by rewrite Qmult_0_l.
Qed.

(** X16. The targets of [arrangeHandCards] along the stacking axis are
    evenly spaced, by the card width times the overlap fraction, and
    centred: the margin before the first card equals the margin after
    the last. For a positive card width the stack stays inside the
    canvas when the exact quotient
    [(span - cardWidth) / (cardWidth * cardCount)] is at least
    [(cardCount - 1) * (1 / 2000 + d)]: [1 / 2000] is the most the
    rounding to three decimals adds, and [d] is a bound on what the
    quotient computed in doubles adds to the exact one. *)
Theorem hand_layout_centred (index : Z) (hcs : Rect) (n i : nat) :
  let cw := CardRectReg_width env in
  let span := canvasSpan index hcs in
  let along k := alongAxis index (handTarget env index hcs n k) in
  let exact := ((span - cw) / (cw * inject_Z (Z.of_nat n)))%Q in
  (along (S i) - along i == cw * stackPortion env index hcs n)%Q /\
  ((1 <= n)%nat ->
   (along 0%nat - cw / 2 == span - (along (n - 1)%nat + cw / 2))%Q) /\
  (forall d : Q,
   (1 <= n)%nat -> (0 < cw)%Q ->
   (stackQuotient env index hcs n <= exact + d)%Q ->
   (inject_Z (Z.of_nat n - 1) * ((1 # 2000) + d) <= exact)%Q ->
   (0 <= along 0%nat - cw / 2)%Q /\ (along (n - 1)%nat + cw / 2 <= span)%Q).
Proof.
  cbv beta zeta. rewrite !handTarget_along.
  unfold base_pos, totalWidth. rewrite canvasWidth_span.
  assert (HS : (inject_Z (Z.of_nat (S i)) == inject_Z (Z.of_nat i) + 1)%Q).
  { rewrite Nat2Z.inj_succ. unfold Z.succ. by rewrite inject_Z_plus. }
  split; [rewrite HS; ring|].
  assert (HN : (1 <= n)%nat -> (inject_Z (Z.of_nat (n - 1)) == inject_Z (Z.of_nat n) - 1)%Q).
  { intros Hn. rewrite Nat2Z.inj_sub by done. unfold Z.sub. rewrite inject_Z_plus.
    by rewrite inject_Z_opp. }
  split.
  - intros Hn. rewrite (HN Hn). change (inject_Z (Z.of_nat 0)) with 0%Q. field.
  - intros d Hn Hcw Hy Hx. rewrite (HN Hn). change (inject_Z (Z.of_nat 0)) with 0%Q.
    assert (HM : (inject_Z (Z.of_nat n - 1) == inject_Z (Z.of_nat n) - 1)%Q).
    { unfold Z.sub. rewrite inject_Z_plus. by rewrite inject_Z_opp. }
    rewrite HM in Hx.
    assert (Hn0 : (1 <= inject_Z (Z.of_nat n))%Q).
    { change 1%Q with (inject_Z 1). rewrite <- Zle_Qle. lia. }
    pose proof (stack_margin (CardRectReg_width env) (canvasSpan index hcs)
                  (inject_Z (Z.of_nat n))
                  ((canvasSpan index hcs - CardRectReg_width env)
                   / (CardRectReg_width env * inject_Z (Z.of_nat n)))
                  (stackPortion env index hcs n) ((1 # 2000) + d) Hcw Hn0) as Hmar.
    assert (Hgo : (0 <= (canvasSpan index hcs
                   - (CardRectReg_width env
                      + CardRectReg_width env * stackPortion env index hcs n
                        * (inject_Z (Z.of_nat n) - 1))) / 2)%Q).
    { assert (Hn1 : ~ (inject_Z (Z.of_nat n) == 0)%Q) by (apply inject_Z_nonzero; lia).
      assert (Hc1 : ~ (CardRectReg_width env == 0)%Q) by lra.
      apply Hmar; [field; by split| |exact Hx].
      destruct (toFixed3_rounds (stackQuotient env index hcs n)) as (k & _ & Hd).
      apply Qabs_Qle_condition in Hd as [_ Hd].
      fold (stackPortion env index hcs n) in Hd.
      revert Hy Hd.
      generalize (stackPortion env index hcs n), (stackQuotient env index hcs n),
        ((canvasSpan index hcs - CardRectReg_width env)
         / (CardRectReg_width env * inject_Z (Z.of_nat n)))%Q.
      intros r y x Hy Hd. lra. }
    revert Hgo.
    generalize (stackPortion env index hcs n), (CardRectReg_width env),
      (canvasSpan index hcs), (inject_Z (Z.of_nat n)).
    intros r cw span m Hgo.
    assert (E1 : ((span - (cw + cw * r * (m - 1))) / 2 + cw * r * 0 + cw / 2 - cw / 2
                  == (span - (cw + cw * r * (m - 1))) / 2)%Q) by field.
    assert (E2 : ((span - (cw + cw * r * (m - 1))) / 2 + cw * r * (m - 1) + cw / 2 + cw / 2
                  == span - (span - (cw + cw * r * (m - 1))) / 2)%Q) by field.
    rewrite E1, E2. split; [exact Hgo|].
    revert Hgo. generalize ((span - (cw + cw * r * (m - 1))) / 2)%Q. intros u Hu. lra.
Qed.

End Hand.

(** ** Playing from a hand *)

Section Play.

Import Scene_Game.

Variable env : Env.

Lemma onCardPlay_hand_run (s : t) (pid : Z) (card : nat) (cd : Card) (i : nat)
    (p : list CardSprite) (sp : CardSprite) (hcs : Rect) :
  pid <> -1 -> cards s !! card = Some cd -> sprite cd = Some i ->
  spritePool s = Some p -> p !! i = Some sp ->
  at_Z (handCanvas env) pid = Some hcs ->
  onCardPlay env pid card s
  = Return tt
      (mk (base s) (cardSpritePoolSize s) (animationCount s + 1) (playerPhase s)
          (Some (alter (fun x =>
                   sp_moveto
                     (r_x (discardPile env) + r_width (discardPile env) / 2)
                     (r_y (discardPile env) + r_height (discardPile env) / 2)
                     (DiscardDone card)
                     (sp_setShown true
                        (sp_setOwner (-1)
                           (sp_setHandIndex (-1)
                              (sp_setZ 32
                                 (sp_setPOS (fst (globalPosition env sp))
                                            (snd (globalPosition env sp))
                                    (sp_removeFrom (OnHand (Z.to_nat pid)) x))))))) i p))
          (players s) (cards s) (timers s)).
Proof.
  intros Hpid Hc Hs Hp Hi Hh.
  unfold onCardPlay. rewrite (proj2 (Z.eqb_neq pid (-1)) Hpid).
  unfold addDiscardCard, spriteOf, getSprite, getPool, getCard, getHandCanvas, updSprite,
    addAnimationCount, ret, modify, bind.
  repeat (progress (cbn; rewrite ?Hc, ?Hs, ?Hp, ?Hi, ?Hh)).
  by rewrite !list_alter_alter_eq.
Qed.

Lemma detached_fields (c : Container) (a b : Q) (x : CardSprite) :
  parent (sp_setPOS a b (sp_removeFrom c x)) <> c \/ c = Detached.
Proof.
  unfold sp_removeFrom. destruct c, (parent x) eqn:E; cbn; rewrite ?E; try (left; done);
    try (right; done).
  destruct (Nat.eqb_spec seat seat0); cbn; rewrite ?E; left; congruence.
Qed.

(** X22. [onCardPlay] for a card played from a hand ([pid] is not [-1])
    whose sprite is in the pool. When the seat has no hand canvas it
    throws before anything is written. Otherwise it returns and counts
    one animation; the sprite is out of the seat's canvas at the place on
    the screen it had inside it, is owned by the table ([-1]), has hand
    index [-1] and depth [0x20], is shown, and is in flight to the centre
    of the discard pile. *)
Theorem onCardPlay_from_hand (s : t) (pid : Z) (card : nat) (cd : Card) (i : nat)
    (p : list CardSprite) (sp : CardSprite) :
  pid <> -1 -> cards s !! card = Some cd -> sprite cd = Some i ->
  spritePool s = Some p -> p !! i = Some sp ->
  let s' := final (onCardPlay env pid card s) in
  (at_Z (handCanvas env) pid = None ->
     returned (onCardPlay env pid card s) = false /\ s' = s) /\
  (is_Some (at_Z (handCanvas env) pid) ->
     returned (onCardPlay env pid card s) = true /\
     animationCount s' = animationCount s + 1 /\
     exists sp' h, spritePool s' = Some (<[i := sp']> p) /\
       playerIndex sp' = -1 /\ handIndex sp' = -1 /\ zIndex sp' = 32 /\
       shown sp' = true /\
       (pos_x sp', pos_y sp') = globalPosition env sp /\
       parent sp' <> OnHand (Z.to_nat pid) /\
       motion sp' = Some h /\ onArrive h = DiscardDone card /\
       target_x h = (r_x (discardPile env) + r_width (discardPile env) / 2)%Q /\
       target_y h = (r_y (discardPile env) + r_height (discardPile env) / 2)%Q).
Proof.
  intros Hpid Hc Hs Hp Hi. cbn zeta. split.
  - intros Hh.
    assert (E : onCardPlay env pid card s = Throw "TypeError" s).
    { unfold onCardPlay. rewrite (proj2 (Z.eqb_neq pid (-1)) Hpid).
      unfold spriteOf, getSprite, getPool, getCard, getHandCanvas, typeError, throw,
        ret, bind.
      rewrite Hc, Hs. cbn. rewrite Hp, Hi. cbn. by rewrite Hh. }
    by rewrite E.
  - intros [hcs Hh].
    rewrite (onCardPlay_hand_run s pid card cd i p sp hcs) by done.
    cbn [final returned animationCount spritePool].
    split; [done|]. split; [done|].
    eexists _, _. split.
    { f_equal. rewrite list_insert_alter. apply list_alter_ext; [|done].
      intros x Hx. rewrite Hi in Hx. injection Hx as <-. reflexivity. }
    cbn [playerIndex handIndex zIndex shown pos_x pos_y parent motion onArrive target_x
         target_y sp_moveto sp_setMotion sp_setShown sp_setOwner sp_setHandIndex sp_setZ].
    split; [done|]. split; [done|]. split; [done|]. split; [done|].
    split; [by destruct (globalPosition env sp)|].
    split; [|done].
    destruct (detached_fields (OnHand (Z.to_nat pid)) (fst (globalPosition env sp))
                (snd (globalPosition env sp)) sp) as [H|H]; [exact H|discriminate H].
Qed.

End Play.

(** ** Dealing cards *)

Section Draw.

Import Scene_Game.

Variable env : Env.

Lemma onCardDraw_from_run (pid : Z) (n : nat) (show : bool) (rest : list nat) :
  forall (i : nat) (s : t),
  onCardDraw_from pid n show i rest s
  = Return tt (set_timers (timers s ++ drawTimers pid show n i rest) s).
Proof.
  induction rest as [|c rest IH]; intros i s.
  - cbn. rewrite app_nil_r. by destruct s.
  - cbn [onCardDraw_from]. unfold setTimeout, modify, bind at 1.
    rewrite IH. cbn [timers set_timers]. f_equal.
    unfold drawTimers. cbn [imap]. rewrite <- app_assoc. cbn [app].
    rewrite Nat.add_0_r. unfold set_timers. cbn. do 3 f_equal.
    apply imap_ext. intros k x _. cbn. by rewrite Nat.add_succ_r.
Qed.

(** X17. [onCardDraw] only sets timers, one per card in the order of
    the cards: the [k]-th fires after [300 * k] ms and is the one flagged
    to rearrange the hand exactly when it is the last. It starts no
    animation itself, so [isBusy] is what it was. *)
Theorem onCardDraw_schedule (s : t) (pid : Z) (cs : list nat) (show : bool) :
  let s' := final (onCardDraw pid cs show s) in
  returned (onCardDraw pid cs show s) = true /\
  timers s' = timers s ++ drawTimers pid show (length cs) 0 cs /\
  (forall (k c : nat), cs !! k = Some c ->
     timers s' !! (length (timers s) + k)%nat
     = Some (300 * Z.of_nat k,
             ProcessCardDrawAnimation pid c show (bool_decide (S k = length cs))
               (Z.of_nat k))) /\
  animationCount s' = animationCount s /\ spritePool s' = spritePool s /\
  cards s' = cards s /\ isBusy s' = isBusy s.
Proof.
  cbn zeta. unfold onCardDraw. rewrite onCardDraw_from_run.
  cbn [final returned timers set_timers]. split; [done|]. split; [done|].
  split; [|done].
  intros k c Hk. rewrite lookup_app_r by lia.
  replace (length (timers s) + k - length (timers s))%nat with k by lia.
  unfold drawTimers. rewrite list_lookup_imap, Hk. cbn [fmap option_fmap option_map Nat.add].
  do 3 f_equal.
  destruct (Nat.eqb_spec (S k) (length cs)); [by rewrite bool_decide_true|
                                               by rewrite bool_decide_false].
Qed.

Lemma processCardDrawAnimation_run (s : t) (pid : Z) (card : nat) (cd : Card)
    (show ar : bool) (p : list CardSprite) (i : nat) (hcs : Rect) :
  cards s !! card = Some cd -> spritePool s = Some p -> findIdle p = Some i ->
  0 <= pid -> at_Z (handCanvas env) pid = Some hcs ->
  processCardDrawAnimation env pid card show ar s
  = Return tt
      (mk (base s) (cardSpritePoolSize s) (animationCount s + 1) (playerPhase s)
          (Some (alter (dealt env pid card show ar hcs) i p)) (players s)
          (<[card := mkCard (color cd) (value cd) (numID cd) (Some i)]> (cards s))
          (timers s)).
Proof.
  intros Hc Hp Hf Hpid Hh.
  unfold processCardDrawAnimation, addAnimationCount, modify, bind at 1 2.
  rewrite (getIdleCardSprite_found env _ p i) by done.
  unfold updSprite, bindSprite, getCard, getHandCanvas, ret, modify, bind.
  cbn. rewrite Hc. cbn. rewrite (proj2 (Z.leb_le 0 pid) Hpid), Hh. cbn.
  rewrite Hp. cbn. rewrite !list_alter_alter_eq.
  f_equal. unfold set_spritePool, set_cards, set_animationCount. cbn. f_equal. apply map_eq. intros k. destruct (decide (card = k)) as [->|Hne].
  - by rewrite lookup_alter_eq, lookup_insert_eq, Hc.
  - by rewrite lookup_alter_ne, lookup_insert_ne.
Qed.

Lemma findIdle_lookup (p : list CardSprite) (i : nat) :
  findIdle p = Some i -> exists sp, p !! i = Some sp /\ playerIndex sp = -2.
Proof.
  intros H. destruct (findIdle_from_Some p 0 i H) as (j & sp & -> & Hl & Ho & _).
  by exists sp.
Qed.

(** X18. A card of an unknown colour that is dealt to a seat: the deal
    returns and counts an animation; when the animation ends, the
    callback throws on the card image before it lowers [animationCount],
    and the handle is gone, so that no later end of the animation lowers
    it either: the scene stays busy. *)
Theorem draw_invalid_color_keeps_count (s : t) (pid : Z) (card : nat) (cd : Card)
    (show ar : bool) (p : list CardSprite) (i : nat) (hcs : Rect) :
  cards s !! card = Some cd -> color cd ∉ knownColors env ->
  spritePool s = Some p -> findIdle p = Some i ->
  0 <= pid -> at_Z (handCanvas env) pid = Some hcs ->
  let s1 := final (processCardDrawAnimation env pid card show ar s) in
  let s2 := final (arrive env i s1) in
  returned (processCardDrawAnimation env pid card show ar s) = true /\
  animationCount s1 = animationCount s + 1 /\
  arrive env i s1 = Throw ("Invalid card color: " +:+ pretty (color cd)) s2 /\
  animationCount s2 = animationCount s + 1 /\
  arrive env i s2 = Return tt s2 /\
  (0 <= animationCount s -> isBusy s2 = true).
Proof.
  intros Hc Hbad Hp Hf Hpid Hh. cbn zeta.
  destruct (findIdle_lookup p i Hf) as (sp & Hi & _).
  rewrite (processCardDrawAnimation_run s pid card cd show ar p i hcs) by done.
  cbn [final returned animationCount].
  set (s1 := mk _ _ _ _ _ _ _ _).
  assert (E : arrive env i s1
              = Throw ("Invalid card color: " +:+ pretty (color cd))
                  (set_spritePool
                     (Some (alter (fun x =>
                              sp_setMotion None
                                (sp_setPOS (r_x hcs + r_width hcs / 2)
                                           (r_y hcs + r_height hcs / 2)
                                   (dealt env pid card show ar hcs x))) i p)) s1)).
  { unfold arrive, getSprite, getPool, bind at 1 2. cbn [spritePool s1].
    rewrite list_lookup_alter_eq, Hi. cbn [fmap option_fmap option_map ret motion dealt
      sp_moveto sp_setMotion onArrive target_x target_y].
    unfold runCallback, updSprite, getCard, modify, bind. cbn.
    rewrite lookup_insert_eq. cbn.
    rewrite (getCardImage_bad_color env (mkCard (color cd) (value cd) (numID cd) (Some i)))
      by done.
    cbn. by rewrite list_alter_alter_eq. }
  rewrite E. cbn [final animationCount set_spritePool s1].
  split; [done|]. split; [done|]. split; [done|]. split; [done|]. split.
  - eapply arrive_nothing; [reflexivity| |].
    + by rewrite list_lookup_alter_eq, Hi.
    + done.
  - intros H0. unfold isBusy, isAnimationPlaying.
    replace (animationCount (set_spritePool _ s1)) with (animationCount s + 1) by done.
    destruct (Z.eqb_spec (animationCount s + 1) 0); [lia|].
    by destruct (Scene_Base.isBusy _).
Qed.







End Draw.

(** ** The hand canvases *)

Section Canvas.

Import Scene_Game.

Variables gw gh spacing : Q.

Lemma seatCanvases_snoc (n : nat) :
  seatCanvases (S n)
  = (alter (fun c => c + 1) (n mod 4)%nat (fst (seatCanvases n)),
     snd (seatCanvases n) ++ [mkRect 0 0 350 225]).
Proof. unfold seatCanvases. by rewrite seq_S, foldl_app. Qed.

Lemma seatsOnSide_S (n i : nat) :
  (i < 4)%nat ->
  seatsOnSide (S n) i
  = (seatsOnSide n i + (if decide (n mod 4 = i)%nat then 1 else 0))%nat.
Proof.
  intros Hi. unfold seatsOnSide.
  destruct (decide (n mod 4 = i)%nat) as [E|E].
  - pose proof (Nat.div_mod_eq n 4).
    pose proof (Nat.div_mod_eq (S n + 3 - i) 4).
    pose proof (Nat.div_mod_eq (n + 3 - i) 4).
    pose proof (Nat.mod_upper_bound (S n + 3 - i) 4).
    pose proof (Nat.mod_upper_bound (n + 3 - i) 4).
    pose proof (Nat.mod_upper_bound n 4). lia.
  - pose proof (Nat.div_mod_eq n 4).
    pose proof (Nat.div_mod_eq (S n + 3 - i) 4).
    pose proof (Nat.div_mod_eq (n + 3 - i) 4).
    pose proof (Nat.mod_upper_bound (S n + 3 - i) 4).
    pose proof (Nat.mod_upper_bound (n + 3 - i) 4).
    pose proof (Nat.mod_upper_bound n 4). lia.
Qed.

Lemma seatCanvases_spec (n : nat) :
  length (fst (seatCanvases n)) = 4%nat /\
  (forall i, (i < 4)%nat -> fst (seatCanvases n) !! i = Some (Z.of_nat (seatsOnSide n i))) /\
  snd (seatCanvases n) = replicate n (mkRect 0 0 350 225).
Proof.
  induction n as [|n (Hl & Hc & Hs)].
  - split; [done|]. split; [|done].
    intros [|[|[|[|i]]]] Hi; (done || lia).
  - rewrite seatCanvases_snoc. cbn [fst snd]. split; [by rewrite length_alter|]. split.
    + intros i Hi. rewrite (seatsOnSide_S n i Hi).
      destruct (decide (n mod 4 = i)%nat) as [E|E].
      * rewrite E, list_lookup_alter_eq, (Hc i Hi). cbn. f_equal. lia.
      * rewrite list_lookup_alter_ne by done. rewrite (Hc i Hi). f_equal. lia.
    + rewrite Hs. by rewrite <- replicate_S_end.
Qed.


Lemma placeLoop_app (i : nat) (portion : Z) (js1 js2 : list nat) : forall hc,
  placeLoop gw gh spacing i portion (js1 ++ js2) hc
  = placeLoop gw gh spacing i portion js1 hc ≫= placeLoop gw gh spacing i portion js2.
Proof.
  induction js1 as [|j js1 IH]; intros hc; [done|].
  cbn [app placeLoop]. destruct (hc !! (i + 4 * j)%nat); [apply IH|done].
Qed.

Lemma side_round (i c : nat) :
  (i < 4)%nat -> ((i + 4 * c) mod 4 = i /\ (i + 4 * c) / 4 = c)%nat.
Proof.
  intros Hi.
  pose proof (Nat.div_mod_eq (i + 4 * c) 4).
  pose proof (Nat.mod_upper_bound (i + 4 * c) 4). lia.
Qed.

Lemma side_round_inv (i k : nat) :
  (k mod 4 = i -> k = i + 4 * (k / 4))%nat.
Proof. intros <-. pose proof (Nat.div_mod_eq k 4). lia. Qed.

Lemma placeLoop_spec (i : nat) (portion : Z) (hc : list Rect) (c : nat) :
  (i < 4)%nat ->
  (forall j, (j < c)%nat -> (i + 4 * j < length hc)%nat) ->
  exists hc', placeLoop gw gh spacing i portion (seq 0 c) hc = Some hc' /\
    length hc' = length hc /\
    forall k, hc' !! k
              = if decide ((k mod 4 = i)%nat /\ (k / 4 < c)%nat)
                then placeCanvas gw gh spacing i portion (k / 4) <$> hc !! k
                else hc !! k.
Proof.
  intros Hi. induction c as [|c IH]; intros Hlen.
  - exists hc. split; [done|]. split; [done|]. intros k.
    destruct (decide _) as [[_ H]|_]; [lia|done].
  - destruct IH as (hc1 & E1 & L1 & H1); [intros j Hj; apply Hlen; lia|].
    rewrite seq_S, placeLoop_app, E1. cbn [mbind option_bind placeLoop Nat.add].
    destruct (side_round i c Hi) as [Hm Hd].
    destruct (lookup_lt_is_Some_2 hc (i + 4 * c)%nat) as [x Hx]; [apply Hlen; lia|].
    assert (Hx1 : hc1 !! (i + 4 * c)%nat = Some x).
    { rewrite H1, Hm, Hd. destruct (decide _) as [[_ H]|_]; [lia|done]. }
    rewrite Hx1. eexists. split; [done|]. split; [by rewrite length_insert|].
    intros k. destruct (decide (k = i + 4 * c)%nat) as [->|Hne].
    + rewrite list_lookup_insert_eq by (rewrite L1; apply Hlen; lia).
      rewrite Hm, Hd. destruct (decide _) as [_|H]; [by rewrite Hx|lia].
    + rewrite list_lookup_insert_ne by done. rewrite H1.
      destruct (decide (k mod 4 = i /\ k / 4 < c)%nat) as [[Ha Hb]|Hn];
        destruct (decide (k mod 4 = i /\ k / 4 < S c)%nat) as [[Ha' Hb']|Hn']; try done.
      * destruct Hn'. split; [done|lia].
      * destruct Hn. split; [done|]. pose proof (side_round_inv i k Ha'). lia.
Qed.

Lemma seat_in_range (n i j : nat) :
  (i < 4)%nat -> (j < seatsOnSide n i)%nat -> (i + 4 * j < n)%nat.
Proof.
  unfold seatsOnSide. intros Hi Hj.
  pose proof (Nat.div_mod_eq (n + 3 - i) 4).
  pose proof (Nat.mod_upper_bound (n + 3 - i) 4). lia.
Qed.

Lemma seat_has_round (n k : nat) :
  (k < n)%nat -> (k / 4 < seatsOnSide n (k mod 4))%nat.
Proof.
  unfold seatsOnSide. intros Hk.
  pose proof (Nat.div_mod_eq k 4). pose proof (Nat.mod_upper_bound k 4).
  pose proof (Nat.div_mod_eq (n + 3 - k mod 4) 4).
  pose proof (Nat.mod_upper_bound (n + 3 - k mod 4) 4). lia.
Qed.

Lemma sideLoop_spec (n : nat) (b : nat) : forall (a : nat) (hc : list Rect),
  (a + b <= 4)%nat -> length hc = n ->
  (forall k, (k < n)%nat ->
     hc !! k = Some (if decide (k mod 4 < a)%nat then placedCanvas gw gh spacing n k
                     else mkRect 0 0 350 225)) ->
  exists hc', sideLoop gw gh spacing (fst (seatCanvases n)) (seq a b) hc = Some hc' /\
    length hc' = n /\
    forall k, (k < n)%nat ->
      hc' !! k = Some (if decide (k mod 4 < a + b)%nat then placedCanvas gw gh spacing n k
                       else mkRect 0 0 350 225).
Proof.
  induction b as [|b IH]; intros a hc Hab Hl Hk.
  - exists hc. split; [done|]. split; [done|]. intros k Hkn.
    by rewrite Nat.add_0_r, Hk.
  - cbn [seq sideLoop].
    destruct (seatCanvases_spec n) as (_ & Hc & _).
    assert (Hca := Hc a ltac:(lia)). apply list_lookup_total_correct in Hca. rewrite Hca.
    rewrite Nat2Z.id.
    destruct (placeLoop_spec a
                (Z.min (Z.of_nat (seatsOnSide n a)) (maxNumbers !!! a)) hc
                (seatsOnSide n a)) as (hc1 & E1 & L1 & H1); [lia| |].
    { intros j Hj. rewrite Hl. apply seat_in_range; [lia|done]. }
    rewrite E1.
    destruct (IH (S a) hc1) as (hc2 & E2 & L2 & H2); [lia|congruence| |].
    { intros k Hkn. rewrite H1, (Hk k Hkn).
      destruct (decide (k mod 4 = a /\ k / 4 < seatsOnSide n a)%nat) as [[Ha Hb]|Hn].
      - destruct (decide (k mod 4 < a)%nat); [lia|].
        destruct (decide (k mod 4 < S a)%nat); [|lia].
        cbn. unfold placedCanvas. by rewrite Ha.
      - destruct (decide (k mod 4 < a)%nat); destruct (decide (k mod 4 < S a)%nat);
          try done; try lia.
        destruct Hn. assert (k mod 4 = a)%nat as Ha by lia. split; [done|].
        rewrite <- Ha. by apply seat_has_round. }
    exists hc2. split; [done|]. split; [done|]. intros k Hkn.
    rewrite (H2 k Hkn). by replace (a + S b)%nat with (S a + b)%nat by lia.
Qed.

Lemma side_parity (index : nat) :
  (Nat.land (index mod 4) 1 =? 0)%nat = Z.even (Z.of_nat index).
Proof.
  assert (Hl : Nat.land (index mod 4) 1 = ((index mod 4) mod 2)%nat).
  { exact (Nat.land_ones (index mod 4) 1). }
  rewrite Hl. clear Hl.
  pose proof (Nat.div_mod_eq index 4). pose proof (Nat.mod_upper_bound index 4).
  pose proof (Nat.div_mod_eq (index mod 4) 2).
  pose proof (Nat.mod_upper_bound (index mod 4) 2).
  destruct (Nat.eqb_spec ((index mod 4) mod 2) 0) as [e|e];
    destruct (Z.even (Z.of_nat index)) eqn:E; try done.
  - assert (O : Z.odd (Z.of_nat index) = true).
    { rewrite <- Z.negb_even. rewrite E. reflexivity. }
    apply Z.odd_spec in O as [m Hm]. lia.
  - apply Z.even_spec in E as [m Hm]. lia.
Qed.

Lemma placedCanvas_extent (n index : nat) :
  canvasWidth (Z.of_nat index) (placedCanvas gw gh spacing n index) = 350%Q /\
  canvasHeight (Z.of_nat index) (placedCanvas gw gh spacing n index) = 225%Q.
Proof.
  unfold placedCanvas, placeCanvas, canvasWidth, canvasHeight.
  rewrite land_1_even, side_parity. by destruct (Z.even (Z.of_nat index)).
Qed.

Lemma side_parity_nat (index : nat) :
  (Nat.land (index mod 4) 1 =? 0)%nat = Nat.even index.
Proof.
  assert (Hl : Nat.land (index mod 4) 1 = ((index mod 4) mod 2)%nat).
  { exact (Nat.land_ones (index mod 4) 1). }
  rewrite Hl. clear Hl.
  pose proof (Nat.div_mod_eq index 4). pose proof (Nat.mod_upper_bound index 4).
  pose proof (Nat.div_mod_eq (index mod 4) 2).
  pose proof (Nat.mod_upper_bound (index mod 4) 2).
  destruct (Nat.eqb_spec ((index mod 4) mod 2) 0) as [e|e];
    destruct (Nat.even index) eqn:E; try done.
  - assert (O : Nat.odd index = true).
    { rewrite <- Nat.negb_even. rewrite E. reflexivity. }
    apply Nat.odd_spec in O as [m Hm]. lia.
  - apply Nat.even_spec in E as [m Hm]. lia.
Qed.

Lemma createHandCanvas_run (n : nat) :
  exists hc, createHandCanvas gw gh spacing n = Some hc /\ length hc = n /\
    forall index, (index < n)%nat ->
      hc !! index = Some (placedCanvas gw gh spacing n index).
Proof.
  unfold createHandCanvas.
  destruct (seatCanvases_spec n) as (_ & _ & Hs).
  destruct (sideLoop_spec n 4 0 (snd (seatCanvases n))) as (hc & E & L & H); [lia| | |].
  - by rewrite Hs, length_replicate.
  - intros k Hk. rewrite Hs, lookup_replicate_2 by done.
    by destruct (decide (k mod 4 < 0)%nat); [lia|].
  - exists hc. split; [done|]. split; [done|]. intros index Hlt.
    rewrite (H index Hlt).
    destruct (decide (index mod 4 < 0 + 4)%nat) as [_|Hge]; [done|].
    pose proof (Nat.mod_upper_bound index 4). lia.
Qed.

(** X20. [createHandCanvas] does not fail, whatever the number of
    players, and makes one canvas per player. The canvas of seat [index]
    is placed once, by the round [index / 4] of side [index mod 4]; it is
    350 long along the axis the seat stacks its cards on and 225
    across. *)
Theorem createHandCanvas_places_every_seat (n : nat) :
  exists hc, createHandCanvas gw gh spacing n = Some hc /\ length hc = n /\
    forall index hcs, hc !! index = Some hcs ->
      hcs = placeCanvas gw gh spacing (index mod 4)
              (Z.min (Z.of_nat (seatsOnSide n (index mod 4)))
                     (maxNumbers !!! (index mod 4)%nat))
              (index / 4) (mkRect 0 0 350 225) /\
      canvasWidth (Z.of_nat index) hcs = 350%Q /\
      canvasHeight (Z.of_nat index) hcs = 225%Q.
Proof.
  destruct (createHandCanvas_run n) as (hc & E & L & H).
  exists hc. split; [done|]. split; [done|]. intros index hcs Hi.
  assert (Hlt : (index < n)%nat) by (rewrite <- L; by eapply lookup_lt_Some).
  rewrite (H index Hlt) in Hi. injection Hi as <-.
  split; [done|]. apply placedCanvas_extent.
Qed.

(** X21. Two seats of the same side get the same rectangle whenever the
    slot of that side ([Graphics.width] or [Graphics.height] divided by
    the number of its seats, at most [maxNumbers]) is longer than 350:
    the centring overwrites the offset of the round. *)
Theorem createHandCanvas_same_side_overlap (n a b : nat) (hc : list Rect) (ha hb : Rect) :
  createHandCanvas gw gh spacing n = Some hc ->
  hc !! a = Some ha -> hc !! b = Some hb ->
  (a mod 4 = b mod 4)%nat ->
  (350 < (if Nat.even a then gw else gh)
         / inject_Z (Z.min (Z.of_nat (seatsOnSide n (a mod 4)))
                           (maxNumbers !!! (a mod 4)%nat)))%Q ->
  ha = hb.
Proof.
  intros E Ha Hb Hab Hwide.
  destruct (createHandCanvas_run n) as (hc' & E' & L & H).
  rewrite E in E'. injection E' as <-.
  rewrite (H a) in Ha by (rewrite <- L; by eapply lookup_lt_Some).
  rewrite (H b) in Hb by (rewrite <- L; by eapply lookup_lt_Some).
  injection Ha as <-. injection Hb as <-.
  unfold placedCanvas, placeCanvas. rewrite <- Hab.
  rewrite side_parity_nat.
  destruct (Nat.even a); cbn [r_width r_height hc_resize].
  - destruct (Qle_bool _ 350) eqn:Q; [|done].
    apply Qle_bool_iff in Q. by apply Qlt_not_le in Hwide.
  - destruct (Qle_bool _ 350) eqn:Q; [|done].
    apply Qle_bool_iff in Q. by apply Qlt_not_le in Hwide.
Qed.

End Canvas.

(** ** The further gameplay properties, at the sample scenes *)

Section MoreAtSamples.

Import Scene_Game Samples.

Lemma playedScene_reachable : reachable sampleEnv playedScene.
Proof.
  unfold playedScene. do 3 (apply reachable_exec; [|exact I]).
  apply reachable_created.
Qed.

Lemma sampleHand_bound : Forall2 (boundTo handScene) [0; 1; 2]%nat [0; 1; 2]%nat.
Proof. repeat constructor; eexists; split; reflexivity. Qed.

Lemma colour7_unknown : 7 ∉ knownColors sampleEnv.
Proof.
  unfold knownColors. rewrite !not_elem_of_cons.
  repeat split; try discriminate. apply not_elem_of_nil.
Qed.

(** After card [0] was played, sprite [0] is in play and sprite [1] is
    the first unowned one. *)
Lemma getIdleCardSprite_first_fit_witness :
  getIdleCardSprite sampleEnv playedScene = Return 1%nat playedScene.
Proof.
  destruct (getIdleCardSprite_first_fit sampleEnv playedScene
              (from_option id [] (spritePool playedScene)) 1%nat
              (freshCardSprite sampleEnv 1)) as [H _].
  - vm_compute. reflexivity.
  - vm_compute. reflexivity.
  - reflexivity.
  - intros [|j] sp' Hj Hl; [|lia]. vm_compute in Hl. injection Hl as <-.
    vm_compute. discriminate.
  - exact H.
Defined.

Lemma getIdleCardSprite_before_create_witness :
  exists p, spritePool (final (createCardSpritePool sampleEnv
                          (final (getIdleCardSprite sampleEnv constructor)))) = Some p /\
            length p = 117%nat.
Proof.
  destruct (getIdleCardSprite_before_create sampleEnv constructor eq_refl)
    as (_ & _ & _ & p & Hp & Hl).
  exists p. split; [exact Hp|exact Hl].
Defined.

Lemma sprite_index_is_pool_position_witness :
  exists sp, (spritePool playedScene ≫= (.!! 0%nat)) = Some sp /\
             index sp = 0%nat /\ handIndex sp = -1.
Proof.
  pose (p := from_option id [] (spritePool playedScene)).
  assert (Hp : spritePool playedScene = Some p) by (vm_compute; reflexivity).
  destruct (p !! 0%nat) as [sp|] eqn:E; [|vm_compute in E; discriminate E].
  exists sp. rewrite Hp. split; [exact E|].
  exact (sprite_index_is_pool_position sampleEnv playedScene p 0%nat sp
           playedScene_reachable Hp E).
Defined.

Lemma arrangeHandCards_accounting_witness :
  animationCount (final (arrangeHandCards sampleEnv 0 handScene)) = 3 /\
  at_Z (players (final (arrangeHandCards sampleEnv 0 handScene))) 0
  = Some (mkPlayer [0; 1; 2]%nat [0; 1; 2]%nat).
Proof.
  destruct (arrangeHandCards_accounting sampleEnv handScene 0
              (mkPlayer [0; 1; 2]%nat []) (mkRect 225 375 350 225)
              (map (fun i => sp_setShown true
                               (sp_setOwner 0 (freshCardSprite sampleEnv i)))
                   [0; 1; 2]%nat)
              [0; 1; 2]%nat eq_refl eq_refl eq_refl sampleHand_bound)
    as (_ & Hc & Hl & _).
  split; [exact Hc|exact Hl].
Defined.

Lemma arrangeHandCards_stops_at_unbound_card_witness :
  returned (arrangeHandCards sampleEnv 0 brokenHandScene) = false /\
  animationCount (final (arrangeHandCards sampleEnv 0 brokenHandScene)) = 2.
Proof.
  destruct (arrangeHandCards_stops_at_unbound_card sampleEnv brokenHandScene 0
              (mkPlayer [0; 1; 5]%nat []) (mkRect 225 375 350 225)
              (map (fun i => sp_setShown true
                               (sp_setOwner 0 (freshCardSprite sampleEnv i)))
                   [0; 1; 2]%nat)
              [0; 1]%nat [] [0; 1]%nat 5%nat eq_refl eq_refl eq_refl eq_refl)
    as (Hr & Ha & _).
  - repeat constructor; eexists; split; reflexivity.
  - intros j (cd & H & _). vm_compute in H. discriminate H.
  - split; [exact Hr|exact Ha].
Defined.

Lemma hand_layout_centred_witness :
  (0 <= alongAxis 0 (handTarget sampleEnv 0 (mkRect 225 375 350 225) 3 0) - 50 / 2)%Q /\
  (alongAxis 0 (handTarget sampleEnv 0 (mkRect 225 375 350 225) 3 2) + 50 / 2 <= 350)%Q.
Proof.
  apply (proj2 (proj2 (hand_layout_centred sampleEnv 0 (mkRect 225 375 350 225) 3 0)) 0%Q).
  - lia.
  - reflexivity.
  - vm_compute. discriminate.
  - vm_compute. discriminate.
Defined.

Lemma onCardPlay_from_hand_witness :
  returned (onCardPlay sampleEnv 0 0 heldScene) = true /\
  animationCount (final (onCardPlay sampleEnv 0 0 heldScene)) = 1.
Proof.
  destruct (onCardPlay_from_hand sampleEnv heldScene 0 0%nat
              (mkCard 0 5 0 (Some 0%nat)) 0%nat
              [sp_setHandIndex 3 (sp_setShown true
                 (sp_setOwner 0 (freshCardSprite sampleEnv 0)))]
              (sp_setHandIndex 3 (sp_setShown true
                 (sp_setOwner 0 (freshCardSprite sampleEnv 0)))))
    as (_ & H); [lia|reflexivity|reflexivity|reflexivity|reflexivity|].
  destruct H as (Hr & Ha & _); [by eexists|].
  split; [exact Hr|exact Ha].
Defined.

Lemma draw_invalid_color_keeps_count_witness :
  animationCount
    (final (arrive sampleEnv 0
              (final (processCardDrawAnimation sampleEnv 0 0 false true oddCardScene))))
  = 1 /\
  isBusy
    (final (arrive sampleEnv 0
              (final (processCardDrawAnimation sampleEnv 0 0 false true oddCardScene))))
  = true.
Proof.
  destruct (draw_invalid_color_keeps_count sampleEnv oddCardScene 0 0%nat
              (mkCard 7 5 0 None) false true
              (from_option id [] (spritePool oddCardScene)) 0%nat
              (mkRect 225 375 350 225))
    as (_ & _ & _ & Ha & _ & Hb).
  - vm_compute. reflexivity.
  - exact colour7_unknown.
  - vm_compute. reflexivity.
  - vm_compute. reflexivity.
  - lia.
  - reflexivity.
  - split; [rewrite Ha; vm_compute; reflexivity|].
    apply Hb. vm_compute. discriminate.
Defined.


(** Five players on a screen 1000 wide: the seats [0] and [4] share the
    bottom side and get the same rectangle. *)
Lemma createHandCanvas_same_side_overlap_witness :
  exists hc ha, createHandCanvas 1000 600 8 5 = Some hc /\
                hc !! 0%nat = Some ha /\ hc !! 4%nat = Some ha.
Proof.
  pose (hc := from_option id [] (createHandCanvas 1000 600 8 5)).
  pose (ha := from_option id (mkRect 0 0 0 0) (hc !! 0%nat)).
  pose (hb := from_option id (mkRect 0 0 0 0) (hc !! 4%nat)).
  assert (E : createHandCanvas 1000 600 8 5 = Some hc) by (vm_compute; reflexivity).
  assert (Ha : hc !! 0%nat = Some ha) by (vm_compute; reflexivity).
  assert (Hb : hc !! 4%nat = Some hb) by (vm_compute; reflexivity).
  assert (Hab : ha = hb).
  { apply (createHandCanvas_same_side_overlap 1000 600 8 5 0 4 hc ha hb E Ha Hb eq_refl).
    vm_compute. reflexivity. }
  exists hc, ha. split; [exact E|]. split; [exact Ha|]. rewrite Hab. exact Hb.
Defined.

Lemma revealScenes_reachable :
  reachable sampleEnv systemRevealScene /\ reachable sampleEnv seatRevealScene.
Proof.
  split; (apply reachable_run; [apply reachable_created|]; repeat constructor).
Qed.

(** The release, for the system seat and for seat [0]. *)
Lemma sendCardToDeck_release_witness :
  (reachable sampleEnv systemRevealScene /\
   timers systemRevealScene = [(2000, SendCardToDeck (-1) 0)] /\
   exists sp sp',
     (spritePool systemRevealScene ≫= (.!! 0%nat)) = Some sp /\
     shown sp = true /\
     sendCardToDeck sampleEnv (-1) 0 systemRevealScene
     = Throw "TypeError" (final (sendCardToDeck sampleEnv (-1) 0 systemRevealScene)) /\
     (spritePool (final (sendCardToDeck sampleEnv (-1) 0 systemRevealScene))
        ≫= (.!! 0%nat)) = Some sp' /\
     playerIndex sp' = -2 /\ shown sp' = true /\
     (pos_x sp', pos_y sp') = (0%Q, 0%Q) /\ ~ idle sampleEnv sp') /\
  (reachable sampleEnv seatRevealScene /\
   exists sp',
     returned (sendCardToDeck sampleEnv 0 0 seatRevealScene) = true /\
     (spritePool (final (sendCardToDeck sampleEnv 0 0 seatRevealScene))
        ≫= (.!! 0%nat)) = Some sp' /\
     idle sampleEnv sp').
Proof.
  destruct revealScenes_reachable as [Hr1 Hr2].
  split.
  - split; [exact Hr1|]. split; [vm_compute; reflexivity|].
    pose (p := from_option id [] (spritePool systemRevealScene)).
    pose (sp := default (freshCardSprite sampleEnv 0) (p !! 0%nat)).
    assert (Hp : spritePool systemRevealScene = Some p) by (vm_compute; reflexivity).
    assert (Hi : p !! 0%nat = Some sp) by (vm_compute; reflexivity).
    assert (Hv : shown sp = true) by (vm_compute; reflexivity).
    assert (Hx : (pos_x sp, pos_y sp) = (0%Q, 0%Q)) by (vm_compute; reflexivity).
    assert (Hc : cards systemRevealScene !! 0%nat = Some (mkCard 0 5 0 (Some 0%nat)))
      by (vm_compute; reflexivity).
    clearbody sp. clearbody p.
    destruct (proj2 (sendCardToDeck_release sampleEnv systemRevealScene (-1) 0%nat
                       (mkCard 0 5 0 (Some 0%nat)) 0%nat p sp Hr1 Hc eq_refl Hp Hi)
                eq_refl)
      as (sp' & E & Ho & _ & Hs & Hpos & Hn).
    exists sp, sp'. rewrite E. cbn [final spritePool set_spritePool mbind option_bind].
    split; [by rewrite Hp|]. split; [exact Hv|]. split; [reflexivity|].
    split; [apply list_lookup_insert_eq; by eapply lookup_lt_Some|].
    split; [exact Ho|]. split; [by rewrite Hs|]. split; [by rewrite Hpos|].
    by apply Hn.
  - split; [exact Hr2|].
    pose (p := from_option id [] (spritePool seatRevealScene)).
    pose (sp := default (freshCardSprite sampleEnv 0) (p !! 0%nat)).
    assert (Hp : spritePool seatRevealScene = Some p) by (vm_compute; reflexivity).
    assert (Hi : p !! 0%nat = Some sp) by (vm_compute; reflexivity).
    assert (Hm : motion sp = None) by (vm_compute; reflexivity).
    assert (Hc : cards seatRevealScene !! 0%nat = Some (mkCard 0 5 0 (Some 0%nat)))
      by (vm_compute; reflexivity).
    clearbody sp. clearbody p.
    destruct (proj1 (sendCardToDeck_release sampleEnv seatRevealScene 0 0%nat
                       (mkCard 0 5 0 (Some 0%nat)) 0%nat p sp Hr2 Hc eq_refl Hp Hi)
                (ex_intro _ (mkRect 225 375 350 225) eq_refl))
      as (sp' & E & _ & _ & _ & _ & _ & Hidle).
    exists sp'. rewrite E. cbn [final returned spritePool set_spritePool mbind option_bind].
    split; [reflexivity|].
    split; [apply list_lookup_insert_eq; by eapply lookup_lt_Some|].
    by apply Hidle.
Defined.

End MoreAtSamples.
